(** * Korman material exporter: a shallow embedding of
      [korman/exporter/material.py] and the properties of its
      material / layer / texture pipeline.

    The Python module converts Blender materials into Plasma [hsGMaterial]
    objects.  It keeps three session tables ([_obj2mat], [_pending],
    [_alphatest]) and mutates Plasma objects reached through keys.  The
    embedding threads one [Session] value (the converter's attributes, the
    report sink and the Plasma object heap) through a state-and-exception
    monad: a raised Python exception keeps the mutations done so far, as it
    does in Python.  [print] calls only write to stdout and are left out. *)

From stdpp Require Import gmap strings list fin_maps pretty.
From Stdlib Require Import ZArith QArith.

Open Scope Z_scope.

(** ** Blender data read by the exporter *)

Definition Vec3 : Type := Q * Q * Q.
Definition Color : Type := Q * Q * Q.

Module bpy.

(** [bpy.types.Image]; an image datablock is identified by its fields
    (Blender keeps image names unique). *)
Record Image := {
  name : string;
  size : Z * Z;
  channels : Z;
  use_alpha : bool
}.

Record FCurve := {
  data_path : string;
  keyframe_points : list (Q * Q)
}.

Record Action := {
  fcurves : list FCurve;
  frame_range : Q * Q
}.

(** [bl_id.animation_data] is [None] or a struct whose [action] may be
    [None]. *)
Record AnimData := { action : option Action }.

(** [EnvironmentMap.source] and [EnvironmentMap.mapping] enums. *)
Inductive EnvSource := STATIC | ANIMATED | IMAGE_FILE.
Inductive EnvMapping := CUBE | PLANE.

(** [Texture.type]: the texture kinds of Blender 2.7x. *)
Inductive TextureType :=
  | NONE | BLEND | CLOUDS | DISTORTED_NOISE | ENVIRONMENT_MAP | IMAGE
  | MAGIC | MARBLE | MUSGRAVE | NOISE | OCEAN | POINT_DENSITY | STUCCI
  | VORONOI | VOXEL_DATA | WOOD.

Inductive Extension := EXTEND | CLIP | CLIP_CUBE | REPEAT | CHECKER.

Inductive BlendType := MIX | ADD | MULTIPLY | SUBTRACT | SCREEN | OVERLAY.

(** A Blender object as far as the material exporter looks at it:
    [bo.name], the names of [bo.data.uv_layers], [bo.location]. *)
Record Object := {
  ob_name : string;
  uv_layers : list string;
  location : Vec3
}.

Record EnvironmentMap := {
  source : EnvSource;
  mapping : EnvMapping;
  viewpoint_object : option Object;
  resolution : Z;
  clip_start : Q;
  clip_end : Q
}.

(** [texture.plasma_layer]: the Korman per-texture property group. *)
Record PlasmaLayer := {
  opacity : Q;
  alpha_halo : bool;
  anim_auto_start : bool;
  anim_loop : bool;
  envmap_color : Color;
  vis_regions : list string      (* [region.region_name] of each entry *)
}.

Record Texture := {
  tex_name : string;
  type : TextureType;
  image : option Image;
  use_calculate_alpha : bool;
  use_mipmap : bool;
  tex_use_alpha : bool;
  invert_alpha : bool;
  extension : Extension;
  environment_map : EnvironmentMap;
  plasma_layer : PlasmaLayer;
  tex_animation_data : option AnimData
}.

Record TextureSlot := {
  slot_name : string;
  use : bool;
  texture : option Texture;
  uv_layer : string;
  offset : Vec3;
  scale : Vec3;
  use_stencil : bool;
  blend_type : BlendType
}.

Record Material := {
  mat_name : string;
  texture_slots : list (option TextureSlot);
  use_mist : bool;
  diffuse_color : Color;
  specular_color : Color;
  mat_animation_data : option AnimData
}.

End bpy.

#[global] Instance Image_eq_dec : EqDecision bpy.Image.
Proof. solve_decision. Defined.

#[global] Instance Image_countable : Countable bpy.Image.
Proof.
  refine (inj_countable'
    (fun i => (bpy.name i, bpy.size i, bpy.channels i, bpy.use_alpha i))
    (fun t => match t with (n, s, c, a) => bpy.Build_Image n s c a end) _).
  by intros [].
Defined.

#[global] Instance TextureType_eq_dec : EqDecision bpy.TextureType.
Proof. solve_decision. Defined.

#[global] Instance EnvSource_eq_dec : EqDecision bpy.EnvSource.
Proof. solve_decision. Defined.

#[global] Instance EnvMapping_eq_dec : EqDecision bpy.EnvMapping.
Proof. solve_decision. Defined.

#[global] Instance Extension_eq_dec : EqDecision bpy.Extension.
Proof. solve_decision. Defined.

#[global] Instance BlendType_eq_dec : EqDecision bpy.BlendType.
Proof. solve_decision. Defined.

(** ** Plasma objects written by the exporter *)

(** A [plKey] is the position of its object in the session's object heap;
    a [plLocation] (a page) is an opaque number. *)
Abbreviation Key := nat (only parsing).
Abbreviation Location := nat (only parsing).

Definition hsColorRGBA : Type := Q * Q * Q * Q.

(** [hsMatrix44] as the exporter builds it: a translation and a scale. *)
Record hsMatrix44 := { translate : Vec3; mscale : Vec3 }.

Inductive plController := LeafController (keys : list (Q * Q)).

Record hsGMatState := {
  blendFlags : Z;
  clampFlags : Z;
  shadeFlags : Z;
  ZFlags : Z;
  miscFlags : Z
}.

Record plAnimTimeConvert := {
  atc_begin : Q;
  atc_end : Q;
  atc_flags : Z;
  loopBegin : Q;
  loopEnd : Q
}.

Inductive LayerClass := plLayer | plLayerAnimation.

(** [plLayerInterface]: the attributes shared by [plLayer] and
    [plLayerAnimation], followed by the animation-only ones. *)
Record plLayerInterface := {
  lclass : LayerClass;
  lname : string;
  state : hsGMatState;
  opacity : Q;
  texture : option Key;
  UVWSrc : Z;
  transform : hsMatrix44;
  ambient : hsColorRGBA;
  preshade : hsColorRGBA;
  runtime : hsColorRGBA;
  specular : hsColorRGBA;
  underLay : option Key;
  opacityCtl : option plController;
  transformCtl : option plController;
  timeConvert : plAnimTimeConvert
}.

Record hsGMaterial := {
  mname : string;
  compFlags : Z;
  layers : list Key
}.

Inductive EnvClass := plDynamicEnvMap | plDynamicCamMap.

(** The render-target settings the exporter writes to every face of an
    environment map. *)
Record FaceConfig := {
  config : Z;
  flags : Z;
  width : Z;
  height : Z;
  proportionalViewport : bool;
  viewport : Z * Z * Z * Z;       (* left, top, right, bottom *)
  ZDepth : Z
}.

Record plDynamicEnv := {
  eclass : EnvClass;
  ename : string;
  hither : Q;
  yon : Q;
  refreshRate : Q;
  incCharacters : bool;
  ecolor : hsColorRGBA;
  fogStart : Q;
  visRegions : list Key;
  rootNode : option Key;
  targetNodes : list (option Key);
  matLayers : list Key;
  disableTexture : option Key;
  camera : option Key;
  position : Vec3;
  faces : list FaceConfig         (* the map's own faces, then the map itself *)
}.

Record plDynamicTextMap := {
  dname : string;
  hasAlpha : bool;
  visWidth : Z;
  visHeight : Z
}.

Definition LevelData : Type := list Z.

Record plMipmap := {
  bname : string;
  bwidth : Z;
  bheight : Z;
  numLevels : Z;
  compType : Z;
  format : Z;
  dxtLevel : Z;
  levels : list LevelData
}.

Inductive PlObject :=
  | OLayer (l : plLayerInterface)
  | OMaterial (m : hsGMaterial)
  | OEnvMap (e : plDynamicEnv)
  | OTextMap (d : plDynamicTextMap)
  | OMipmap (b : plMipmap)
  | OSceneObject (n : string)
  | OVisRegion (n : string).

(** ** What the exporter takes from outside this module

    [PyHSPlasma] collects the enum values of the Plasma bindings that
    [material.py] names; [Collaborators] the services of the sibling modules
    (the resource manager, [korlib.GLTexture], the animation converter,
    [helpers], [utils]) and Python's string hash; [Scene] the parts of
    [bpy.context] and [bpy.data] that are read. *)

Class PyHSPlasma := {
  (* hsGMatState *)
  kBlendAlpha : Z;
  kBlendAlphaMult : Z;
  kBlendNoTexColor : Z;
  kBlendAddColorTimesAlpha : Z;
  kBlendMult : Z;
  kBlendAlphaTestHigh : Z;
  kBlendAlphaAdd : Z;
  kBlendInvertAlpha : Z;
  kBlendMask : Z;
  kClampTexture : Z;
  kZNoZWrite : Z;
  kMiscBindNext : Z;
  kMiscRestartPassHere : Z;
  kMiscCam2Screen : Z;
  kMiscPerspProjection : Z;
  kMiscUseRefractionXform : Z;
  kShadeEnvironMap : Z;
  kShadeNoFog : Z;
  kShadeReallyNoFog : Z;
  (* hsGMaterial *)
  kCompNeedsBlendChannel : Z;
  (* plLayerInterface *)
  kUVWPosition : Z;
  kUVWReflect : Z;
  (* plAnimTimeConvert *)
  kStopped : Z;
  kLoop : Z;
  (* plBitmap *)
  kRGB8888 : Z;
  kIsTexture : Z;
  kAlphaChannelFlag : Z;
  kDirectXCompression : Z;
  kUncompressed : Z;
  kDXT5 : Z;
  kDXT1 : Z;
  (* the faces a freshly built plDynamicEnvMap owns *)
  envmap_faces : nat
}.

Class Collaborators := {
  (* manager: the page a Blender object is exported to *)
  page_of : string -> Location;
  (* manager.get_textures_page(layer key) *)
  get_textures_page : Key -> Location;
  (* manager.getVer() >= pvMoul *)
  ver_ge_pvMoul : bool;
  (* helpers.ensure_power_of_two *)
  ensure_power_of_two : Z -> Z;
  (* utils.color *)
  utils_color : Color -> hsColorRGBA;
  (* korlib.GLTexture(image).has_alpha *)
  gl_has_alpha : bpy.Image -> bool;
  (* korlib.GLTexture(image), scaled to the given width and height, after
     generate_mipmap() when the flag is set: get_level_data(i, calc_alpha, fmt) *)
  get_level_data : bpy.Image -> Z -> Z -> bool -> nat -> bool -> bool -> LevelData;
  (* korlib.GLTexture.store_in_mipmap(mipmap, data, compression) *)
  store_in_mipmap : plMipmap -> list LevelData -> Z -> plMipmap;
  (* animation converter; None when there is nothing to export *)
  make_scalar_leaf_controller : bpy.FCurve -> option plController;
  make_matrix44_controller :
    list bpy.FCurve -> list bpy.FCurve -> Vec3 -> Vec3 -> option plController;
  (* Python's hash() of a str *)
  hash_str : string -> Z;
  (* str(pathlib.Path(name).with_suffix(suffix)) *)
  path_with_suffix : string -> string -> string
}.

Class Scene := {
  (* bpy.context.scene.world.ambient_color *)
  world_ambient_color : Color;
  (* bpy.context.scene.world.plasma_fni.fog_start *)
  fog_start : Q;
  (* bpy.context.scene.render.fps *)
  fps : Z;
  (* bpy.data.objects.get(name, None), with
     rgn.plasma_modifiers.visregion.enabled *)
  data_objects : string -> option (bpy.Object * bool)
}.

(** ** The texture identity [_Texture] *)

Record _Texture := {
  image : option bpy.Image;
  calc_alpha : bool;
  mipmap : bool;
  use_alpha : bool
}.

(** ** The session: converter attributes, report sink and object heap *)

Record Session := {
  heap : list (Location * PlObject);
  _obj2mat : gmap string (list Key);          (* keyed by the object ([bo]) *)
  _pending : list (_Texture * list Key);      (* dict, in insertion order *)
  _alphatest : gmap bpy.Image bool;
  warnings : list string                      (* report.warn *)
}.

(** [MaterialConverter.__init__] *)
Definition MaterialConverter_init : Session :=
  {| heap := []; _obj2mat := ∅; _pending := []; _alphatest := ∅; warnings := [] |}.

Definition with_heap (h : list (Location * PlObject)) (s : Session) : Session :=
  {| heap := h; _obj2mat := _obj2mat s; _pending := _pending s;
     _alphatest := _alphatest s; warnings := warnings s |}.

Definition with_obj2mat (m : gmap string (list Key)) (s : Session) : Session :=
  {| heap := heap s; _obj2mat := m; _pending := _pending s;
     _alphatest := _alphatest s; warnings := warnings s |}.

Definition with_pending (p : list (_Texture * list Key)) (s : Session) : Session :=
  {| heap := heap s; _obj2mat := _obj2mat s; _pending := p;
     _alphatest := _alphatest s; warnings := warnings s |}.

Definition with_alphatest (a : gmap bpy.Image bool) (s : Session) : Session :=
  {| heap := heap s; _obj2mat := _obj2mat s; _pending := _pending s;
     _alphatest := a; warnings := warnings s |}.

Definition with_warnings (w : list string) (s : Session) : Session :=
  {| heap := heap s; _obj2mat := _obj2mat s; _pending := _pending s;
     _alphatest := _alphatest s; warnings := w |}.

(** ** Exceptions and the exporter monad

    [material.py] imports the module [explosions] (line 22) and never the
    class [ExportError] that the module defines, and [from PyHSPlasma import
    *] does not bring that name either: where the file says [raise
    ExportError(...)] (lines 177, 352 and 354), looking the name up raises
    [NameError] before the message is built. *)

Inductive PyExc :=
  | ExportError (msg : string)
  | AssertionError
  | AttributeError
  | IndexError
  | KeyError
  | NameError
  | ValueError
  | ZeroDivisionError
  | OutOfFuel.     (* not a Python exception: a loop of the model ran out of fuel *)

Definition M (A : Type) : Type := Session -> Session * (PyExc + A).

Definition ret {A} (a : A) : M A := fun s => (s, inr a).

Definition raise {A} (e : PyExc) : M A := fun s => (s, inl e).

Definition bind {A B} (m : M A) (f : A -> M B) : M B :=
  fun s => match m s with
           | (s', inr a) => f a s'
           | (s', inl e) => (s', inl e)
           end.

Definition gets {A} (f : Session -> A) : M A := fun s => (s, inr (f s)).

Definition modify (f : Session -> Session) : M unit := fun s => (f s, inr tt).

(** Lift a pure fallible computation. *)
Definition lift {A} (r : PyExc + A) : M A := fun s => (s, r).

Declare Scope py_scope.
Delimit Scope py_scope with py.
Notation "x <- c ;; k" := (bind c (fun x => k))
  (at level 20, c at level 99, k at level 200, only parsing) : py_scope.
Notation "c ;; k" := (bind c (fun _ => k))
  (at level 100, k at level 200, only parsing, right associativity) : py_scope.
Open Scope py_scope.

(** [when b: body] *)
Definition when (b : bool) (m : M unit) : M unit := if b then m else ret tt.

(** [for x in xs: body] *)
Fixpoint for_each {A} (xs : list A) (body : A -> M unit) : M unit :=
  match xs with
  | [] => ret tt
  | x :: xs' => body x ;; for_each xs' body
  end.

(** ** Attribute assignment on Plasma objects *)

Definition set_state (v : hsGMatState) (l : plLayerInterface) : plLayerInterface :=
  {| lclass := lclass l; lname := lname l; state := v; opacity := opacity l;
     texture := texture l; UVWSrc := UVWSrc l; transform := transform l;
     ambient := ambient l; preshade := preshade l; runtime := runtime l;
     specular := specular l; underLay := underLay l; opacityCtl := opacityCtl l;
     transformCtl := transformCtl l; timeConvert := timeConvert l |}.

Definition set_opacity (v : Q) (l : plLayerInterface) : plLayerInterface :=
  {| lclass := lclass l; lname := lname l; state := state l; opacity := v;
     texture := texture l; UVWSrc := UVWSrc l; transform := transform l;
     ambient := ambient l; preshade := preshade l; runtime := runtime l;
     specular := specular l; underLay := underLay l; opacityCtl := opacityCtl l;
     transformCtl := transformCtl l; timeConvert := timeConvert l |}.

Definition set_texture (v : option Key) (l : plLayerInterface) : plLayerInterface :=
  {| lclass := lclass l; lname := lname l; state := state l; opacity := opacity l;
     texture := v; UVWSrc := UVWSrc l; transform := transform l;
     ambient := ambient l; preshade := preshade l; runtime := runtime l;
     specular := specular l; underLay := underLay l; opacityCtl := opacityCtl l;
     transformCtl := transformCtl l; timeConvert := timeConvert l |}.

Definition set_UVWSrc (v : Z) (l : plLayerInterface) : plLayerInterface :=
  {| lclass := lclass l; lname := lname l; state := state l; opacity := opacity l;
     texture := texture l; UVWSrc := v; transform := transform l;
     ambient := ambient l; preshade := preshade l; runtime := runtime l;
     specular := specular l; underLay := underLay l; opacityCtl := opacityCtl l;
     transformCtl := transformCtl l; timeConvert := timeConvert l |}.

Definition set_transform (v : hsMatrix44) (l : plLayerInterface) : plLayerInterface :=
  {| lclass := lclass l; lname := lname l; state := state l; opacity := opacity l;
     texture := texture l; UVWSrc := UVWSrc l; transform := v; ambient := ambient l;
     preshade := preshade l; runtime := runtime l; specular := specular l;
     underLay := underLay l; opacityCtl := opacityCtl l;
     transformCtl := transformCtl l; timeConvert := timeConvert l |}.

Definition set_ambient (v : hsColorRGBA) (l : plLayerInterface) : plLayerInterface :=
  {| lclass := lclass l; lname := lname l; state := state l; opacity := opacity l;
     texture := texture l; UVWSrc := UVWSrc l; transform := transform l;
     ambient := v; preshade := preshade l; runtime := runtime l;
     specular := specular l; underLay := underLay l; opacityCtl := opacityCtl l;
     transformCtl := transformCtl l; timeConvert := timeConvert l |}.

Definition set_preshade (v : hsColorRGBA) (l : plLayerInterface) : plLayerInterface :=
  {| lclass := lclass l; lname := lname l; state := state l; opacity := opacity l;
     texture := texture l; UVWSrc := UVWSrc l; transform := transform l;
     ambient := ambient l; preshade := v; runtime := runtime l;
     specular := specular l; underLay := underLay l; opacityCtl := opacityCtl l;
     transformCtl := transformCtl l; timeConvert := timeConvert l |}.

Definition set_runtime (v : hsColorRGBA) (l : plLayerInterface) : plLayerInterface :=
  {| lclass := lclass l; lname := lname l; state := state l; opacity := opacity l;
     texture := texture l; UVWSrc := UVWSrc l; transform := transform l;
     ambient := ambient l; preshade := preshade l; runtime := v;
     specular := specular l; underLay := underLay l; opacityCtl := opacityCtl l;
     transformCtl := transformCtl l; timeConvert := timeConvert l |}.

Definition set_specular (v : hsColorRGBA) (l : plLayerInterface) : plLayerInterface :=
  {| lclass := lclass l; lname := lname l; state := state l; opacity := opacity l;
     texture := texture l; UVWSrc := UVWSrc l; transform := transform l;
     ambient := ambient l; preshade := preshade l; runtime := runtime l;
     specular := v; underLay := underLay l; opacityCtl := opacityCtl l;
     transformCtl := transformCtl l; timeConvert := timeConvert l |}.

Definition set_underLay (v : option Key) (l : plLayerInterface) : plLayerInterface :=
  {| lclass := lclass l; lname := lname l; state := state l; opacity := opacity l;
     texture := texture l; UVWSrc := UVWSrc l; transform := transform l;
     ambient := ambient l; preshade := preshade l; runtime := runtime l;
     specular := specular l; underLay := v; opacityCtl := opacityCtl l;
     transformCtl := transformCtl l; timeConvert := timeConvert l |}.

Definition set_opacityCtl (v : option plController) (l : plLayerInterface) : plLayerInterface :=
  {| lclass := lclass l; lname := lname l; state := state l; opacity := opacity l;
     texture := texture l; UVWSrc := UVWSrc l; transform := transform l;
     ambient := ambient l; preshade := preshade l; runtime := runtime l;
     specular := specular l; underLay := underLay l; opacityCtl := v;
     transformCtl := transformCtl l; timeConvert := timeConvert l |}.

Definition set_transformCtl (v : option plController) (l : plLayerInterface) : plLayerInterface :=
  {| lclass := lclass l; lname := lname l; state := state l; opacity := opacity l;
     texture := texture l; UVWSrc := UVWSrc l; transform := transform l;
     ambient := ambient l; preshade := preshade l; runtime := runtime l;
     specular := specular l; underLay := underLay l; opacityCtl := opacityCtl l;
     transformCtl := v; timeConvert := timeConvert l |}.

Definition set_timeConvert (v : plAnimTimeConvert) (l : plLayerInterface) : plLayerInterface :=
  {| lclass := lclass l; lname := lname l; state := state l; opacity := opacity l;
     texture := texture l; UVWSrc := UVWSrc l; transform := transform l;
     ambient := ambient l; preshade := preshade l; runtime := runtime l;
     specular := specular l; underLay := underLay l; opacityCtl := opacityCtl l;
     transformCtl := transformCtl l; timeConvert := v |}.

(** [state.blendFlags |= v] *)
Definition or_blendFlags (v : Z) (st : hsGMatState) : hsGMatState :=
  {| blendFlags := Z.lor (blendFlags st) v; clampFlags := clampFlags st;
     shadeFlags := shadeFlags st; ZFlags := ZFlags st; miscFlags := miscFlags st |}.

(** [state.clampFlags |= v] *)
Definition or_clampFlags (v : Z) (st : hsGMatState) : hsGMatState :=
  {| blendFlags := blendFlags st; clampFlags := Z.lor (clampFlags st) v;
     shadeFlags := shadeFlags st; ZFlags := ZFlags st; miscFlags := miscFlags st |}.

(** [state.shadeFlags |= v] *)
Definition or_shadeFlags (v : Z) (st : hsGMatState) : hsGMatState :=
  {| blendFlags := blendFlags st; clampFlags := clampFlags st;
     shadeFlags := Z.lor (shadeFlags st) v; ZFlags := ZFlags st;
     miscFlags := miscFlags st |}.

(** [state.ZFlags |= v] *)
Definition or_ZFlags (v : Z) (st : hsGMatState) : hsGMatState :=
  {| blendFlags := blendFlags st; clampFlags := clampFlags st;
     shadeFlags := shadeFlags st; ZFlags := Z.lor (ZFlags st) v;
     miscFlags := miscFlags st |}.

(** [state.miscFlags |= v] *)
Definition or_miscFlags (v : Z) (st : hsGMatState) : hsGMatState :=
  {| blendFlags := blendFlags st; clampFlags := clampFlags st;
     shadeFlags := shadeFlags st; ZFlags := ZFlags st;
     miscFlags := Z.lor (miscFlags st) v |}.


Definition set_compFlags (v : Z) (m : hsGMaterial) : hsGMaterial :=
  {| mname := mname m; compFlags := v; layers := layers m |}.

(** [hsgmat.addLayer(key)] *)
Definition addLayer (k : Key) (m : hsGMaterial) : hsGMaterial :=
  {| mname := mname m; compFlags := compFlags m; layers := layers m ++ [k] |}.

(** Modelled from the spec: the state of a Plasma object straight out of its
    PyHSPlasma constructor (the bindings are not among the sources): a layer
    with no flags, no texture, full opacity, the first UV channel and an
    identity transform; a material with no layers; an environment map with
    unconfigured faces. *)
Definition new_state : hsGMatState :=
  {| blendFlags := 0; clampFlags := 0; shadeFlags := 0; ZFlags := 0; miscFlags := 0 |}.

Definition new_timeConvert : plAnimTimeConvert :=
  {| atc_begin := 0; atc_end := 0; atc_flags := 0; loopBegin := 0; loopEnd := 0 |}.

Definition new_layer (cls : LayerClass) (name : string) : plLayerInterface :=
  {| lclass := cls; lname := name; state := new_state; opacity := 1;
     texture := None; UVWSrc := 0;
     transform := {| translate := (0, 0, 0)%Q; mscale := (1, 1, 1)%Q |};
     ambient := (0, 0, 0, 1)%Q; preshade := (0, 0, 0, 1)%Q;
     runtime := (0, 0, 0, 1)%Q; specular := (0, 0, 0, 1)%Q;
     underLay := None; opacityCtl := None; transformCtl := None;
     timeConvert := new_timeConvert |}.

Definition new_material (name : string) : hsGMaterial :=
  {| mname := name; compFlags := 0; layers := [] |}.

Definition new_face : FaceConfig :=
  {| config := 0; flags := 0; width := 0; height := 0;
     proportionalViewport := false; viewport := (0, 0, 0, 0); ZDepth := 0 |}.

Definition new_textmap (name : string) : plDynamicTextMap :=
  {| dname := name; hasAlpha := false; visWidth := 0; visHeight := 0 |}.

Inductive PlClass :=
  | ClsLayer (c : LayerClass)
  | ClsMaterial
  | ClsEnv (c : EnvClass)
  | ClsTextMap
  | ClsMipmap
  | ClsSceneObject
  | ClsVisRegion.

#[global] Instance LayerClass_eq_dec : EqDecision LayerClass.
Proof. solve_decision. Defined.

#[global] Instance EnvClass_eq_dec : EqDecision EnvClass.
Proof. solve_decision. Defined.

#[global] Instance PlClass_eq_dec : EqDecision PlClass.
Proof. solve_decision. Defined.

Definition class_of (o : PlObject) : PlClass :=
  match o with
  | OLayer l => ClsLayer (lclass l)
  | OMaterial _ => ClsMaterial
  | OEnvMap e => ClsEnv (eclass e)
  | OTextMap _ => ClsTextMap
  | OMipmap _ => ClsMipmap
  | OSceneObject _ => ClsSceneObject
  | OVisRegion _ => ClsVisRegion
  end.

Definition name_of (o : PlObject) : string :=
  match o with
  | OLayer l => lname l
  | OMaterial m => mname m
  | OEnvMap e => ename e
  | OTextMap d => dname d
  | OMipmap b => bname b
  | OSceneObject n => n
  | OVisRegion n => n
  end.

(** ** Heap access *)

(** Modelled from the spec: the object registry of the resource manager
    ([korman/exporter/manager.py] is not among the sources).  [add_object]
    allocates a new object in a page and hands out its key; [find_key] looks
    an object up by page, class and name and may find none. *)
Definition add_object (loc : Location) (o : PlObject) : M Key :=
  fun s => (with_heap (heap s ++ [(loc, o)]) s, inr (length (heap s))).

Definition find_key (cls : PlClass) (loc : Location) (name : string) : M (option Key) :=
  gets (fun s =>
    fst <$> list_find (fun c => c.1 = loc /\ class_of c.2 = cls /\ name_of c.2 = name)
                      (heap s)).

(** [key.object], for a key that has to be a layer, a material or an
    environment map; anything else has not the attributes used on it. *)
Definition get_layer (k : Key) : M plLayerInterface :=
  fun s => match heap s !! k with
           | Some (_, OLayer l) => (s, inr l)
           | _ => (s, inl AttributeError)
           end.

Definition update_layer (k : Key) (f : plLayerInterface -> plLayerInterface) : M unit :=
  fun s => match heap s !! k with
           | Some (loc, OLayer l) =>
               (with_heap (<[k := (loc, OLayer (f l))]> (heap s)) s, inr tt)
           | _ => (s, inl AttributeError)
           end.

Definition get_material (k : Key) : M hsGMaterial :=
  fun s => match heap s !! k with
           | Some (_, OMaterial m) => (s, inr m)
           | _ => (s, inl AttributeError)
           end.

Definition update_material (k : Key) (f : hsGMaterial -> hsGMaterial) : M unit :=
  fun s => match heap s !! k with
           | Some (loc, OMaterial m) =>
               (with_heap (<[k := (loc, OMaterial (f m))]> (heap s)) s, inr tt)
           | _ => (s, inl AttributeError)
           end.

Definition get_env (k : Key) : M plDynamicEnv :=
  fun s => match heap s !! k with
           | Some (_, OEnvMap e) => (s, inr e)
           | _ => (s, inl AttributeError)
           end.

Definition update_env (k : Key) (f : plDynamicEnv -> plDynamicEnv) : M unit :=
  fun s => match heap s !! k with
           | Some (loc, OEnvMap e) =>
               (with_heap (<[k := (loc, OEnvMap (f e))]> (heap s)) s, inr tt)
           | _ => (s, inl AttributeError)
           end.

(** [self._exporter().report.warn(msg)] *)
Definition warn (msg : string) : M unit :=
  modify (fun s => with_warnings (warnings s ++ [msg]) s).

Section MaterialConverter.
Context {hs : PyHSPlasma} {co : Collaborators} {sc : Scene}.

(** ** class _Texture *)

(** [_Texture.__init__(texture=None, image=None, use_alpha=None,
    force_calc_alpha=False)] *)
Definition _Texture_init (texture : option bpy.Texture) (image : option bpy.Image)
    (use_alpha : option bool) (force_calc_alpha : bool) : PyExc + _Texture :=
  match texture, image with
  | None, None => inl AssertionError
  | _, _ =>
      let image := match texture, image with
                   | Some t, None => bpy.image t
                   | _, _ => image
                   end in
      let calc := match texture with
                  | Some t => bpy.use_calculate_alpha t
                  | None => false
                  end in
      let mip := match texture with
                 | Some t => bpy.use_mipmap t
                 | None => false
                 end in
      if force_calc_alpha || calc then
        inr {| image := image; calc_alpha := true; mipmap := mip; use_alpha := true |}
      else
        match use_alpha with
        | None =>
            match image with
            | None => inl AttributeError
            | Some im =>
                inr {| image := image; calc_alpha := calc; mipmap := mip;
                       use_alpha := (bpy.channels im =? 4) && bpy.use_alpha im |}
            end
        | Some ua =>
            inr {| image := image; calc_alpha := calc; mipmap := mip; use_alpha := ua |}
        end
  end.

(** [_Texture._update(other)] *)
Definition _update (self other : _Texture) : _Texture :=
  let self := if use_alpha other
              then {| image := image self; calc_alpha := calc_alpha self;
                      mipmap := mipmap self; use_alpha := true |}
              else self in
  if mipmap other
  then {| image := image self; calc_alpha := calc_alpha self;
          mipmap := true; use_alpha := use_alpha self |}
  else self.

(** [_Texture.__eq__(other)]: the receiver after the call and the truth
    value of the result ([None] counts as false). Both operands are
    [_Texture] objects here. *)
Definition _Texture_eq (self other : _Texture) : _Texture * bool :=
  if decide (image self = image other) then
    if decide (calc_alpha self = calc_alpha other) then (_update self other, true)
    else (self, false)
  else (self, false).

(** [_Texture.__hash__()] *)
Definition _Texture_hash (self : _Texture) : PyExc + Z :=
  match image self with
  | None => inl AttributeError
  | Some im => inr (Z.lxor (hash_str (bpy.name im)) (if calc_alpha self then 1 else 0))
  end.

(** ** The [_pending] dict

    A lookup hashes the probe and calls [stored.__eq__(probe)] on the stored
    keys of that hash until one answers true; the answer true is the only
    one with a side effect, so the order of the probes does not show and the
    table is walked in insertion order. A new key goes to the end. *)
Fixpoint dict_probe (h : Z) (key : _Texture) (tbl : list (_Texture * list Key))
  : list (_Texture * list Key) * option nat :=
  match tbl with
  | [] => ([], None)
  | (k, v) :: tbl' =>
      let same_hash := match _Texture_hash k with
                       | inr hk => hk =? h
                       | inl _ => false
                       end in
      let '(k', eq) := if same_hash then _Texture_eq k key else (k, false) in
      if eq then ((k', v) :: tbl', Some 0%nat)
      else let '(t, r) := dict_probe h key tbl' in ((k', v) :: t, S <$> r)
  end.

Definition pending_lookup (key : _Texture) : M (option nat) :=
  h <- lift (_Texture_hash key) ;;
  fun s => let '(t, r) := dict_probe h key (_pending s) in (with_pending t s, inr r).

(** [key in self._pending] *)
Definition pending_contains (key : _Texture) : M bool :=
  r <- pending_lookup key ;;
  ret (match r with Some _ => true | None => false end).

(** [self._pending[key] = value] *)
Definition pending_setitem (key : _Texture) (value : list Key) : M unit :=
  r <- pending_lookup key ;;
  match r with
  | Some i =>
      modify (fun s => with_pending (alter (fun e => (e.1, value)) i (_pending s)) s)
  | None => modify (fun s => with_pending (_pending s ++ [(key, value)]) s)
  end.

(** [self._pending[key].append(layer)] *)
Definition pending_getitem_append (key : _Texture) (layer : Key) : M unit :=
  r <- pending_lookup key ;;
  match r with
  | Some i =>
      modify (fun s =>
        with_pending (alter (fun e => (e.1, e.2 ++ [layer])) i (_pending s)) s)
  | None => raise KeyError
  end.

(** The stashing block shared by [_export_texture_type_image] (lines
    453-458) and [export_prepared_layer] (lines 467-472). *)
Definition stash (key : _Texture) (layer : Key) : M unit :=
  present <- pending_contains key ;;
  if negb present then pending_setitem key [layer]
  else pending_getitem_append key layer.

(** [export_prepared_layer(layer, image)] *)
Definition export_prepared_layer (layer : Key) (image : option bpy.Image) : M unit :=
  key <- lift (_Texture_init None image None false) ;;
  stash key layer.

(** ** Attribute assignment on environment maps and text maps *)

Definition new_env (cls : EnvClass) (name : string) : plDynamicEnv :=
  {| eclass := cls; ename := name; hither := 0; yon := 0; refreshRate := 0;
     incCharacters := false; ecolor := (0, 0, 0, 1)%Q; fogStart := 0;
     visRegions := []; rootNode := None; targetNodes := []; matLayers := [];
     disableTexture := None; camera := None; position := (0, 0, 0)%Q;
     faces := replicate (match cls with
                         | plDynamicEnvMap => S envmap_faces
                         | plDynamicCamMap => 1%nat
                         end) new_face |}.

(** Lines 336-344: hither, yon, refreshRate, incCharacters, color, fogStart. *)
Definition set_env_basics (hi yo rate : Q) (col : hsColorRGBA) (fog : Q)
    (e : plDynamicEnv) : plDynamicEnv :=
  {| eclass := eclass e; ename := ename e; hither := hi; yon := yo;
     refreshRate := rate; incCharacters := true; ecolor := col; fogStart := fog;
     visRegions := visRegions e; rootNode := rootNode e;
     targetNodes := targetNodes e; matLayers := matLayers e;
     disableTexture := disableTexture e; camera := camera e;
     position := position e; faces := faces e |}.

Definition set_visRegions (v : list Key) (e : plDynamicEnv) : plDynamicEnv :=
  {| eclass := eclass e; ename := ename e; hither := hither e; yon := yon e;
     refreshRate := refreshRate e; incCharacters := incCharacters e;
     ecolor := ecolor e; fogStart := fogStart e; visRegions := v;
     rootNode := rootNode e; targetNodes := targetNodes e;
     matLayers := matLayers e; disableTexture := disableTexture e;
     camera := camera e; position := position e; faces := faces e |}.

Definition set_rootNode (v : option Key) (e : plDynamicEnv) : plDynamicEnv :=
  {| eclass := eclass e; ename := ename e; hither := hither e; yon := yon e;
     refreshRate := refreshRate e; incCharacters := incCharacters e;
     ecolor := ecolor e; fogStart := fogStart e; visRegions := visRegions e;
     rootNode := v; targetNodes := targetNodes e; matLayers := matLayers e;
     disableTexture := disableTexture e; camera := camera e;
     position := position e; faces := faces e |}.

(** [pl_env.addTargetNode(key)] *)
Definition addTargetNode (v : option Key) (e : plDynamicEnv) : plDynamicEnv :=
  {| eclass := eclass e; ename := ename e; hither := hither e; yon := yon e;
     refreshRate := refreshRate e; incCharacters := incCharacters e;
     ecolor := ecolor e; fogStart := fogStart e; visRegions := visRegions e;
     rootNode := rootNode e; targetNodes := targetNodes e ++ [v];
     matLayers := matLayers e; disableTexture := disableTexture e;
     camera := camera e; position := position e; faces := faces e |}.

(** [pl_env.addMatLayer(key)] *)
Definition addMatLayer (v : Key) (e : plDynamicEnv) : plDynamicEnv :=
  {| eclass := eclass e; ename := ename e; hither := hither e; yon := yon e;
     refreshRate := refreshRate e; incCharacters := incCharacters e;
     ecolor := ecolor e; fogStart := fogStart e; visRegions := visRegions e;
     rootNode := rootNode e; targetNodes := targetNodes e;
     matLayers := matLayers e ++ [v]; disableTexture := disableTexture e;
     camera := camera e; position := position e; faces := faces e |}.

Definition set_disableTexture (v : option Key) (e : plDynamicEnv) : plDynamicEnv :=
  {| eclass := eclass e; ename := ename e; hither := hither e; yon := yon e;
     refreshRate := refreshRate e; incCharacters := incCharacters e;
     ecolor := ecolor e; fogStart := fogStart e; visRegions := visRegions e;
     rootNode := rootNode e; targetNodes := targetNodes e;
     matLayers := matLayers e; disableTexture := v; camera := camera e;
     position := position e; faces := faces e |}.

Definition set_position (v : Vec3) (e : plDynamicEnv) : plDynamicEnv :=
  {| eclass := eclass e; ename := ename e; hither := hither e; yon := yon e;
     refreshRate := refreshRate e; incCharacters := incCharacters e;
     ecolor := ecolor e; fogStart := fogStart e; visRegions := visRegions e;
     rootNode := rootNode e; targetNodes := targetNodes e;
     matLayers := matLayers e; disableTexture := disableTexture e;
     camera := camera e; position := v; faces := faces e |}.

Definition set_faces (v : list FaceConfig) (e : plDynamicEnv) : plDynamicEnv :=
  {| eclass := eclass e; ename := ename e; hither := hither e; yon := yon e;
     refreshRate := refreshRate e; incCharacters := incCharacters e;
     ecolor := ecolor e; fogStart := fogStart e; visRegions := visRegions e;
     rootNode := rootNode e; targetNodes := targetNodes e;
     matLayers := matLayers e; disableTexture := disableTexture e;
     camera := camera e; position := position e; faces := v |}.

(** The body of the loop over the faces (lines 396-407). *)
Definition configure_face (eRes : Z) (f : FaceConfig) : FaceConfig :=
  {| config := kRGB8888;
     flags := Z.land (Z.lor (flags f) kIsTexture) (Z.lnot kAlphaChannelFlag);
     width := eRes; height := eRes; proportionalViewport := false;
     viewport := (0, 0, eRes, eRes); ZDepth := 24 |}.

Definition update_textmap (k : Key) (f : plDynamicTextMap -> plDynamicTextMap) : M unit :=
  fun s => match heap s !! k with
           | Some (loc, OTextMap d) =>
               (with_heap (<[k := (loc, OTextMap (f d))]> (heap s)) s, inr tt)
           | _ => (s, inl AttributeError)
           end.

(** [layer.state.<flags> |= v] *)
Definition on_state (f : hsGMatState -> hsGMatState) (l : plLayerInterface)
  : plLayerInterface := set_state (f (state l)) l.

(** Modelled from the spec: the manager's [find_create_key] and
    [find_create_object] look an object up by page, class and name and
    allocate it when it is not there. *)
Definition find_create (cls : PlClass) (loc : Location) (name : string)
    (fresh : PlObject) : M Key :=
  found <- find_key cls loc name ;;
  match found with
  | Some k => ret k
  | None => add_object loc fresh
  end.

(** [x.attr] on a value that may be [None] *)
Definition deref {A} (o : option A) : M A :=
  match o with
  | Some a => ret a
  | None => raise AttributeError
  end.

(** ** Material settings and the alpha test *)

(** [_propagate_material_settings(bm, layer)] *)
Definition _propagate_material_settings (bm : bpy.Material) (layer : Key) : M unit :=
  when (negb (bpy.use_mist bm))
    (update_layer layer (on_state (or_shadeFlags kShadeNoFog)) ;;
     update_layer layer (on_state (or_shadeFlags kShadeReallyNoFog))) ;;
  update_layer layer (set_ambient (utils_color world_ambient_color)) ;;
  update_layer layer (set_preshade (utils_color (bpy.diffuse_color bm))) ;;
  update_layer layer (set_runtime (utils_color (bpy.diffuse_color bm))) ;;
  update_layer layer (set_specular (utils_color (bpy.specular_color bm))).

(** [_test_image_alpha(image)] *)
Definition _test_image_alpha (image : bpy.Image) : M bool :=
  cached <- gets (fun s => _alphatest s !! image) ;;
  match cached with
  | Some result => ret result
  | None =>
      let result :=
        if negb (bpy.channels image =? 4) then false
        else if negb (bpy.use_alpha image) then false
        else gl_has_alpha image in
      modify (fun s => with_alphatest (<[image := result]> (_alphatest s)) s) ;;
      ret result
  end.

(** ** Texture type exporters *)

(** [_export_texture_type_none]: [pass] *)
Definition _export_texture_type_none (bo : bpy.Object) (hsgmat layer : Key)
    (slot : bpy.TextureSlot) : M unit := ret tt.

(** [_export_texture_type_image(bo, hsgmat, layer, slot)] *)
Definition _export_texture_type_image (bo : bpy.Object) (hsgmat layer : Key)
    (slot : bpy.TextureSlot) : M unit :=
  texture <- deref (bpy.texture slot) ;;
  (* Does the image have any alpha at all? *)
  has_alpha <-
    match bpy.image texture with
    | Some image =>
        has_alpha <-
          (if bpy.use_calculate_alpha texture then ret true
           else if bpy.use_stencil slot then ret true
           else _test_image_alpha image) ;;
        when (bpy.use_alpha image && bpy.tex_use_alpha texture && negb has_alpha)
          (warn ("'" +:+ bpy.tex_name texture +:+ "' wants to use alpha, but '"
                 +:+ bpy.name image +:+ "' is opaque")) ;;
        ret has_alpha
    | None => ret true
    end ;;
  (* First, let's apply any relevant flags *)
  when (negb (bpy.use_stencil slot))
    (when (bpy.tex_use_alpha texture && has_alpha)
       (match bpy.blend_type slot with
        | bpy.ADD => update_layer layer (on_state (or_blendFlags kBlendAlphaAdd))
        | bpy.MULTIPLY => update_layer layer (on_state (or_blendFlags kBlendAlphaMult))
        | _ => update_layer layer (on_state (or_blendFlags kBlendAlpha))
        end) ;;
     when (bpy.invert_alpha texture && has_alpha)
       (update_layer layer (on_state (or_blendFlags kBlendInvertAlpha)))) ;;
  when (bool_decide (bpy.extension texture = bpy.CLIP))
    (update_layer layer (on_state (or_clampFlags kClampTexture))) ;;
  (* Now, let's export the plBitmap *)
  match bpy.image texture with
  | None =>
      l <- get_layer layer ;;
      let name := lname l +:+ "_DynText" in
      dtm <- find_create ClsTextMap (page_of (bpy.ob_name bo)) name
               (OTextMap (new_textmap name)) ;;
      update_textmap dtm (fun d =>
        {| dname := dname d; hasAlpha := bpy.tex_use_alpha texture;
           visWidth := 1024; visHeight := 1024 |}) ;;
      update_layer layer (set_texture (Some dtm))
  | Some _ =>
      key <- lift (_Texture_init (Some texture) None (Some has_alpha)
                                 (bpy.use_stencil slot)) ;;
      stash key layer
  end.

(** The loop over [texture.plasma_layer.vis_regions] (lines 348-355); the
    two [raise ExportError(...)] end in [NameError], the name being unbound
    in this module. *)
Fixpoint collect_visregions (texture : bpy.Texture) (regions : list string)
    (visregions : list Key) : M (list Key) :=
  match regions with
  | [] => ret visregions
  | region_name :: regions' =>
      match data_objects region_name with
      | None =>
          (* raise ExportError("'{}': VisControl '{}' not found".format(...)) *)
          raise NameError
      | Some (rgn, enabled) =>
          if negb enabled then
            (* raise ExportError("'{}': '{}' is not a VisControl".format(...)) *)
            raise NameError
          else
            k <- find_create ClsVisRegion (page_of (bpy.ob_name rgn)) (bpy.ob_name rgn)
                   (OVisRegion (bpy.ob_name rgn)) ;;
            collect_visregions texture regions' (visregions ++ [k])
      end
  end.

(** [export_dynamic_env(bo, hsgmat, layer, texture, pl_class)] *)
Definition export_dynamic_env (bo : bpy.Object) (hsgmat : Key) (layer : option Key)
    (texture : bpy.Texture) (pl_class : EnvClass) : M Key :=
  let bl_env := bpy.environment_map texture in
  let viewpt := match bpy.viewpoint_object bl_env with
                | Some v => v
                | None => bo
                end in
  let name := bpy.ob_name viewpt +:+ "_DynEnvMap" in
  let loc := page_of (bpy.ob_name bo) in
  found <- find_key (ClsEnv pl_class) loc name ;;
  match found with
  | Some pl_env =>
      match pl_class with
      | plDynamicCamMap =>
          so <- find_key ClsSceneObject loc (bpy.ob_name bo) ;;
          update_env pl_env (addTargetNode so) ;;
          lk <- deref layer ;;
          update_env pl_env (addMatLayer lk)
      | plDynamicEnvMap => ret tt
      end ;;
      ret pl_env
  | None =>
      (* Ensure POT *)
      let oRes := bpy.resolution bl_env in
      let eRes := ensure_power_of_two oRes in
      (* And now for the general ho'hum-ness *)
      pl_env <- add_object loc (OEnvMap (new_env pl_class name)) ;;
      update_env pl_env
        (set_env_basics (bpy.clip_start bl_env) (bpy.clip_end bl_env)
           (if decide (bpy.source bl_env = bpy.ANIMATED) then 1 # 100 else 0)
           (utils_color (bpy.envmap_color (bpy.plasma_layer texture))) fog_start) ;;
      (* EffVisSets *)
      visregions <- collect_visregions texture
                      (bpy.vis_regions (bpy.plasma_layer texture)) [] ;;
      update_env pl_env (set_visRegions visregions) ;;
      match pl_class with
      | plDynamicCamMap =>
          root <- find_create ClsSceneObject (page_of (bpy.ob_name viewpt))
                    (bpy.ob_name viewpt) (OSceneObject (bpy.ob_name viewpt)) ;;
          update_env pl_env (set_rootNode (Some root)) ;;
          so <- find_key ClsSceneObject loc (bpy.ob_name bo) ;;
          update_env pl_env (addTargetNode so) ;;
          lk <- deref layer ;;
          update_env pl_env (addMatLayer lk) ;;
          fake_layer <- add_object loc
            (OLayer (new_layer plLayer (bpy.ob_name viewpt +:+ "_DisabledDynEnvMap"))) ;;
          l <- get_layer lk ;;
          update_layer fake_layer (set_ambient (ambient l)) ;;
          update_layer fake_layer (set_preshade (preshade l)) ;;
          update_layer fake_layer (set_runtime (runtime l)) ;;
          update_layer fake_layer (set_specular (specular l)) ;;
          update_env pl_env (set_disableTexture (Some fake_layer)) ;;
          e <- get_env pl_env ;;
          match camera e with
          | None =>
              update_layer lk (set_UVWSrc kUVWPosition) ;;
              update_layer lk
                (on_state (or_miscFlags (Z.lor kMiscCam2Screen kMiscPerspProjection)))
          | Some _ => ret tt
          end
      | plDynamicEnvMap =>
          update_env pl_env (set_position (bpy.location viewpt)) ;;
          match layer with
          | Some lk =>
              update_layer lk (set_UVWSrc kUVWReflect) ;;
              update_layer lk (on_state (or_miscFlags kMiscUseRefractionXform))
          | None => ret tt
          end
      end ;;
      (* Because we might be working with a multi-faced env map. *)
      update_env pl_env (fun e => set_faces (map (configure_face eRes) (faces e)) e) ;;
      ret pl_env
  end.

(** [_export_texture_type_environment_map(bo, hsgmat, layer, slot)] *)
Definition _export_texture_type_environment_map (bo : bpy.Object) (hsgmat layer : Key)
    (slot : bpy.TextureSlot) : M unit :=
  texture <- deref (bpy.texture slot) ;;
  let bl_env := bpy.environment_map texture in
  pl_env <-
    (match bpy.source bl_env with
     | bpy.STATIC | bpy.ANIMATED =>
         let pl_class :=
           if bool_decide (bpy.mapping bl_env = bpy.PLANE) && ver_ge_pvMoul
           then plDynamicCamMap else plDynamicEnvMap in
         k <- export_dynamic_env bo hsgmat (Some layer) texture pl_class ;;
         ret (Some k)
     | bpy.IMAGE_FILE =>
         l <- get_layer layer ;;
         warn ("IMAGE EnvironmentMaps are not supported. '" +:+ lname l
               +:+ "' will not be exported!") ;;
         ret None
     end) ;;
  update_layer layer (on_state (or_shadeFlags kShadeEnvironMap)) ;;
  (* layer.texture = pl_env.key *)
  k <- deref pl_env ;;
  update_layer layer (set_texture (Some k)).

(** ** Layer animations *)

(** [sub in s], that is [s.find(sub) != -1] *)
Fixpoint str_contains (sub s : string) : bool :=
  String.prefix sub s ||
  match s with
  | EmptyString => false
  | String _ s' => str_contains sub s'
  end.

(** The local [harvest_fcurves(bl_id, collection, data_path=None)]: the
    action it returns and the curves it adds to the collection. *)
Definition harvest_fcurves (animation_data : option bpy.AnimData)
    (data_path : option string) : option bpy.Action * list bpy.FCurve :=
  match animation_data with
  | Some anim =>
      match bpy.action anim with
      | Some action =>
          (Some action,
           match data_path with
           | None => bpy.fcurves action
           | Some p => filter (fun i => String.prefix p (bpy.data_path i) = true)
                              (bpy.fcurves action)
           end)
      | None => (None, [])
      end
  | None => (None, [])
  end.

(** [_export_layer_opacity_animation(bm, tex_slot, base_layer, fcurves)] *)
Definition _export_layer_opacity_animation (bm : bpy.Material)
    (tex_slot : bpy.TextureSlot) (base_layer : Key) (fcurves : list bpy.FCurve)
  : M (option plController) :=
  match list_find (fun i => bpy.data_path i = "plasma_layer.opacity") fcurves with
  | Some (_, i) =>
      update_layer base_layer (on_state (or_blendFlags kBlendAlpha)) ;;
      ret (make_scalar_leaf_controller i)
  | None => ret None
  end.

(** [_export_layer_transform_animation(bm, tex_slot, base_layer, fcurves)] *)
Definition _export_layer_transform_animation (bm : bpy.Material)
    (tex_slot : bpy.TextureSlot) (base_layer : Key) (fcurves : list bpy.FCurve)
  : M (option plController) :=
  let pos_fcurves :=
    filter (fun i => str_contains "offset" (bpy.data_path i) = true) fcurves in
  let scale_fcurves :=
    filter (fun i => str_contains "scale" (bpy.data_path i) = true) fcurves in
  ret (make_matrix44_controller pos_fcurves scale_fcurves
         (bpy.offset tex_slot) (bpy.scale tex_slot)).

(** The body of the loop over [self._animation_exporters.items()] (lines
    244-249), for one converter's result; [attr] is the attribute the
    controller is stored in. *)
Definition attach_controller (bo : bpy.Object) (base_layer : Key)
    (attr : plController -> plLayerInterface -> plLayerInterface)
    (ctrl : option plController) (layer_animation : option Key) : M (option Key) :=
  match ctrl with
  | Some c =>
      la <- match layer_animation with
            | None =>
                base <- get_layer base_layer ;;
                add_object (page_of (bpy.ob_name bo))
                  (OLayer (new_layer plLayerAnimation (lname base +:+ "_LayerAnim")))
            | Some la => ret la
            end ;;
      update_layer la (attr c) ;;
      ret (Some la)
  | None => ret layer_animation
  end.

Definition on_timeConvert (f : plAnimTimeConvert -> plAnimTimeConvert)
    (l : plLayerInterface) : plLayerInterface := set_timeConvert (f (timeConvert l)) l.

(** [_export_layer_animations(bo, bm, tex_slot, idx, hsgmat, base_layer)];
    the registry [_animation_exporters] is walked in the order it is
    written in [__init__]. *)
Definition _export_layer_animations (bo : bpy.Object) (bm : bpy.Material)
    (tex_slot : bpy.TextureSlot) (idx : nat) (hsgmat base_layer : Key) : M Key :=
  (* First, we must gather relevant FCurves from both the material and the texture *)
  let '(mat_action, mat_curves) :=
    harvest_fcurves (bpy.mat_animation_data bm)
      (Some ("texture_slots[" +:+ pretty idx +:+ "]")) in
  texture <- deref (bpy.texture tex_slot) ;;
  let '(tex_action, tex_curves) :=
    harvest_fcurves (bpy.tex_animation_data texture) None in
  let fcurves := mat_curves ++ tex_curves in
  match fcurves with
  | [] => ret base_layer          (* No fcurves, no animation *)
  | _ :: _ =>
      ctrl <- _export_layer_opacity_animation bm tex_slot base_layer fcurves ;;
      layer_animation <-
        attach_controller bo base_layer (fun c => set_opacityCtl (Some c)) ctrl None ;;
      ctrl <- _export_layer_transform_animation bm tex_slot base_layer fcurves ;;
      layer_animation <-
        attach_controller bo base_layer (fun c => set_transformCtl (Some c)) ctrl
          layer_animation ;;
      match layer_animation with
      | Some la =>
          update_layer la (set_underLay (Some base_layer)) ;;
          range <- match tex_action with
                   | Some a => ret (bpy.frame_range a)
                   | None => a <- deref mat_action ;; ret (bpy.frame_range a)
                   end ;;
          let '(start, end_) := range in
          (if fps =? 0 then raise ZeroDivisionError else ret tt) ;;
          let begin_s := (start / inject_Z fps)%Q in
          let end_s := (end_ / inject_Z fps)%Q in
          update_layer la (on_timeConvert (fun atc =>
            {| atc_begin := begin_s; atc_end := end_s; atc_flags := atc_flags atc;
               loopBegin := loopBegin atc; loopEnd := loopEnd atc |})) ;;
          let layer_props := bpy.plasma_layer texture in
          when (negb (bpy.anim_auto_start layer_props))
            (update_layer la (on_timeConvert (fun atc =>
               {| atc_begin := atc_begin atc; atc_end := atc_end atc;
                  atc_flags := Z.lor (atc_flags atc) kStopped;
                  loopBegin := loopBegin atc; loopEnd := loopEnd atc |}))) ;;
          when (bpy.anim_loop layer_props)
            (update_layer la (on_timeConvert (fun atc =>
               {| atc_begin := atc_begin atc; atc_end := atc_end atc;
                  atc_flags := Z.lor (atc_flags atc) kLoop;
                  loopBegin := atc_begin atc; loopEnd := atc_end atc |}))) ;;
          ret la
      | None => ret base_layer    (* we had some FCurves but they were garbage *)
      end
  end.

(** ** Texture slots *)

(** [x < y] on numbers *)
Definition Qltb (x y : Q) : bool := negb (Qle_bool y x).

(** [self._tex_exporters[texture.type](bo, hsgmat, layer, slot)] *)
Definition dispatch_tex_exporter (ty : bpy.TextureType) (bo : bpy.Object)
    (hsgmat layer : Key) (slot : bpy.TextureSlot) : M unit :=
  match ty with
  | bpy.ENVIRONMENT_MAP => _export_texture_type_environment_map bo hsgmat layer slot
  | bpy.IMAGE => _export_texture_type_image bo hsgmat layer slot
  | bpy.NONE => _export_texture_type_none bo hsgmat layer slot
  | _ => raise KeyError
  end.

(** [_export_texture_slot(bo, bm, hsgmat, slots, idx)], on the slots from
    [idx] on: [rest] is [slots[idx:]], so that [slots[idx]] is its head and
    [len(slots) == idx + 1] says that its tail is empty. The [raise
    ExportError(...)] of line 177 ends in [NameError], the name being
    unbound in this module. *)
Fixpoint _export_texture_slot_from (bo : bpy.Object) (bm : bpy.Material) (hsgmat : Key)
    (rest : list bpy.TextureSlot) (idx : nat) : M nat :=
  match rest with
  | [] => raise IndexError
  | slot :: rest' =>
      let name := bpy.mat_name bm +:+ "_" +:+ bpy.slot_name slot in
      layer <- add_object (page_of (bpy.ob_name bo)) (OLayer (new_layer plLayer name)) ;;
      _propagate_material_settings bm layer ;;
      (* UVW Channel *)
      match list_find (fun uvchan => uvchan = bpy.uv_layer slot) (bpy.uv_layers bo) with
      | Some (i, _) => update_layer layer (set_UVWSrc (Z.of_nat i))
      | None => ret tt
      end ;;
      (* Transform *)
      update_layer layer
        (set_transform {| translate := bpy.offset slot; mscale := bpy.scale slot |}) ;;
      num_exported <-
        (if bpy.use_stencil slot then
           update_material hsgmat
             (fun m => set_compFlags (Z.lor (compFlags m) kCompNeedsBlendChannel) m) ;;
           update_layer layer
             (on_state (or_blendFlags
                (Z.lor (Z.lor kBlendAlpha kBlendAlphaMult) kBlendNoTexColor))) ;;
           texture <- deref (bpy.texture slot) ;;
           when (bool_decide (bpy.type texture = bpy.BLEND))
             (update_layer layer (on_state (or_clampFlags kClampTexture))) ;;
           update_layer layer (on_state (or_ZFlags kZNoZWrite)) ;;
           update_layer layer (set_ambient (1, 1, 1, 1)%Q) ;;
           (* Plasma actually wants the next layer first, so let's export him *)
           match rest' with
           | [] =>
               (* raise ExportError("Texture Slot '{}' wants to be a stencil,
                  but there are no more TextureSlots.".format(slot.name)) *)
               raise NameError
           | _ :: _ =>
               _export_texture_slot_from bo bm hsgmat rest' (S idx) ;;
               (* Now that we've exported the bugger, flag him as binding with
                  this texture *)
               m <- get_material hsgmat ;;
               prev_layer <- match last (layers m) with
                             | Some k => ret k
                             | None => raise IndexError
                             end ;;
               update_layer prev_layer
                 (on_state (or_miscFlags (Z.lor kMiscBindNext kMiscRestartPassHere))) ;;
               prev <- get_layer prev_layer ;;
               when (Z.land (blendFlags (state prev)) kBlendMask =? 0)
                 (update_layer prev_layer (on_state (or_blendFlags kBlendAlpha))) ;;
               ret 2%nat
           end
         else
           (* Standard layer flags ahoy *)
           match bpy.blend_type slot with
           | bpy.ADD =>
               update_layer layer (on_state (or_blendFlags kBlendAddColorTimesAlpha))
           | bpy.MULTIPLY => update_layer layer (on_state (or_blendFlags kBlendMult))
           | _ => ret tt
           end ;;
           ret 1%nat) ;;
      texture <- deref (bpy.texture slot) ;;
      (* Apply custom layer properties *)
      let layer_props := bpy.plasma_layer texture in
      update_layer layer (set_opacity (bpy.opacity layer_props / 100)%Q) ;;
      when (Qltb (bpy.opacity layer_props) 100)
        (update_layer layer (on_state (or_blendFlags kBlendAlpha))) ;;
      when (bpy.alpha_halo layer_props)
        (update_layer layer (on_state (or_blendFlags kBlendAlphaTestHigh))) ;;
      (* Export the specific texture type *)
      dispatch_tex_exporter (bpy.type texture) bo hsgmat layer slot ;;
      (* Export any layer animations *)
      layer <- _export_layer_animations bo bm slot idx hsgmat layer ;;
      update_material hsgmat (addLayer layer) ;;
      ret num_exported
  end.

Definition _export_texture_slot (bo : bpy.Object) (bm : bpy.Material) (hsgmat : Key)
    (slots : list bpy.TextureSlot) (idx : nat) : M nat :=
  _export_texture_slot_from bo bm hsgmat (drop idx slots) idx.

(** ** Materials *)

Definition registered_type (ty : bpy.TextureType) : bool :=
  match ty with
  | bpy.ENVIRONMENT_MAP | bpy.IMAGE | bpy.NONE => true
  | _ => false
  end.

(** The condition of the comprehension in [export_material] (lines 100-101). *)
Definition qualifies (slot : option bpy.TextureSlot) : bool :=
  match slot with
  | Some slot =>
      bpy.use slot &&
      match bpy.texture slot with
      | Some texture => registered_type (bpy.type texture)
      | None => false
      end
  | None => false
  end.

Definition qualifying_slots (bm : bpy.Material) : list bpy.TextureSlot :=
  omap (fun slot => if qualifies slot then slot else None) (bpy.texture_slots bm).

(** The [while i < len(slots)] loop of [export_material]; every round moves
    [i] forward, so [len(slots)] rounds of fuel are enough. *)
Fixpoint export_slots (fuel : nat) (bo : bpy.Object) (bm : bpy.Material) (hsgmat : Key)
    (slots : list bpy.TextureSlot) (i : nat) : M unit :=
  if (i <? length slots)%nat then
    match fuel with
    | O => raise OutOfFuel
    | S fuel' =>
        n <- _export_texture_slot bo bm hsgmat slots i ;;
        export_slots fuel' bo bm hsgmat slots (i + n)%nat
    end
  else ret tt.

(** [export_material(bo, bm)] *)
Definition export_material (bo : bpy.Object) (bm : bpy.Material) : M Key :=
  hsgmat <- add_object (page_of (bpy.ob_name bo))
              (OMaterial (new_material (bpy.mat_name bm))) ;;
  let slots := qualifying_slots bm in
  export_slots (length slots) bo bm hsgmat slots 0 ;;
  (* If this material had no Textures, we will need to initialize a default layer *)
  m <- get_material hsgmat ;;
  match layers m with
  | [] =>
      layer <- add_object (page_of (bpy.ob_name bo))
                 (OLayer (new_layer plLayer (bpy.mat_name bm +:+ "_AutoLayer"))) ;;
      _propagate_material_settings bm layer ;;
      update_material hsgmat (addLayer layer)
  | _ :: _ => ret tt
  end ;;
  (* Cache this material for later *)
  modify (fun s =>
    with_obj2mat
      (match _obj2mat s !! bpy.ob_name bo with
       | Some mats => <[bpy.ob_name bo := mats ++ [hsgmat]]> (_obj2mat s)
       | None => <[bpy.ob_name bo := [hsgmat]]> (_obj2mat s)
       end) s) ;;
  ret hsgmat.

(** [export_waveset_material(bo, bm)] *)
Definition export_waveset_material (bo : bpy.Object) (bm : bpy.Material) : M Key :=
  let unique_name := bpy.mat_name bm +:+ "_WaveSet7" in
  hsgmat <- add_object (page_of (bpy.ob_name bo)) (OMaterial (new_material unique_name)) ;;
  layer <- add_object (page_of (bpy.ob_name bo)) (OLayer (new_layer plLayer unique_name)) ;;
  _propagate_material_settings bm layer ;;
  update_layer layer (on_state (or_blendFlags kBlendAlpha)) ;;
  update_material hsgmat (addLayer layer) ;;
  ret hsgmat.

(** [get_materials(bo)] *)
Definition get_materials (bo : bpy.Object) : M (list Key) :=
  mats <- gets (fun s => _obj2mat s !! bpy.ob_name bo) ;;
  match mats with
  | Some l => ret l
  | None => raise KeyError
  end.

(** ** Finalizing the pending textures *)

(** [_Texture.__str__()] *)
Definition _Texture_str (self : _Texture) : PyExc + string :=
  match image self with
  | None => inl AttributeError
  | Some im =>
      let name := path_with_suffix (bpy.name im) (if mipmap self then ".dds" else ".bmp") in
      inr (if calc_alpha self then "ALPHAGEN_" +:+ name else name)
  end.

(** Line 488: [math.floor(math.log(max(eWidth, eHeight), 2)) + 1 if key.mipmap
    else 1]. The logarithm is taken on the integers ([Z.log2] is the floor of
    the binary logarithm); [math.log] raises [ValueError] on zero. *)
Definition raw_numLevels (key : _Texture) (eWidth eHeight : Z) : PyExc + Z :=
  if mipmap key then
    if Z.max eWidth eHeight <=? 0 then inl ValueError
    else inr (Z.log2 (Z.max eWidth eHeight) + 1)
  else inr 1.

(** Lines 503-505: the workaround that lops off the last two mip levels. *)
Definition clamp_numLevels (key : _Texture) (numLevels : Z) : Z :=
  if mipmap key then Z.max (numLevels - 2) 2 else numLevels.

(** The body of the loop over the consuming layers (lines 534-549);
    [pages] is the local dict from page to mipmap. *)
Definition finalize_layer (blank : plMipmap) (data : list LevelData) (compression : Z)
    (pages : gmap Location Key) (layer : Key) : M (gmap Location Key) :=
  let page := get_textures_page layer in
  r <- match pages !! page with
       | None =>
           mipmap <- add_object page (OMipmap (store_in_mipmap blank data compression)) ;;
           ret (mipmap, <[page := mipmap]> pages)
       | Some mipmap => ret (mipmap, pages)
       end ;;
  update_layer layer (set_texture (Some r.1)) ;;
  ret r.2.

Fixpoint finalize_layers (blank : plMipmap) (data : list LevelData) (compression : Z)
    (pages : gmap Location Key) (layers : list Key) : M (gmap Location Key) :=
  match layers with
  | [] => ret pages
  | layer :: layers' =>
      pages' <- finalize_layer blank data compression pages layer ;;
      finalize_layers blank data compression pages' layers'
  end.

(** The body of the loop over [self._pending.items()] (lines 476-549).
    Resizing the Blender image and reloading it afterwards leave no trace in
    the session; the level data are asked for at the resized dimensions. *)
Definition finalize_entry (key : _Texture) (layers : list Key) : M unit :=
  name <- lift (_Texture_str key) ;;
  image <- deref (image key) ;;
  let '(oWidth, oHeight) := bpy.size image in
  let eWidth := ensure_power_of_two oWidth in
  let eHeight := ensure_power_of_two oHeight in
  (* Some basic mipmap settings. *)
  numLevels <- lift (raw_numLevels key eWidth eHeight) ;;
  let compression := if mipmap key then kDirectXCompression else kUncompressed in
  let dxt := if use_alpha key || calc_alpha key then kDXT5 else kDXT1 in
  (* Major Workaround Ahoy *)
  let numLevels := clamp_numLevels key numLevels in
  (* Uncompressed bitmaps are BGRA *)
  let fmt := compression =? kUncompressed in
  let data :=
    map (fun i => get_level_data image eWidth eHeight (mipmap key) i (calc_alpha key) fmt)
        (seq 0 (Z.to_nat numLevels)) in
  (* Now we poke our new bitmap into the pending layers. *)
  let blank := {| bname := name; bwidth := eWidth; bheight := eHeight;
                  numLevels := numLevels; compType := compression;
                  format := kRGB8888; dxtLevel := dxt; levels := [] |} in
  finalize_layers blank data compression ∅ layers ;;
  ret tt.

(** [finalize()] *)
Definition finalize : M unit :=
  pending <- gets _pending ;;
  for_each pending (fun entry => finalize_entry entry.1 entry.2).

End MaterialConverter.

(** ** A concrete setting

    The values the Plasma headers give the enum members, and simple
    stand-ins for the collaborators; they are used to run the model on
    sample scenes. *)

Definition libhsplasma : PyHSPlasma := {|
  kBlendAlpha := 0x2;
  kBlendAlphaMult := 0x4000;
  kBlendNoTexColor := 0x20000;
  kBlendAddColorTimesAlpha := 0x10;
  kBlendMult := 0x4;
  kBlendAlphaTestHigh := 0x4000000;
  kBlendAlphaAdd := 0x8000;
  kBlendInvertAlpha := 0x1000;
  kBlendMask := 0xF5E;
  kClampTexture := 0x3;
  kZNoZWrite := 0x10;
  kMiscBindNext := 0x400;
  kMiscRestartPassHere := 0x8000;
  kMiscCam2Screen := 0x400000;
  kMiscPerspProjection := 0x2000;
  kMiscUseRefractionXform := 0x200000;
  kShadeEnvironMap := 0x4;
  kShadeNoFog := 0x100;
  kShadeReallyNoFog := 0x20000;
  kCompNeedsBlendChannel := 0x2000;
  kUVWPosition := 0x20000;
  kUVWReflect := 0x30000;
  kStopped := 0x1;
  kLoop := 0x2;
  kRGB8888 := 0;
  kIsTexture := 0x1000;
  kAlphaChannelFlag := 0x1;
  kDirectXCompression := 1;
  kUncompressed := 0;
  kDXT5 := 5;
  kDXT1 := 1;
  envmap_faces := 6
|}.

(** Modelled from the spec: [helpers.ensure_power_of_two]
    ([korman/helpers.py] is not among the sources) takes a dimension to the
    next power of two, 300 to 512 and 200 to 256. *)
Definition next_power_of_two (n : Z) : Z := 2 ^ Z.log2_up n.

Definition sample_collaborators : Collaborators := {|
  page_of := fun name => String.length name;
  get_textures_page := fun layer => (layer mod 2)%nat;
  ver_ge_pvMoul := true;
  ensure_power_of_two := next_power_of_two;
  utils_color := fun c => (c.1.1, c.1.2, c.2, 1%Q);
  gl_has_alpha := fun image => bpy.use_alpha image;
  get_level_data := fun image w h mips i calc fmt =>
    [Z.shiftr w (Z.of_nat i); Z.shiftr h (Z.of_nat i)];
  store_in_mipmap := fun m data compression =>
    {| bname := bname m; bwidth := bwidth m; bheight := bheight m;
       numLevels := numLevels m; compType := compType m; format := format m;
       dxtLevel := dxtLevel m; levels := data |};
  make_scalar_leaf_controller := fun fcurve =>
    match bpy.keyframe_points fcurve with
    | [] => None
    | keys => Some (LeafController keys)
    end;
  make_matrix44_controller := fun pos scale default_pos default_scale =>
    match concat (map bpy.keyframe_points (pos ++ scale)) with
    | [] => None
    | keys => Some (LeafController keys)
    end;
  hash_str := fun str => Z.of_nat (String.length str);
  path_with_suffix := fun name suffix => name +:+ suffix
|}.

Definition sample_scene : Scene := {|
  world_ambient_color := (0, 0, 0)%Q;
  fog_start := 0%Q;
  fps := 30;
  data_objects := fun _ => None
|}.

(** * Reasoning about the exporter *)

(** ** Properties of a run that returns *)

(** [hoare P m Q]: from a session in [P], a run of [m] that returns [a]
    ends in a session in [Q a]. *)
Definition hoare {A} (P : Session -> Prop) (m : M A) (Q : A -> Session -> Prop) : Prop :=
  forall s s' a, P s -> m s = (s', inr a) -> Q a s'.

(** A computation that leaves a component [f] of the session alone, whether
    it returns or raises. *)
Definition keeps {X A} (f : Session -> X) (m : M A) : Prop :=
  forall s s' r, m s = (s', r) -> f s' = f s.

(** [mat.layers] of the material behind a key. *)
Definition mat_layers (s : Session) (k : Key) : list Key :=
  match heap s !! k with
  | Some (_, OMaterial m) => layers m
  | _ => []
  end.

(** [l'] is [l] after edits of the kind the texture type exporters and the
    animation exporter make to the layer they are given: the class, name,
    opacity and transform stay, and blend flags are or-ed in. *)
Definition edited (l l' : plLayerInterface) : Prop :=
  lclass l' = lclass l /\ lname l' = lname l /\ opacity l' = opacity l /\
  transform l' = transform l /\
  exists extra, blendFlags (state l') = Z.lor (blendFlags (state l)) extra.

(** The session [s] comes from [s0] by allocating objects, editing the
    layer [L] and changing objects that are neither layers nor materials. *)
Definition Inv (s0 : Session) (L : Key) (s : Session) : Prop :=
  (length (heap s0) <= length (heap s))%nat /\
  forall k loc o, heap s0 !! k = Some (loc, o) ->
    match o with
    | OMaterial _ => heap s !! k = Some (loc, o)
    | OLayer l =>
        if decide (k = L)
        then exists l', heap s !! k = Some (loc, OLayer l') /\ edited l l'
        else heap s !! k = Some (loc, o)
    | _ => True
    end.

(** ** Texture identities *)

(** Two [_Texture] values are the same identity when [__eq__] says so: same
    image and same [calc_alpha]. *)
Definition same_identity (a b : _Texture) : Prop :=
  image a = image b /\ calc_alpha a = calc_alpha b.

#[global] Instance same_identity_dec a b : Decision (same_identity a b).
Proof. unfold same_identity. apply _. Defined.

(** A texture reference: the identity built for it and the layer that uses
    it. *)
Definition TexRef : Type := _Texture * Key.

(** The references among [refs] that have the identity of [key]. *)
Definition contributing (key : _Texture) (refs : list TexRef) : list TexRef :=
  filter (fun r => same_identity r.1 key) refs.

(** The entries of a pending table that have the identity of [key]. *)
Definition entries_of (key : _Texture) (tbl : list (_Texture * list Key))
  : list (_Texture * list Key) :=
  filter (fun e => same_identity e.1 key) tbl.

(** The entry a non-empty run of contributing references leaves in the
    table: the identity of the first one, the flags of all of them or-ed,
    and their layers in order. *)
Definition merged_entry (c : list TexRef) : list (_Texture * list Key) :=
  match c with
  | [] => []
  | (k0, _) :: _ =>
      [({| image := image k0; calc_alpha := calc_alpha k0;
           mipmap := existsb (fun r => mipmap r.1) c;
           use_alpha := existsb (fun r => use_alpha r.1) c |}, c.*2)]
  end.

(** The table holds, for every identity, the merged entry of the references
    seen so far. *)
Definition represents (tbl : list (_Texture * list Key)) (refs : list TexRef) : Prop :=
  forall key, entries_of key tbl = merged_entry (contributing key refs).

(** ** What the straight-line parts of the exporter write to a layer *)

Section Edits.
Context {hs : PyHSPlasma} {co : Collaborators} {sc : Scene}.

(** The layer [_propagate_material_settings(bm, layer)] leaves. *)
Definition propagated (bm : bpy.Material) (l : plLayerInterface) : plLayerInterface :=
  let l := if bpy.use_mist bm then l
           else on_state (or_shadeFlags kShadeReallyNoFog)
                  (on_state (or_shadeFlags kShadeNoFog) l) in
  set_specular (utils_color (bpy.specular_color bm))
    (set_runtime (utils_color (bpy.diffuse_color bm))
       (set_preshade (utils_color (bpy.diffuse_color bm))
          (set_ambient (utils_color world_ambient_color) l))).

(** The layer of a slot when the stencil test is reached (lines 145-163). *)
Definition slot_layer (bo : bpy.Object) (bm : bpy.Material) (slot : bpy.TextureSlot)
  : plLayerInterface :=
  let l := propagated bm
             (new_layer plLayer (bpy.mat_name bm +:+ "_" +:+ bpy.slot_name slot)) in
  let l := match list_find (fun uvchan => uvchan = bpy.uv_layer slot) (bpy.uv_layers bo) with
           | Some (i, _) => set_UVWSrc (Z.of_nat i) l
           | None => l
           end in
  set_transform {| translate := bpy.offset slot; mscale := bpy.scale slot |} l.

(** The stencil's own flags (lines 167-172). *)
Definition stencil_flags (texture : bpy.Texture) (l : plLayerInterface) : plLayerInterface :=
  let l := on_state (or_blendFlags
             (Z.lor (Z.lor kBlendAlpha kBlendAlphaMult) kBlendNoTexColor)) l in
  let l := if bool_decide (bpy.type texture = bpy.BLEND)
           then on_state (or_clampFlags kClampTexture) l else l in
  set_ambient (1, 1, 1, 1)%Q (on_state (or_ZFlags kZNoZWrite) l).

(** The blend flags of a slot that is no stencil (lines 191-194). *)
Definition standard_flags (slot : bpy.TextureSlot) (l : plLayerInterface)
  : plLayerInterface :=
  match bpy.blend_type slot with
  | bpy.ADD => on_state (or_blendFlags kBlendAddColorTimesAlpha) l
  | bpy.MULTIPLY => on_state (or_blendFlags kBlendMult) l
  | _ => l
  end.

(** The custom layer properties (lines 199-204). *)
Definition layer_props_applied (layer_props : bpy.PlasmaLayer) (l : plLayerInterface)
  : plLayerInterface :=
  let l := set_opacity (bpy.opacity layer_props / 100)%Q l in
  let l := if Qltb (bpy.opacity layer_props) 100
           then on_state (or_blendFlags kBlendAlpha) l else l in
  if bpy.alpha_halo layer_props
  then on_state (or_blendFlags kBlendAlphaTestHigh) l else l.

(** What the stencil does to the layer exported before it (lines 184-188). *)
Definition flagged (prev : plLayerInterface) : plLayerInterface :=
  let prev := on_state (or_miscFlags (Z.lor kMiscBindNext kMiscRestartPassHere)) prev in
  if Z.land (blendFlags (state prev)) kBlendMask =? 0
  then on_state (or_blendFlags kBlendAlpha) prev else prev.

End Edits.

(** ** Sessions as sequences of calls *)

Inductive Call :=
  | ExportMaterial (bo : bpy.Object) (bm : bpy.Material)
  | ExportWavesetMaterial (bo : bpy.Object) (bm : bpy.Material)
  | ExportPreparedLayer (layer : Key) (image : option bpy.Image)
  | Finalize.

Section Calls.
Context {hs : PyHSPlasma} {co : Collaborators} {sc : Scene}.

(** One call of the converter's interface; the key is the material
    reference the call returns, if it returns one. *)
Definition run_call (c : Call) : M (option Key) :=
  match c with
  | ExportMaterial bo bm => k <- export_material bo bm ;; ret (Some k)
  | ExportWavesetMaterial bo bm => k <- export_waveset_material bo bm ;; ret (Some k)
  | ExportPreparedLayer layer image => export_prepared_layer layer image ;; ret None
  | Finalize => finalize ;; ret None
  end.

(** The calls of a session in order, up to the first that raises; the trace
    pairs every call with what it returned. *)
Fixpoint run_calls (cs : list Call) : M (list (Call * option Key)) :=
  match cs with
  | [] => ret []
  | c :: cs' =>
      r <- run_call c ;;
      rs <- run_calls cs' ;;
      ret ((c, r) :: rs)
  end.

End Calls.

(** The references [export_material] returned for the object named [name],
    in call order. *)
Fixpoint materials_of (name : string) (trace : list (Call * option Key)) : list Key :=
  match trace with
  | [] => []
  | (ExportMaterial bo _, Some k) :: trace' =>
      if decide (bpy.ob_name bo = name) then k :: materials_of name trace'
      else materials_of name trace'
  | _ :: trace' => materials_of name trace'
  end.

(** [_obj2mat] holds, for every object, the list [acc] gives for it, and
    nothing for an object whose list is empty. *)
Definition tracks (s : Session) (acc : string -> list Key) : Prop :=
  forall name, _obj2mat s !! name = match acc name with [] => None | l => Some l end.


(** ** The texture references of a session *)

Section References.
Context {hs : PyHSPlasma} {co : Collaborators} {sc : Scene}.

(** The reference [_export_texture_type_image] makes for a texture with an
    image, when it is called for [slot] and [layer] in the session [s]: the
    key is [_Texture(texture=texture, use_alpha=has_alpha,
    force_calc_alpha=slot.use_stencil)] (line 452), where [has_alpha] is
    that of line 416, and the layer is the layer of the slot. *)
Definition stashed (texture : bpy.Texture) (slot : bpy.TextureSlot) (layer : Key)
    (s : Session) : list TexRef :=
  match bpy.image texture with
  | Some im =>
      let has_alpha :=
        bpy.use_calculate_alpha texture || bpy.use_stencil slot ||
        match (_test_image_alpha im s).2 with
        | inr r => r
        | inl _ => false
        end in
      match _Texture_init (Some texture) None (Some has_alpha) (bpy.use_stencil slot) with
      | inr key => [(key, layer)]
      | inl _ => []
      end
  | None => []
  end.

(** The reference of a slot: that of its texture when the registry of
    [__init__] sends the texture to [_export_texture_type_image]. *)
Definition image_ref (slot : bpy.TextureSlot) (layer : Key) (s : Session)
  : list TexRef :=
  match bpy.texture slot with
  | Some texture =>
      match bpy.type texture with
      | bpy.IMAGE => stashed texture slot layer s
      | _ => []
      end
  | None => []
  end.

(** The references of a returning [_export_texture_slot] on the slots
    [rest], in the order they are made; [layer] is the key the layer of the
    first slot gets. A stencil has the next slot exported before it stashes
    its own texture, and that slot's layer is made after the stencil's. *)
Fixpoint slot_refs (rest : list bpy.TextureSlot) (layer : Key) (s : Session)
  : list TexRef :=
  match rest with
  | [] => []
  | slot :: rest' =>
      (if bpy.use_stencil slot then slot_refs rest' (S layer) s else [])
      ++ image_ref slot layer s
  end.

(** The references of the slot loop of [export_material] from index [i] on:
    those of the slot at [i], and those of the rest of the loop in the
    session the slot leaves. *)
Fixpoint loop_refs (fuel : nat) (bo : bpy.Object) (bm : bpy.Material) (hsgmat : Key)
    (slots : list bpy.TextureSlot) (i : nat) (s : Session) : list TexRef :=
  if (i <? length slots)%nat then
    match fuel with
    | O => []
    | S fuel' =>
        slot_refs (drop i slots) (length (heap s)) s ++
        match _export_texture_slot bo bm hsgmat slots i s with
        | (s', inr n) => loop_refs fuel' bo bm hsgmat slots (i + n) s'
        | (_, inl _) => []
        end
    end
  else [].

(** The references of one call of the converter: those of the slots of the
    material for [export_material], the one of [_Texture(image=image)] and
    the layer handed in for [export_prepared_layer], none for the others. *)
Definition call_refs (c : Call) (s : Session) : list TexRef :=
  match c with
  | ExportMaterial bo bm =>
      match add_object (page_of (bpy.ob_name bo))
              (OMaterial (new_material (bpy.mat_name bm))) s with
      | (s1, inr hsgmat) =>
          loop_refs (length (qualifying_slots bm)) bo bm hsgmat (qualifying_slots bm) 0 s1
      | (_, inl _) => []
      end
  | ExportPreparedLayer layer image =>
      match _Texture_init None image None false with
      | inr key => [(key, layer)]
      | inl _ => []
      end
  | ExportWavesetMaterial _ _ | Finalize => []
  end.

(** The references of a session, call after call. *)
Fixpoint session_refs (calls : list Call) (s : Session) : list TexRef :=
  match calls with
  | [] => []
  | c :: calls' =>
      call_refs c s ++
      match run_call c s with
      | (s', inr _) => session_refs calls' s'
      | (_, inl _) => []
      end
  end.

End References.

(** ** The animation curves of a slot *)

(** The curves [_export_layer_animations] gathers for slot [idx] of [bm] and
    its texture (lines 232-234). *)
Definition gathered_fcurves (bm : bpy.Material) (texture : bpy.Texture) (idx : nat)
  : list bpy.FCurve :=
  (harvest_fcurves (bpy.mat_animation_data bm)
     (Some ("texture_slots[" +:+ pretty idx +:+ "]"))).2
  ++ (harvest_fcurves (bpy.tex_animation_data texture) None).2.

(** The curve the opacity exporter picks, if there is one. *)
Definition opacity_fcurve (fcurves : list bpy.FCurve) : option bpy.FCurve :=
  snd <$> list_find (fun i => bpy.data_path i = "plasma_layer.opacity") fcurves.

Section Controllers.
Context {co : Collaborators}.

(** The controller each registered sub-exporter comes back with. *)
Definition opacity_controller (fcurves : list bpy.FCurve) : option plController :=
  opacity_fcurve fcurves ≫= make_scalar_leaf_controller.

Definition transform_controller (tex_slot : bpy.TextureSlot)
    (fcurves : list bpy.FCurve) : option plController :=
  make_matrix44_controller
    (filter (fun i => str_contains "offset" (bpy.data_path i) = true) fcurves)
    (filter (fun i => str_contains "scale" (bpy.data_path i) = true) fcurves)
    (bpy.offset tex_slot) (bpy.scale tex_slot).

End Controllers.

(** ** Observing layers and bitmaps in the heap *)

(** [layer.texture] of the layer behind a key. *)
Definition texture_of (s : Session) (k : Key) : option Key :=
  match heap s !! k with
  | Some (_, OLayer l) => texture l
  | _ => None
  end.

(** The page and the contents of the [plMipmap] behind a key. *)
Definition mipmap_at (s : Session) (k : Key) : option (Location * plMipmap) :=
  match heap s !! k with
  | Some (page, OMipmap b) => Some (page, b)
  | _ => None
  end.

(** No layer is a consumer of two entries of the pending table. *)
Definition consumers_disjoint (tbl : list (_Texture * list Key)) : Prop :=
  forall i j e1 e2 k,
    i <> j -> tbl !! i = Some e1 -> tbl !! j = Some e2 -> k ∈ e1.2 -> k ∉ e2.2.

Section Buckets.
Context {co : Collaborators}.


End Buckets.

(** ** Layers added by a slot *)

Section Growth.
Context {hs : PyHSPlasma} {co : Collaborators} {sc : Scene}.

(** Every returning run of the per-slot exporter on the slots [rest] adds
    at least one layer to the end of the layer list of the material; the
    layers it adds are objects it allocated, and a plain slot adds one. *)
Definition slot_grows (bo : bpy.Object) (bm : bpy.Material) (hsgmat : Key)
    (rest : list bpy.TextureSlot) : Prop :=
  forall idx s s' n mloc m,
    heap s !! hsgmat = Some (mloc, OMaterial m) ->
    _export_texture_slot_from bo bm hsgmat rest idx s = (s', inr n) ->
    (length (heap s) < length (heap s'))%nat /\
    exists m' added,
      heap s' !! hsgmat = Some (mloc, OMaterial m') /\
      layers m' = layers m ++ added /\ added <> [] /\
      Forall (fun k => (length (heap s) <= k)%nat) added /\
      match rest with
      | slot :: _ => bpy.use_stencil slot = false -> length added = 1%nat
      | [] => True
      end.

End Growth.

(** * More of the converter *)

(** ** Exceptions and invariants *)

(** A computation that raises, if it raises, an exception in [E]. *)
Definition raises_only {A} (E : PyExc -> Prop) (m : M A) : Prop :=
  forall s s' e, m s = (s', inl e) -> E e.

(** A computation that keeps the property [I] of the session, whether it
    returns or raises. *)
Definition pres {A} (I : Session -> Prop) (m : M A) : Prop :=
  forall s s' r, I s -> m s = (s', r) -> I s'.

(** The exceptions an export of a material can end in: an unbound name, an
    attribute of [None], a frame rate of zero. *)
Definition export_failure (e : PyExc) : Prop :=
  match e with
  | NameError | AttributeError | ZeroDivisionError => True
  | _ => False
  end.

(** ** Well-formed pending tables *)

(** A key has an image, and asks for alpha whenever it asks for a computed
    alpha. *)
Definition key_wf (k : _Texture) : Prop :=
  is_Some (image k) /\ (calc_alpha k = true -> use_alpha k = true).

(** Every key is well-formed, every entry has a consumer, and no two
    entries have the same identity. *)
Definition pending_wf (tbl : list (_Texture * list Key)) : Prop :=
  Forall (fun e => key_wf e.1 /\ e.2 <> []) tbl /\
  forall i j e1 e2,
    tbl !! i = Some e1 -> tbl !! j = Some e2 -> same_identity e1.1 e2.1 -> i = j.

(** ** Sessions that make their own layers *)

(** The session holds at least [n] objects. *)
Definition holds (n : nat) (s : Session) : Prop := (n <= length (heap s))%nat.

(** A call that stashes a layer its caller made. *)
Definition prepared (c : Call) : bool :=
  match c with
  | ExportPreparedLayer _ _ => true
  | _ => false
  end.

(** ** Sample scenes *)

Definition wall_png : bpy.Image :=
  {| bpy.name := "wall.png"; bpy.size := (256, 256); bpy.channels := 4;
     bpy.use_alpha := true |}.

Definition moss_png : bpy.Image :=
  {| bpy.name := "moss.png"; bpy.size := (300, 200); bpy.channels := 3;
     bpy.use_alpha := false |}.

Definition sample_key : _Texture :=
  {| image := Some wall_png; calc_alpha := false; mipmap := true; use_alpha := false |}.

Definition cube : bpy.Object :=
  {| bpy.ob_name := "Cube"; bpy.uv_layers := ["UVMap"]; bpy.location := (0, 0, 0)%Q |}.

Definition sample_props (opacity : Q) (alpha_halo : bool) : bpy.PlasmaLayer :=
  {| bpy.opacity := opacity; bpy.alpha_halo := alpha_halo;
     bpy.anim_auto_start := true; bpy.anim_loop := false;
     bpy.envmap_color := (0, 0, 0)%Q; bpy.vis_regions := [] |}.

Definition sample_envmap (source : bpy.EnvSource) : bpy.EnvironmentMap :=
  {| bpy.source := source; bpy.mapping := bpy.CUBE; bpy.viewpoint_object := None;
     bpy.resolution := 256; bpy.clip_start := 0; bpy.clip_end := 100 |}.

Definition sample_texture (name : string) (type : bpy.TextureType)
    (image : option bpy.Image) (props : bpy.PlasmaLayer)
    (anim : option bpy.AnimData) : bpy.Texture :=
  {| bpy.tex_name := name; bpy.type := type; bpy.image := image;
     bpy.use_calculate_alpha := false; bpy.use_mipmap := true;
     bpy.tex_use_alpha := false; bpy.invert_alpha := false;
     bpy.extension := bpy.REPEAT;
     bpy.environment_map := sample_envmap bpy.IMAGE_FILE;
     bpy.plasma_layer := props; bpy.tex_animation_data := anim |}.

Definition sample_slot (name : string) (texture : bpy.Texture) (use_stencil : bool)
  : bpy.TextureSlot :=
  {| bpy.slot_name := name; bpy.use := true; bpy.texture := Some texture;
     bpy.uv_layer := "UVMap"; bpy.offset := (0, 0, 0)%Q; bpy.scale := (1, 1, 1)%Q;
     bpy.use_stencil := use_stencil; bpy.blend_type := bpy.MIX |}.

Definition sample_material (slots : list (option bpy.TextureSlot)) : bpy.Material :=
  {| bpy.mat_name := "Mat"; bpy.texture_slots := slots; bpy.use_mist := true;
     bpy.diffuse_color := (1, 1, 1)%Q; bpy.specular_color := (0, 0, 0)%Q;
     bpy.mat_animation_data := None |}.

(** A material whose only slot is switched off. *)
Definition bare_material : bpy.Material :=
  sample_material
    [ None;
      Some {| bpy.slot_name := "off"; bpy.use := false;
              bpy.texture := Some (sample_texture "t" bpy.IMAGE (Some wall_png)
                                     (sample_props 100 false) None);
              bpy.uv_layer := "UVMap"; bpy.offset := (0, 0, 0)%Q;
              bpy.scale := (1, 1, 1)%Q; bpy.use_stencil := false;
              bpy.blend_type := bpy.MIX |} ].

(** A session in which a material has just been allocated at key 0. *)
Definition material_allocated : Session :=
  with_heap [(4%nat, OMaterial (new_material "Mat"))] MaterialConverter_init.

(** A stencil slot with nothing after it. *)
Definition lone_stencil : bpy.TextureSlot :=
  sample_slot "mask"
    (sample_texture "mask" bpy.IMAGE (Some wall_png) (sample_props 100 false) None)
    true.

(** An environment map texture that reads its map from an image file. *)
Definition static_envmap_slot : bpy.TextureSlot :=
  sample_slot "sky"
    (sample_texture "sky" bpy.ENVIRONMENT_MAP None (sample_props 100 false) None)
    false.

(** A session that exports two materials of the cube with [export_material]
    and a waveset material of it in between. *)
Definition sample_calls : list Call :=
  [ ExportMaterial cube bare_material;
    ExportWavesetMaterial cube bare_material;
    ExportMaterial cube bare_material ].

Definition sample_trace : list (Call * option Key) :=
  [ (ExportMaterial cube bare_material, Some 0%nat);
    (ExportWavesetMaterial cube bare_material, Some 2%nat);
    (ExportMaterial cube bare_material, Some 4%nat) ].

(** A texture whose action has one curve on the layer opacity, without a
    keyframe; the stand-in animation converter makes no controller of it. *)
Definition empty_opacity_curve : bpy.FCurve :=
  {| bpy.data_path := "plasma_layer.opacity"; bpy.keyframe_points := [] |}.

Definition idle_slot : bpy.TextureSlot :=
  sample_slot "idle"
    (sample_texture "idle" bpy.NONE None (sample_props 100 false)
       (Some {| bpy.action := Some {| bpy.fcurves := [empty_opacity_curve];
                                      bpy.frame_range := (1, 10)%Q |} |}))
    false.

(** A session with a material at key 0 and a layer at key 1. *)
Definition layer_allocated : Session :=
  with_heap [(4%nat, OMaterial (new_material "Mat"));
             (4%nat, OLayer (new_layer plLayer "Mat_idle"))]
    MaterialConverter_init.

(** The identity of [moss.png] without mipmaps. *)
Definition plain_key : _Texture :=
  {| image := Some moss_png; calc_alpha := false; mipmap := false; use_alpha := false |}.

(** A session at the end of an export: the layers at keys 0, 1 and 2 wait
    for the mipmapped [wall.png], those at 0 and 2 with one textures page and
    the one at key 1 with another; the layer at key 3 waits for [moss.png]. *)
Definition textures_pending : Session :=
  with_pending [(sample_key, [0; 1; 2]%nat); (plain_key, [3%nat])]
    (with_heap [(4%nat, OLayer (new_layer plLayer "Mat_a"));
                (4%nat, OLayer (new_layer plLayer "Mat_b"));
                (4%nat, OLayer (new_layer plLayer "Mat_c"));
                (4%nat, OLayer (new_layer plLayer "Mat_d"))]
       MaterialConverter_init).

(** A plain slot whose texture has the opacity override 50 and no image. *)
Definition glass_texture : bpy.Texture :=
  sample_texture "glass" bpy.NONE None (sample_props 50 false) None.

Definition glass_slot : bpy.TextureSlot := sample_slot "glass" glass_texture false.

(** The slots of a material with a stencil and the slot it masks. *)
Definition masked_slots : list bpy.TextureSlot := [lone_stencil; glass_slot].

(** A plain slot with the mipmapped image texture of [wall.png]. *)
Definition wall_slot : bpy.TextureSlot :=
  sample_slot "wall"
    (sample_texture "wall" bpy.IMAGE (Some wall_png) (sample_props 100 false) None)
    false.

(** A session with two references to [wall.png]: the slot of a material
    (layer 1), and the layer of a waveset material (layer 3) handed to
    [export_prepared_layer]. *)
Definition wall_session : list Call :=
  [ ExportMaterial cube (sample_material [Some wall_slot]);
    ExportWavesetMaterial cube bare_material;
    ExportPreparedLayer 3 (Some wall_png) ].



(** A session whose last call raises: the second material ends in a
    stencil. *)
Definition aborted_session : list Call :=
  [ ExportMaterial cube (sample_material [Some wall_slot]);
    ExportMaterial cube (sample_material [Some wall_slot; Some lone_stencil]) ].

(** A session that exports a material with a stencil over [wall.png] and
    the slot it masks, then a material with the same texture in a plain
    slot, and finalizes. *)
Definition masked_session : list Call :=
  [ ExportMaterial cube (sample_material [Some lone_stencil; Some wall_slot]);
    ExportMaterial cube (sample_material [Some wall_slot]);
    Finalize ].

(** ** The monad *)

Lemma bind_inr {A B} (m : M A) (f : A -> M B) s s' b :
  bind m f s = (s', inr b) ->
  exists a s1, m s = (s1, inr a) /\ f a s1 = (s', inr b).
Proof.
  unfold bind. destruct (m s) as [s1 [e|a]]; [discriminate|]. eauto.
Qed.

Lemma bind_inl {A B} (m : M A) (f : A -> M B) s s' e :
  bind m f s = (s', inl e) ->
  m s = (s', inl e) \/ exists a s1, m s = (s1, inr a) /\ f a s1 = (s', inl e).
Proof.
  unfold bind. destruct (m s) as [s1 [e'|a]]; [left; congruence | right; eauto].
Qed.

Lemma bind_run {A B} (m : M A) (f : A -> M B) s s1 a :
  m s = (s1, inr a) -> bind m f s = f a s1.
Proof. unfold bind. by intros ->. Qed.

Lemma bind_fail {A B} (m : M A) (f : A -> M B) s s1 e :
  m s = (s1, inl e) -> bind m f s = (s1, inl e).
Proof. unfold bind. by intros ->. Qed.

Lemma hoare_ret {A} (P : Session -> Prop) (a : A) (Q : A -> Session -> Prop) :
  (forall s, P s -> Q a s) -> hoare P (ret a) Q.
Proof. intros HQ s s' a' HP [= <- <-]. auto. Qed.

Lemma hoare_raise {A} P e (Q : A -> Session -> Prop) : hoare P (raise e) Q.
Proof. intros s s' a _ [=]. Qed.

Lemma hoare_bind {A B} P (m : M A) (R : A -> Session -> Prop) (f : A -> M B) Q :
  hoare P m R -> (forall a, hoare (R a) (f a) Q) -> hoare P (bind m f) Q.
Proof.
  intros Hm Hf s s' b HP Hrun.
  apply bind_inr in Hrun as (a & s1 & H1 & H2). eapply Hf; eauto.
Qed.

Lemma hoare_conseq {A} (P P' : Session -> Prop) (m : M A) (Q Q' : A -> Session -> Prop) :
  hoare P' m Q' -> (forall s, P s -> P' s) -> (forall a s, Q' a s -> Q a s) ->
  hoare P m Q.
Proof. intros Hm HP HQ s s' a Hs Hrun. eauto. Qed.

Lemma hoare_pre {A} (P P' : Session -> Prop) (m : M A) Q :
  hoare P' m Q -> (forall s, P s -> P' s) -> hoare P m Q.
Proof. intros Hm HP. eapply hoare_conseq; eauto. Qed.

Lemma hoare_post {A} (P : Session -> Prop) (m : M A) (Q Q' : A -> Session -> Prop) :
  hoare P m Q' -> (forall a s, Q' a s -> Q a s) -> hoare P m Q.
Proof. intros Hm HQ. eapply hoare_conseq; eauto. Qed.

(** A fact that does not depend on the session moves out of the
    precondition. *)
Lemma hoare_fact {A} (F : Prop) (P : Session -> Prop) (m : M A) Q :
  (F -> hoare P m Q) -> hoare (fun s => F /\ P s) m Q.
Proof. intros Hm s s' a [HF HP]. by apply Hm. Qed.

Lemma hoare_gets {A} P (f : Session -> A) (Q : A -> Session -> Prop) :
  (forall s, P s -> Q (f s) s) -> hoare P (gets f) Q.
Proof. intros HQ s s' a HP [= <- <-]. auto. Qed.

Lemma hoare_modify P (f : Session -> Session) (Q : unit -> Session -> Prop) :
  (forall s, P s -> Q tt (f s)) -> hoare P (modify f) Q.
Proof. intros HQ s s' a HP [= <- <-]. auto. Qed.

Lemma hoare_lift {A} P (r : PyExc + A) (Q : A -> Session -> Prop) :
  (forall a s, r = inr a -> P s -> Q a s) -> hoare P (lift r) Q.
Proof. intros HQ s s' a HP [= <- ->]. auto. Qed.

Lemma hoare_deref {A} P (o : option A) (Q : A -> Session -> Prop) :
  (forall a s, o = Some a -> P s -> Q a s) -> hoare P (deref o) Q.
Proof. intros HQ s s' a HP. destruct o; intros [= <- <-]. auto. Qed.

Lemma hoare_when P (b : bool) (m : M unit) (Q : unit -> Session -> Prop) :
  (b = true -> hoare P m Q) -> (b = false -> forall s, P s -> Q tt s) ->
  hoare P (when b m) Q.
Proof.
  destruct b; simpl; intros Ht Hf; [auto|]. apply hoare_ret. auto.
Qed.

(** A computation that keeps the heap keeps every property of the heap. *)
Lemma hoare_keeps_heap {A} (m : M A) (P : list (Location * PlObject) -> Prop) :
  keeps heap m -> hoare (fun s => P (heap s)) m (fun _ s => P (heap s)).
Proof. intros Hm s s' a HP Hrun. by rewrite (Hm _ _ _ Hrun). Qed.

Section Keeps.
Context {X : Type} (f : Session -> X).

Lemma keeps_bind {A B} (m : M A) (g : A -> M B) :
  keeps f m -> (forall a, keeps f (g a)) -> keeps f (bind m g).
Proof.
  intros Hm Hg s s' [e|b] Hrun.
  - apply bind_inl in Hrun as [H1 | (a & s1 & H1 & H2)].
    + eauto.
    + rewrite (Hg _ _ _ _ H2). eauto.
  - apply bind_inr in Hrun as (a & s1 & H1 & H2).
    rewrite (Hg _ _ _ _ H2). eauto.
Qed.

Lemma keeps_ret {A} (a : A) : keeps f (ret a).
Proof. by intros s s' r [= <- _]. Qed.

Lemma keeps_raise {A} e : keeps f (@raise A e).
Proof. by intros s s' r [= <- _]. Qed.

Lemma keeps_lift {A} (r : PyExc + A) : keeps f (lift r).
Proof. by intros s s' r' [= <- _]. Qed.

Lemma keeps_gets {A} (g : Session -> A) : keeps f (gets g).
Proof. by intros s s' r [= <- _]. Qed.

Lemma keeps_modify (g : Session -> Session) :
  (forall s, f (g s) = f s) -> keeps f (modify g).
Proof. intros Hg s s' r [= <- _]. apply Hg. Qed.

Lemma keeps_when b (m : M unit) : keeps f m -> keeps f (when b m).
Proof. destruct b; simpl; [done|]. intros _. apply keeps_ret. Qed.

Lemma keeps_deref {A} (o : option A) : keeps f (deref o).
Proof. destruct o; [apply keeps_ret | apply keeps_raise]. Qed.

Lemma keeps_get_layer k : keeps f (get_layer k).
Proof.
  intros s s' r. unfold get_layer.
  destruct (heap s !! k) as [[? []]|]; by intros [= <- _].
Qed.

Lemma keeps_get_material k : keeps f (get_material k).
Proof.
  intros s s' r. unfold get_material.
  destruct (heap s !! k) as [[? []]|]; by intros [= <- _].
Qed.

Lemma keeps_get_env k : keeps f (get_env k).
Proof.
  intros s s' r. unfold get_env.
  destruct (heap s !! k) as [[? []]|]; by intros [= <- _].
Qed.

Lemma keeps_find_key cls loc name : keeps f (find_key cls loc name).
Proof. apply keeps_gets. Qed.

Lemma keeps_for_each {A} (xs : list A) (body : A -> M unit) :
  (forall x, keeps f (body x)) -> keeps f (for_each xs body).
Proof.
  intros Hb. induction xs as [|x xs IH]; simpl; [apply keeps_ret|].
  apply keeps_bind; auto.
Qed.

End Keeps.

(** Walk a computation to show that it keeps a component of the session. *)
Ltac keeps_tac :=
  repeat first
    [ assumption
    | match goal with
      | Hp : context [keeps] |- _ => apply Hp
      end
    | apply keeps_ret | apply keeps_raise | apply keeps_lift
    | apply keeps_gets | apply keeps_deref
    | apply keeps_get_layer | apply keeps_get_material | apply keeps_get_env
    | apply keeps_find_key
    | apply keeps_modify; done
    | apply keeps_when
    | apply keeps_bind; [|intros ?]
    | match goal with
      | |- keeps _ (match ?x with _ => _ end) => destruct x
      end ].

Section Frames.
Context {hs : PyHSPlasma} {co : Collaborators} {sc : Scene}.

(** ** Computations that leave the heap alone *)

Lemma keeps_heap_warn msg : keeps heap (warn msg).
Proof. by apply keeps_modify. Qed.

Lemma keeps_heap_pending_lookup key : keeps heap (pending_lookup key).
Proof.
  apply keeps_bind; [apply keeps_lift|]. intros h s s' r.
  unfold pending_lookup.
  destruct (dict_probe h key (_pending s)) as [t o]. by intros [= <- _].
Qed.

Lemma keeps_heap_stash key layer : keeps heap (stash key layer).
Proof.
  pose proof (keeps_heap_pending_lookup key).
  unfold stash, pending_contains, pending_setitem, pending_getitem_append.
  keeps_tac.
Qed.

Lemma keeps_heap_test_image_alpha image : keeps heap (_test_image_alpha image).
Proof. unfold _test_image_alpha. keeps_tac. Qed.

Lemma keeps_heap_export_prepared_layer layer image :
  keeps heap (export_prepared_layer layer image).
Proof.
  pose proof (keeps_heap_stash). unfold export_prepared_layer. keeps_tac.
Qed.

(** ** What a primitive does to the heap *)

Lemma add_object_run loc o s :
  add_object loc o s = (with_heap (heap s ++ [(loc, o)]) s, inr (length (heap s))).
Proof. done. Qed.

Lemma update_layer_inr k f s s' u :
  update_layer k f s = (s', inr u) ->
  exists loc l, heap s !! k = Some (loc, OLayer l) /\
                s' = with_heap (<[k := (loc, OLayer (f l))]> (heap s)) s.
Proof.
  unfold update_layer. destruct (heap s !! k) as [[loc []]|]; intros [=]. eauto.
Qed.

Lemma update_layer_run k f s loc l :
  heap s !! k = Some (loc, OLayer l) ->
  update_layer k f s = (with_heap (<[k := (loc, OLayer (f l))]> (heap s)) s, inr tt).
Proof. unfold update_layer. by intros ->. Qed.

Lemma update_material_inr k f s s' u :
  update_material k f s = (s', inr u) ->
  exists loc m, heap s !! k = Some (loc, OMaterial m) /\
                s' = with_heap (<[k := (loc, OMaterial (f m))]> (heap s)) s.
Proof.
  unfold update_material. destruct (heap s !! k) as [[loc []]|]; intros [=]. eauto.
Qed.

Lemma update_material_run k f s loc m :
  heap s !! k = Some (loc, OMaterial m) ->
  update_material k f s
  = (with_heap (<[k := (loc, OMaterial (f m))]> (heap s)) s, inr tt).
Proof. unfold update_material. by intros ->. Qed.

Lemma update_env_inr k f s s' u :
  update_env k f s = (s', inr u) ->
  exists loc e, heap s !! k = Some (loc, OEnvMap e) /\
                s' = with_heap (<[k := (loc, OEnvMap (f e))]> (heap s)) s.
Proof.
  unfold update_env. destruct (heap s !! k) as [[loc []]|]; intros [=]. eauto.
Qed.

Lemma update_textmap_inr k f s s' u :
  update_textmap k f s = (s', inr u) ->
  exists loc d, heap s !! k = Some (loc, OTextMap d) /\
                s' = with_heap (<[k := (loc, OTextMap (f d))]> (heap s)) s.
Proof.
  unfold update_textmap. destruct (heap s !! k) as [[loc []]|]; intros [=]. eauto.
Qed.

Lemma get_layer_inr k s s' l :
  get_layer k s = (s', inr l) -> s' = s /\ exists loc, heap s !! k = Some (loc, OLayer l).
Proof.
  unfold get_layer. destruct (heap s !! k) as [[loc []]|]; intros [=]. subst. eauto.
Qed.

Lemma get_material_inr k s s' m :
  get_material k s = (s', inr m) ->
  s' = s /\ exists loc, heap s !! k = Some (loc, OMaterial m).
Proof.
  unfold get_material. destruct (heap s !! k) as [[loc []]|]; intros [=]. subst. eauto.
Qed.

(** ** The frame invariant *)

Lemma edited_refl l : edited l l.
Proof. repeat split. exists 0. by rewrite Z.lor_0_r. Qed.

Lemma edited_trans l1 l2 l3 : edited l1 l2 -> edited l2 l3 -> edited l1 l3.
Proof.
  intros (? & ? & ? & ? & e1 & He1) (? & ? & ? & ? & e2 & He2).
  repeat split; try congruence.
  exists (Z.lor e1 e2). by rewrite He2, He1, Z.lor_assoc.
Qed.

Lemma Inv_refl s0 L : Inv s0 L s0.
Proof.
  split; [done|]. intros k loc [] Hk; try done.
  destruct (decide (k = L)); [|done]. eauto using edited_refl.
Qed.

Lemma hoare_Inv_pure {A} (m : M A) s0 L :
  keeps heap m -> hoare (Inv s0 L) m (fun _ => Inv s0 L).
Proof.
  intros Hm s s' a HI Hrun. unfold Inv in *. by rewrite (Hm _ _ _ Hrun).
Qed.

Lemma hoare_add_object s0 L loc o :
  hoare (Inv s0 L) (add_object loc o)
        (fun k s => (length (heap s0) <= k)%nat /\ Inv s0 L s).
Proof.
  intros s s' k [Hl HI] [= <- <-]. split; [done|]. split; simpl.
  - rewrite length_app. lia.
  - intros k loc' o' Hk. specialize (HI _ _ _ Hk).
    destruct o'; try done.
    + case_decide.
      * destruct HI as (l' & Hl' & He). exists l'. split; [|done].
        rewrite lookup_app_l; [done|]. by apply lookup_lt_Some in Hl'.
      * rewrite lookup_app_l; [done|]. by apply lookup_lt_Some in HI.
    + rewrite lookup_app_l; [done|]. by apply lookup_lt_Some in HI.
Qed.

(** Writing a cell that is new, or that holds neither a layer nor a
    material, keeps the invariant. *)
Lemma Inv_insert_free s0 L s k c c' :
  Inv s0 L s ->
  heap s !! k = Some c ->
  (length (heap s0) <= k)%nat \/
    match c.2 with OLayer _ | OMaterial _ => False | _ => True end ->
  Inv s0 L (with_heap (<[k := c']> (heap s)) s).
Proof.
  intros [Hl HI] Hc Hk. split; simpl.
  - by rewrite length_insert.
  - intros k0 loc o Hk0. specialize (HI _ _ _ Hk0).
    destruct (decide (k0 = k)) as [->|Hne].
    + destruct Hk as [Hge|Hfree].
      { apply lookup_lt_Some in Hk0. lia. }
      destruct o; try done.
      * case_decide.
        -- destruct HI as (l' & Hl' & _). rewrite Hl' in Hc. by simplify_eq.
        -- rewrite HI in Hc. by simplify_eq.
      * rewrite HI in Hc. by simplify_eq.
    + by rewrite list_lookup_insert_ne.
Qed.

Lemma hoare_update_layer s0 L k f :
  (k = L /\ forall l, edited l (f l)) \/ (length (heap s0) <= k)%nat ->
  hoare (Inv s0 L) (update_layer k f) (fun _ => Inv s0 L).
Proof.
  intros Hk s s' u HI Hrun. apply update_layer_inr in Hrun as (loc & l & Hl & ->).
  destruct (decide (length (heap s0) <= k)%nat) as [Hge|Hlt].
  { eapply Inv_insert_free; eauto. }
  destruct Hk as [[-> Hf]|?]; [|done].
  destruct HI as [Hlen HI]. split; simpl.
  - by rewrite length_insert.
  - intros k0 loc0 o Hk0. specialize (HI _ _ _ Hk0).
    destruct (decide (k0 = L)) as [->|Hne].
    + rewrite list_lookup_insert_eq by by eapply lookup_lt_Some.
      destruct o; try done.
      * destruct HI as (l' & Hl' & He).
        assert (loc0 = loc /\ l' = l) as [-> ->] by (split; congruence).
        exists (f l). split; [done|]. eauto using edited_trans.
      * congruence.
    + rewrite list_lookup_insert_ne by done.
      destruct o; done.
Qed.

Lemma hoare_update_env s0 L k f :
  hoare (Inv s0 L) (update_env k f) (fun _ => Inv s0 L).
Proof.
  intros s s' u HI Hrun. apply update_env_inr in Hrun as (loc & e & He & ->).
  eapply Inv_insert_free; [done|done|by right].
Qed.

Lemma hoare_update_textmap s0 L k f :
  hoare (Inv s0 L) (update_textmap k f) (fun _ => Inv s0 L).
Proof.
  intros s s' u HI Hrun. apply update_textmap_inr in Hrun as (loc & e & He & ->).
  eapply Inv_insert_free; [done|done|by right].
Qed.

Lemma hoare_bind_inv0 {A B} s0 L (m : M A) (f : A -> M B) Q :
  hoare (Inv s0 L) m (fun _ => Inv s0 L) ->
  (forall a, hoare (Inv s0 L) (f a) Q) ->
  hoare (Inv s0 L) (bind m f) Q.
Proof. intros. eapply hoare_bind; eauto. Qed.

Lemma hoare_bind_inv {A B} s0 L (F : A -> Prop) (m : M A) (f : A -> M B) Q :
  hoare (Inv s0 L) m (fun a s => F a /\ Inv s0 L s) ->
  (forall a, F a -> hoare (Inv s0 L) (f a) Q) ->
  hoare (Inv s0 L) (bind m f) Q.
Proof.
  intros Hm Hf. eapply hoare_bind; [exact Hm|]. intros a. simpl.
  apply hoare_fact. auto.
Qed.

Lemma hoare_when_inv s0 L b m :
  (b = true -> hoare (Inv s0 L) m (fun _ => Inv s0 L)) ->
  hoare (Inv s0 L) (when b m) (fun _ => Inv s0 L).
Proof. intros Hm. apply hoare_when; auto. Qed.

(** Walk a computation, keeping the frame invariant; [side] discharges the
    conditions on the layers that are written. *)
Ltac hinv side :=
  lazymatch goal with
  | |- hoare ?P (bind (ret ?a) ?f) ?Q =>
      change (hoare P (f a) Q); cbv beta; hinv side
  | |- hoare _ (bind (add_object _ _) _) _ =>
      eapply hoare_bind_inv; [ apply hoare_add_object | intros ? ?; hinv side ]
  | |- hoare _ (bind _ _) _ =>
      eapply hoare_bind_inv0; [ hinv side | intros ?; hinv side ]
  | |- hoare _ (ret _) _ => apply hoare_ret; intros ? ?; try done
  | |- hoare _ (raise _) _ => apply hoare_raise
  | |- hoare _ (when _ _) _ => apply hoare_when_inv; intros ?; hinv side
  | |- hoare _ (update_layer _ _) _ => apply hoare_update_layer; side
  | |- hoare _ (update_env _ _) _ => apply hoare_update_env
  | |- hoare _ (update_textmap _ _) _ => apply hoare_update_textmap
  | |- hoare _ (add_object _ _) _ =>
      eapply hoare_post; [apply hoare_add_object | by intros ? ? [_ ?]]
  | |- hoare _ (match ?x with _ => _ end) _ => destruct x eqn:?; hinv side
  | |- hoare _ ?m _ =>
      first [ match goal with
              | Hh : context [hoare] |- _ => apply Hh; side
              end
            | apply hoare_Inv_pure; solve [keeps_tac]
            | idtac ]
  end.

Ltac edited_tac :=
  intros [? ? [] ? ? ? ? ? ? ? ? ? ? ? ?]; unfold edited; simpl;
  repeat split; first [ by eexists | exists 0; by rewrite Z.lor_0_r ].

Ltac side_tac :=
  first [ left; split; [done | edited_tac] | right; lia ].

Lemma hoare_propagate s0 bm layer :
  hoare (Inv s0 layer) (_propagate_material_settings bm layer) (fun _ => Inv s0 layer).
Proof. unfold _propagate_material_settings. hinv side_tac. Qed.

Lemma hoare_find_create s0 L cls loc name fresh :
  hoare (Inv s0 L) (find_create cls loc name fresh) (fun _ => Inv s0 L).
Proof.
  unfold find_create. hinv side_tac.
Qed.

Lemma hoare_collect_visregions s0 L texture regions acc :
  hoare (Inv s0 L) (collect_visregions texture regions acc) (fun _ => Inv s0 L).
Proof.
  revert acc. induction regions as [|r regions IH]; intros acc; simpl.
  - hinv side_tac.
  - pose proof hoare_find_create.
    destruct (data_objects r) as [[rgn enabled]|]; [|apply hoare_raise].
    destruct (negb enabled); [apply hoare_raise|].
    eapply hoare_bind_inv0; [apply hoare_find_create|]. intros k. apply IH.
Qed.

Lemma hoare_export_dynamic_env s0 bo hsgmat layer texture pl_class :
  hoare (Inv s0 layer) (export_dynamic_env bo hsgmat (Some layer) texture pl_class)
        (fun _ => Inv s0 layer).
Proof.
    pose proof hoare_find_create. pose proof hoare_collect_visregions.
  unfold export_dynamic_env. simpl deref. hinv side_tac.
Qed.

Lemma hoare_export_texture_type_environment_map s0 bo hsgmat layer slot :
  hoare (Inv s0 layer) (_export_texture_type_environment_map bo hsgmat layer slot)
        (fun _ => Inv s0 layer).
Proof.
  pose proof keeps_heap_warn.
  pose proof hoare_export_dynamic_env.
  unfold _export_texture_type_environment_map. hinv side_tac.
Qed.

Lemma hoare_export_texture_type_image s0 bo hsgmat layer slot :
  hoare (Inv s0 layer) (_export_texture_type_image bo hsgmat layer slot)
        (fun _ => Inv s0 layer).
Proof.
  pose proof keeps_heap_warn.
  pose proof keeps_heap_test_image_alpha.
  pose proof keeps_heap_stash. pose proof hoare_find_create.
  unfold _export_texture_type_image. hinv side_tac.
Qed.

Lemma hoare_dispatch_tex_exporter s0 ty bo hsgmat layer slot :
  hoare (Inv s0 layer) (dispatch_tex_exporter ty bo hsgmat layer slot)
        (fun _ => Inv s0 layer).
Proof.
  pose proof hoare_export_texture_type_image.
  pose proof hoare_export_texture_type_environment_map.
  unfold dispatch_tex_exporter, _export_texture_type_none. hinv side_tac.
Qed.

Lemma hoare_attach_controller s0 L bo attr ctrl layer_animation :
  (forall k, layer_animation = Some k -> (length (heap s0) <= k)%nat) ->
  hoare (Inv s0 L) (attach_controller bo L attr ctrl layer_animation)
        (fun r s => (forall k, r = Some k -> (length (heap s0) <= k)%nat) /\ Inv s0 L s).
Proof.
  intros Hla. unfold attach_controller. destruct ctrl as [c|].
  - eapply hoare_bind_inv with (F := fun la => (length (heap s0) <= la)%nat).
    + destruct layer_animation as [la|].
      * apply hoare_ret. auto.
      * eapply hoare_bind_inv0.
        { apply hoare_Inv_pure, keeps_get_layer. }
        intros base. apply hoare_add_object.
    + intros la Hge. eapply hoare_bind_inv0.
      { apply hoare_update_layer. by right. }
      intros _. apply hoare_ret. intros s HI. split; [|done]. by intros k [= <-].
  - apply hoare_ret. auto.
Qed.

Lemma hoare_export_layer_opacity_animation s0 L bm tex_slot fcurves :
  hoare (Inv s0 L) (_export_layer_opacity_animation bm tex_slot L fcurves)
        (fun _ => Inv s0 L).
Proof. unfold _export_layer_opacity_animation. hinv side_tac. Qed.

Lemma hoare_export_layer_transform_animation s0 L bm tex_slot fcurves :
  hoare (Inv s0 L) (_export_layer_transform_animation bm tex_slot L fcurves)
        (fun _ => Inv s0 L).
Proof. unfold _export_layer_transform_animation. hinv side_tac. Qed.

(** The animation exporter returns the layer it was given or a layer it
    allocated. *)
Lemma hoare_export_layer_animations s0 L bo bm tex_slot idx hsgmat :
  hoare (Inv s0 L) (_export_layer_animations bo bm tex_slot idx hsgmat L)
        (fun r s => (r = L \/ (length (heap s0) <= r)%nat) /\ Inv s0 L s).
Proof.
  unfold _export_layer_animations.
  destruct (harvest_fcurves (bpy.mat_animation_data bm) _) as [mat_action mat_curves].
  eapply hoare_bind_inv0.
  { apply hoare_Inv_pure, keeps_deref. }
  intros texture.
  destruct (harvest_fcurves (bpy.tex_animation_data texture) None)
    as [tex_action tex_curves].
  destruct (mat_curves ++ tex_curves) as [|c0 fcurves].
  { apply hoare_ret. auto. }
  eapply hoare_bind_inv0; [apply hoare_export_layer_opacity_animation|].
  intros ctrl1.
  eapply hoare_bind_inv; [by apply hoare_attach_controller|].
  intros la1 Hla1.
  eapply hoare_bind_inv0; [apply hoare_export_layer_transform_animation|].
  intros ctrl2.
  eapply hoare_bind_inv; [by apply hoare_attach_controller|].
  intros [la|] Hla; [|apply hoare_ret; auto].
  specialize (Hla _ eq_refl).
  eapply hoare_bind_inv0; [hinv ltac:(by right)|]. intros _.
  eapply hoare_bind_inv0; [hinv ltac:(by right)|]. intros [start end_].
  eapply hoare_bind_inv0; [hinv ltac:(by right)|]. intros _.
  eapply hoare_bind_inv0; [hinv ltac:(by right)|]. intros _.
  eapply hoare_bind_inv0; [hinv ltac:(by right)|]. intros _.
  eapply hoare_bind_inv0; [hinv ltac:(by right)|]. intros _.
  apply hoare_ret. auto.
Qed.

End Frames.

Section Running.
Context {hs : PyHSPlasma} {co : Collaborators} {sc : Scene}.

(** ** Running the straight-line parts on a known layer *)

Lemma with_heap_with_heap h h' s : with_heap h (with_heap h' s) = with_heap h s.
Proof. done. Qed.

Lemma update_layer_snoc k f h loc l tl s :
  k = length h ->
  update_layer k f (with_heap (h ++ (loc, OLayer l) :: tl) s)
  = (with_heap (h ++ (loc, OLayer (f l)) :: tl) s, inr tt).
Proof.
  intros ->. unfold update_layer. simpl.
  rewrite list_lookup_middle by done. simpl.
  by rewrite insert_app_r_alt, Nat.sub_diag by done.
Qed.

Lemma get_layer_snoc k h loc l tl s :
  k = length h ->
  get_layer k (with_heap (h ++ (loc, OLayer l) :: tl) s)
  = (with_heap (h ++ (loc, OLayer l) :: tl) s, inr l).
Proof.
  intros ->. unfold get_layer. simpl. by rewrite list_lookup_middle by done.
Qed.

Lemma update_material_at k f h loc m s :
  h !! k = Some (loc, OMaterial m) ->
  update_material k f (with_heap h s)
  = (with_heap (<[k := (loc, OMaterial (f m))]> h) s, inr tt).
Proof. intros Hk. unfold update_material. simpl. by rewrite Hk. Qed.

Lemma get_material_at k h loc m s :
  h !! k = Some (loc, OMaterial m) ->
  get_material k (with_heap h s) = (with_heap h s, inr m).
Proof. intros Hk. unfold get_material. simpl. by rewrite Hk. Qed.

(** Rewrite the first step of a run with a fact about that step. *)
Ltac run_with lem :=
  erewrite bind_run; [| apply lem; try done; try (by rewrite ?length_insert)].

Lemma propagate_snoc bm k h loc l tl s :
  k = length h ->
  _propagate_material_settings bm k (with_heap (h ++ (loc, OLayer l) :: tl) s)
  = (with_heap (h ++ (loc, OLayer (propagated bm l)) :: tl) s, inr tt).
Proof.
  intros Hk. unfold _propagate_material_settings, propagated.
  destruct (bpy.use_mist bm); simpl.
  - change (bind (ret tt) ?f ?s) with (f tt s). cbv beta.
    do 3 run_with update_layer_snoc. by apply update_layer_snoc.
  - unfold when. simpl.
    erewrite bind_run.
    2:{ run_with update_layer_snoc. by apply update_layer_snoc. }
    do 3 run_with update_layer_snoc. by apply update_layer_snoc.
Qed.

End Running.

Section Slots.
Context {hs : PyHSPlasma} {co : Collaborators} {sc : Scene}.

(** ** The parts of [_export_texture_slot]

    Each part is run in front of an arbitrary rest [K] of the function. *)

Ltac run_with lem :=
  erewrite bind_run; [| apply lem; try done; try (by rewrite ?length_insert)].

Lemma bind_ret {A B} (a : A) (K : A -> M B) s : bind (ret a) K s = K a s.
Proof. done. Qed.

Lemma update_layer_snoc_run {A} k f h loc l tl (K : unit -> M A) s :
  k = length h ->
  bind (update_layer k f) K (with_heap (h ++ (loc, OLayer l) :: tl) s)
  = K tt (with_heap (h ++ (loc, OLayer (f l)) :: tl) s).
Proof. intros Hk. by run_with update_layer_snoc. Qed.

Lemma slot_prologue_run {A} bo bm slot (K : Key -> M A) s :
  (layer <- add_object (page_of (bpy.ob_name bo))
              (OLayer (new_layer plLayer
                         (bpy.mat_name bm +:+ "_" +:+ bpy.slot_name slot))) ;;
   _propagate_material_settings bm layer ;;
   match list_find (fun uvchan => uvchan = bpy.uv_layer slot) (bpy.uv_layers bo) with
   | Some (i, _) => update_layer layer (set_UVWSrc (Z.of_nat i))
   | None => ret tt
   end ;;
   update_layer layer
     (set_transform {| translate := bpy.offset slot; mscale := bpy.scale slot |}) ;;
   K layer) s
  = K (length (heap s))
      (with_heap (heap s ++ [(page_of (bpy.ob_name bo), OLayer (slot_layer bo bm slot))]) s).
Proof.
  rewrite (bind_run _ _ _ _ _ (add_object_run _ _ _)).
  run_with propagate_snoc. unfold slot_layer.
  destruct (list_find _ _) as [[i ?]|].
  - run_with update_layer_snoc. by run_with update_layer_snoc.
  - rewrite bind_ret. by run_with update_layer_snoc.
Qed.

(** The custom layer properties, on the layer the slot has just made ... *)
Lemma layer_props_snoc_run {A} k h loc l tl texture (K : M A) s :
  k = length h ->
  (update_layer k
     (set_opacity (bpy.opacity (bpy.plasma_layer texture) / 100)%Q) ;;
   when (Qltb (bpy.opacity (bpy.plasma_layer texture)) 100)
     (update_layer k (on_state (or_blendFlags kBlendAlpha))) ;;
   when (bpy.alpha_halo (bpy.plasma_layer texture))
     (update_layer k (on_state (or_blendFlags kBlendAlphaTestHigh))) ;;
   K) (with_heap (h ++ (loc, OLayer l) :: tl) s)
  = K (with_heap
            (h ++ (loc, OLayer (layer_props_applied (bpy.plasma_layer texture) l)) :: tl)
            s).
Proof.
  intros Hk. rewrite update_layer_snoc_run by done. unfold layer_props_applied.
  destruct (Qltb _ _), (bpy.alpha_halo _); simpl;
    rewrite ?bind_ret, ?update_layer_snoc_run by done; done.
Qed.

(** ... and on a layer anywhere in the heap. *)
Lemma update_layer_at_run {A} k f loc l (K : unit -> M A) s :
  heap s !! k = Some (loc, OLayer l) ->
  bind (update_layer k f) K s
  = K tt (with_heap (<[k := (loc, OLayer (f l))]> (heap s)) s).
Proof. intros Hk. by rewrite (bind_run _ _ _ _ _ (update_layer_run _ _ _ _ _ Hk)). Qed.

Lemma layer_props_at_run {A} k loc l texture (K : M A) s :
  heap s !! k = Some (loc, OLayer l) ->
  (update_layer k
     (set_opacity (bpy.opacity (bpy.plasma_layer texture) / 100)%Q) ;;
   when (Qltb (bpy.opacity (bpy.plasma_layer texture)) 100)
     (update_layer k (on_state (or_blendFlags kBlendAlpha))) ;;
   when (bpy.alpha_halo (bpy.plasma_layer texture))
     (update_layer k (on_state (or_blendFlags kBlendAlphaTestHigh))) ;;
   K) s
  = K (with_heap
            (<[k := (loc, OLayer (layer_props_applied (bpy.plasma_layer texture) l))]>
               (heap s)) s).
Proof.
  intros Hk. pose proof (lookup_lt_Some _ _ _ Hk) as Hlt.
  rewrite (update_layer_at_run _ _ _ _ _ _ Hk). unfold layer_props_applied.
  destruct (Qltb _ _), (bpy.alpha_halo _); simpl; rewrite ?bind_ret;
    repeat (erewrite update_layer_at_run
              by (simpl; apply list_lookup_insert_eq; by rewrite ?length_insert);
            simpl; rewrite ?list_insert_insert_eq);
    done.
Qed.

(** The stencil's own flags, up to the test for a next slot. *)
Lemma stencil_setup_run {A} hsgmat mloc m k loc l texture slot (K : M A) s :
  k = length (heap s) ->
  heap s !! hsgmat = Some (mloc, OMaterial m) ->
  bpy.texture slot = Some texture ->
  (update_material hsgmat
     (fun m => set_compFlags (Z.lor (compFlags m) kCompNeedsBlendChannel) m) ;;
   update_layer k (on_state (or_blendFlags
     (Z.lor (Z.lor kBlendAlpha kBlendAlphaMult) kBlendNoTexColor))) ;;
   texture <- deref (bpy.texture slot) ;;
   when (bool_decide (bpy.type texture = bpy.BLEND))
     (update_layer k (on_state (or_clampFlags kClampTexture))) ;;
   update_layer k (on_state (or_ZFlags kZNoZWrite)) ;;
   update_layer k (set_ambient (1, 1, 1, 1)%Q) ;;
   K) (with_heap (heap s ++ [(loc, OLayer l)]) s)
  = K (with_heap
            (<[hsgmat := (mloc, OMaterial
                 (set_compFlags (Z.lor (compFlags m) kCompNeedsBlendChannel) m))]>
               (heap s)
             ++ [(loc, OLayer (stencil_flags texture l))]) s).
Proof.
  intros Hk Hm Htex. pose proof (lookup_lt_Some _ _ _ Hm) as Hlt.
  erewrite bind_run.
  2:{ eapply update_material_at. by rewrite lookup_app_l. }
  rewrite insert_app_l by done.
  rewrite update_layer_snoc_run by by rewrite length_insert.
  rewrite Htex. simpl deref. rewrite bind_ret. unfold stencil_flags.
  destruct (bool_decide _); simpl; rewrite ?bind_ret;
    rewrite !update_layer_snoc_run by (by rewrite length_insert); done.
Qed.

(** The blend flags of a plain slot. *)
Lemma standard_flags_run {A} k h loc l slot (K : nat -> M A) s :
  k = length h ->
  bind (match bpy.blend_type slot with
        | bpy.ADD =>
            update_layer k (on_state (or_blendFlags kBlendAddColorTimesAlpha))
        | bpy.MULTIPLY => update_layer k (on_state (or_blendFlags kBlendMult))
        | _ => ret tt
        end ;; ret 1%nat) K (with_heap (h ++ [(loc, OLayer l)]) s)
  = K 1%nat (with_heap (h ++ [(loc, OLayer (standard_flags slot l))]) s).
Proof.
  intros Hk. unfold standard_flags.
  destruct (bpy.blend_type slot); simpl;
    try (erewrite (bind_run (bind _ _));
         [|by rewrite ?bind_ret, ?update_layer_snoc_run by done]); done.
Qed.

End Slots.

Section Pending.
Context {hs : PyHSPlasma} {co : Collaborators} {sc : Scene}.

(** ** The pending table *)

Lemma Texture_eq_same self other :
  same_identity self other -> _Texture_eq self other = (_update self other, true).
Proof.
  intros [Hi Hc]. unfold _Texture_eq. rewrite decide_True by done.
  by rewrite decide_True by done.
Qed.

Lemma Texture_eq_other self other :
  ~ same_identity self other -> _Texture_eq self other = (self, false).
Proof.
  intros Hn. unfold _Texture_eq.
  destruct (decide (image self = image other)); [|done].
  destruct (decide (calc_alpha self = calc_alpha other)); [|done].
  by destruct Hn.
Qed.

Lemma same_identity_hash a b h :
  same_identity a b -> _Texture_hash b = inr h -> _Texture_hash a = inr h.
Proof. intros [Hi Hc]. unfold _Texture_hash. by rewrite Hi, Hc. Qed.

Lemma update_identity self other :
  image (_update self other) = image self /\
  calc_alpha (_update self other) = calc_alpha self.
Proof. unfold _update. by destruct (use_alpha other), (mipmap other). Qed.

Lemma update_flags self other :
  use_alpha (_update self other) = use_alpha self || use_alpha other /\
  mipmap (_update self other) = mipmap self || mipmap other.
Proof.
  unfold _update.
  destruct (use_alpha other), (mipmap other), (use_alpha self), (mipmap self); done.
Qed.

Lemma update_idem self other : _update (_update self other) other = _update self other.
Proof.
  unfold _update.
  destruct (use_alpha other), (mipmap other), self as [? ? [] []]; done.
Qed.

Lemma same_identity_update self other key :
  same_identity (_update self other) key <-> same_identity self key.
Proof.
  unfold same_identity. destruct (update_identity self other) as [-> ->]. done.
Qed.

#[local] Instance same_identity_equiv : Equivalence same_identity.
Proof.
  unfold same_identity. split.
  - by intros a.
  - intros a b [? ?]. split; congruence.
  - intros a b c [? ?] [? ?]. split; congruence.
Qed.

(** A probe for a key that no entry has the identity of finds nothing and
    changes nothing. *)
Lemma dict_probe_absent h key tbl :
  Forall (fun e => ~ same_identity e.1 key) tbl ->
  dict_probe h key tbl = (tbl, None).
Proof.
  induction 1 as [|[k v] tbl Hk _ IH]; simpl; [done|].
  rewrite IH. simpl in Hk. rewrite (Texture_eq_other _ _ Hk).
  by destruct (_Texture_hash k) as [|hk]; [|destruct (hk =? h)].
Qed.

(** A probe stops at the first entry with the identity of the key and
    merges the key's flags into it. *)
Lemma dict_probe_present h key pre k v post :
  _Texture_hash key = inr h ->
  Forall (fun e => ~ same_identity e.1 key) pre ->
  same_identity k key ->
  dict_probe h key (pre ++ (k, v) :: post)
  = (pre ++ (_update k key, v) :: post, Some (length pre)).
Proof.
  intros Hh Hpre Hk. induction Hpre as [|[k0 v0] pre Hk0 _ IH]; simpl.
  - rewrite (same_identity_hash _ _ _ Hk Hh), Z.eqb_refl.
    by rewrite (Texture_eq_same _ _ Hk).
  - rewrite IH. simpl in Hk0. rewrite (Texture_eq_other _ _ Hk0).
    by destruct (_Texture_hash k0) as [|hk]; [|destruct (hk =? h)].
Qed.

(** What [stash] does to a table: it appends a new entry, ... *)
Lemma stash_new key layer s h :
  _Texture_hash key = inr h ->
  Forall (fun e => ~ same_identity e.1 key) (_pending s) ->
  stash key layer s = (with_pending (_pending s ++ [(key, [layer])]) s, inr tt).
Proof.
  intros Hh Habs.
  unfold stash, pending_contains, pending_setitem, pending_lookup, bind, lift, ret.
  rewrite Hh. rewrite (dict_probe_absent _ _ _ Habs). simpl.
  rewrite (dict_probe_absent _ _ _ Habs). by destruct s.
Qed.

(** ... or merges the key into the entry of its identity and appends the
    layer to that entry's consumers. *)
Lemma stash_merge key layer s h pre k v post :
  _Texture_hash key = inr h ->
  _pending s = pre ++ (k, v) :: post ->
  Forall (fun e => ~ same_identity e.1 key) pre ->
  same_identity k key ->
  stash key layer s
  = (with_pending (pre ++ (_update k key, v ++ [layer]) :: post) s, inr tt).
Proof.
  intros Hh Htbl Hpre Hk.
  unfold stash, pending_contains, pending_getitem_append, pending_lookup,
    bind, lift, ret.
  rewrite Hh, Htbl. rewrite (dict_probe_present _ _ _ _ _ _ Hh Hpre Hk). simpl.
  assert (Hk' : same_identity (_update k key) key) by by apply same_identity_update.
  rewrite (dict_probe_present _ _ _ _ _ _ Hh Hpre Hk'). simpl.
  unfold modify. simpl.
  rewrite alter_app_r_alt by lia. rewrite Nat.sub_diag. simpl.
  rewrite update_idem. by destruct s.
Qed.

Lemma update_record self other :
  _update self other
  = {| image := image self; calc_alpha := calc_alpha self;
       mipmap := mipmap self || mipmap other;
       use_alpha := use_alpha self || use_alpha other |}.
Proof.
  unfold _update.
  destruct (use_alpha other), (mipmap other), self as [? ? [] []]; done.
Qed.

Lemma filter_singleton {A} (P : A -> Prop) `{!forall x, Decision (P x)} (l : list A) x :
  filter P l = [x] ->
  exists pre post, l = pre ++ x :: post /\ Forall (fun y => ~ P y) pre /\
                   Forall (fun y => ~ P y) post /\ P x.
Proof.
  induction l as [|y l IH]; [done|]. rewrite filter_cons.
  destruct (decide (P y)) as [Hy|Hy].
  - intros [= -> Hnil]. exists [], l. split_and!; [done|done| |done].
    apply Forall_forall. intros z Hz Pz.
    assert (z ∈ filter P l) as Hin by by apply list_elem_of_filter.
    rewrite Hnil in Hin. by apply elem_of_nil in Hin.
  - intros Hf. destruct (IH Hf) as (pre & post & -> & Hpre & Hpost & Hx).
    exists (y :: pre), post. split_and!; [done| |done|done]. by constructor.
Qed.

Lemma filter_nil_Forall {A} (P : A -> Prop) `{!forall x, Decision (P x)} (l : list A) :
  filter P l = [] -> Forall (fun y => ~ P y) l.
Proof.
  intros Hnil. apply Forall_forall. intros z Hz Pz.
  assert (z ∈ filter P l) as Hin by by apply list_elem_of_filter.
  rewrite Hnil in Hin. by apply elem_of_nil in Hin.
Qed.

Lemma Forall_filter_nil {A} (P : A -> Prop) `{!forall x, Decision (P x)} (l : list A) :
  Forall (fun y => ~ P y) l -> filter P l = [].
Proof.
  induction 1 as [|y l Hy _ IH]; [done|]. rewrite filter_cons.
  by rewrite decide_False.
Qed.

Lemma entries_of_same key key' tbl :
  same_identity key key' -> entries_of key tbl = entries_of key' tbl.
Proof.
  intros Hs. unfold entries_of. apply list_filter_iff. intros e. simpl.
  split; intros He; [by rewrite He | by rewrite He, Hs].
Qed.

Lemma contributing_same key key' refs :
  same_identity key key' -> contributing key refs = contributing key' refs.
Proof.
  intros Hs. unfold contributing. apply list_filter_iff. intros e. simpl.
  split; intros He; [by rewrite He | by rewrite He, Hs].
Qed.

Lemma merged_entry_nil c : merged_entry c = [] -> c = [].
Proof. by destruct c as [|[]]. Qed.

Lemma entries_of_app key t1 t2 :
  entries_of key (t1 ++ t2) = entries_of key t1 ++ entries_of key t2.
Proof. apply filter_app. Qed.

Lemma entries_of_cons key e t :
  entries_of key (e :: t)
  = if decide (same_identity e.1 key) then e :: entries_of key t else entries_of key t.
Proof. unfold entries_of. rewrite filter_cons. by destruct (decide _). Qed.

Lemma contributing_snoc key refs r :
  contributing key (refs ++ [r])
  = contributing key refs ++ if decide (same_identity r.1 key) then [r] else [].
Proof.
  unfold contributing. rewrite filter_app, filter_cons, filter_nil.
  by destruct (decide _).
Qed.

Lemma merged_entry_snoc k0 l0 c key layer :
  merged_entry (((k0, l0) :: c) ++ [(key, layer)])
  = [(_update {| image := image k0; calc_alpha := calc_alpha k0;
                 mipmap := existsb (fun r => mipmap r.1) ((k0, l0) :: c);
                 use_alpha := existsb (fun r => use_alpha r.1) ((k0, l0) :: c) |} key,
      ((k0, l0) :: c).*2 ++ [layer])].
Proof.
  rewrite update_record. cbn [merged_entry app image calc_alpha mipmap use_alpha].
  rewrite (existsb_app _ ((k0, l0) :: c) [(key, layer)]).
  rewrite (existsb_app _ ((k0, l0) :: c) [(key, layer)]).
  cbn [existsb fst snd]. rewrite !orb_false_r.
  change ((k0, l0) :: c ++ [(key, layer)]) with (((k0, l0) :: c) ++ [(key, layer)]).
  by rewrite fmap_app.
Qed.

(** One more reference keeps the table in step with the references. *)
Lemma stash_represents key layer s refs h :
  _Texture_hash key = inr h ->
  represents (_pending s) refs ->
  exists s', stash key layer s = (s', inr tt) /\
             heap s' = heap s /\
             represents (_pending s') (refs ++ [(key, layer)]).
Proof.
  intros Hh Hrep.
  destruct (contributing key refs) as [|[k0 l0] c] eqn:Hc.
  - (* a new identity *)
    assert (Habs : Forall (fun e => ~ same_identity e.1 key) (_pending s)).
    { apply (filter_nil_Forall (fun e => same_identity e.1 key)).
      fold (entries_of key (_pending s)). by rewrite Hrep, Hc. }
    eexists. split; [by eapply stash_new|]. split; [done|]. simpl.
    intros key'. rewrite entries_of_app, contributing_snoc, entries_of_cons, Hrep.
    cbn [fst]. destruct (decide (same_identity key key')) as [Hs|Hs].
    + rewrite <- (contributing_same _ _ _ Hs), Hc. simpl.
      by destruct key as [? ? [] []].
    + by rewrite !app_nil_r.
  - (* an identity that is in the table *)
    pose proof (Hrep key) as He. rewrite Hc in He. simpl in He.
    apply filter_singleton in He as (pre & post & Htbl & Hpre & Hpost & Hk).
    simpl in Hk.
    eexists. split; [by eapply stash_merge|]. split; [done|]. simpl.
    intros key'. pose proof (Hrep key') as He'. rewrite Htbl in He'.
    rewrite entries_of_app, entries_of_cons in *. rewrite contributing_snoc.
    cbn [fst] in *.
    destruct (decide (same_identity key key')) as [Hs|Hs].
    + rewrite <- (contributing_same _ _ _ Hs) in *. rewrite Hc in *.
      rewrite decide_True in He' by by rewrite <- Hs.
      rewrite decide_True by by rewrite same_identity_update, <- Hs.
      rewrite merged_entry_snoc.
      destruct (entries_of key' pre); [|by destruct l].
      simpl in *. injection He' as Hpost'. by rewrite Hpost'.
    + rewrite app_nil_r.
      rewrite decide_False in He'.
      2:{ intros Hk'. apply Hs. by rewrite <- Hk, Hk'. }
      rewrite decide_False; [done|].
      rewrite same_identity_update. intros Hk'. apply Hs. by rewrite <- Hk, Hk'.
Qed.


End Pending.

Section Obj2mat.
Context {hs : PyHSPlasma} {co : Collaborators} {sc : Scene}.

(** ** Only the end of [export_material] writes [_obj2mat] *)

Lemma keeps_obj2mat_add_object loc o : keeps _obj2mat (add_object loc o).
Proof. by intros s s' r [= <- _]. Qed.

Lemma keeps_obj2mat_update_layer k f : keeps _obj2mat (update_layer k f).
Proof.
  intros s s' r. unfold update_layer.
  destruct (heap s !! k) as [[? []]|]; by intros [= <- _].
Qed.

Lemma keeps_obj2mat_update_material k f : keeps _obj2mat (update_material k f).
Proof.
  intros s s' r. unfold update_material.
  destruct (heap s !! k) as [[? []]|]; by intros [= <- _].
Qed.

Lemma keeps_obj2mat_update_env k f : keeps _obj2mat (update_env k f).
Proof.
  intros s s' r. unfold update_env.
  destruct (heap s !! k) as [[? []]|]; by intros [= <- _].
Qed.

Lemma keeps_obj2mat_update_textmap k f : keeps _obj2mat (update_textmap k f).
Proof.
  intros s s' r. unfold update_textmap.
  destruct (heap s !! k) as [[? []]|]; by intros [= <- _].
Qed.

Lemma keeps_obj2mat_pending_lookup key : keeps _obj2mat (pending_lookup key).
Proof.
  apply keeps_bind; [apply keeps_lift|]. intros h s s' r.
  unfold pending_lookup.
  destruct (dict_probe h key (_pending s)) as [t o]. by intros [= <- _].
Qed.

Ltac obj2mat_tac :=
  pose proof keeps_obj2mat_add_object; pose proof keeps_obj2mat_update_layer;
  pose proof keeps_obj2mat_update_material; pose proof keeps_obj2mat_update_env;
  pose proof keeps_obj2mat_update_textmap; pose proof keeps_obj2mat_pending_lookup;
  keeps_tac.

Lemma keeps_obj2mat_stash key layer : keeps _obj2mat (stash key layer).
Proof.
  unfold stash, pending_contains, pending_setitem, pending_getitem_append.
  obj2mat_tac.
Qed.

Lemma keeps_obj2mat_export_prepared_layer layer image :
  keeps _obj2mat (export_prepared_layer layer image).
Proof.
  pose proof keeps_obj2mat_stash. unfold export_prepared_layer. obj2mat_tac.
Qed.

Lemma keeps_obj2mat_propagate bm layer :
  keeps _obj2mat (_propagate_material_settings bm layer).
Proof. unfold _propagate_material_settings. obj2mat_tac. Qed.

Lemma keeps_obj2mat_find_create cls loc name fresh :
  keeps _obj2mat (find_create cls loc name fresh).
Proof. unfold find_create. obj2mat_tac. Qed.

Lemma keeps_obj2mat_collect_visregions texture regions acc :
  keeps _obj2mat (collect_visregions texture regions acc).
Proof.
  revert acc. induction regions as [|r regions IH]; intros acc; simpl.
  - apply keeps_ret.
  - pose proof keeps_obj2mat_find_create. obj2mat_tac.
Qed.

Lemma keeps_obj2mat_export_dynamic_env bo hsgmat layer texture pl_class :
  keeps _obj2mat (export_dynamic_env bo hsgmat layer texture pl_class).
Proof.
  pose proof keeps_obj2mat_find_create. pose proof keeps_obj2mat_collect_visregions.
  unfold export_dynamic_env. obj2mat_tac.
Qed.

Lemma keeps_obj2mat_dispatch ty bo hsgmat layer slot :
  keeps _obj2mat (dispatch_tex_exporter ty bo hsgmat layer slot).
Proof.
  pose proof keeps_obj2mat_find_create. pose proof keeps_obj2mat_export_dynamic_env.
  pose proof keeps_obj2mat_stash.
  unfold dispatch_tex_exporter, _export_texture_type_none,
    _export_texture_type_image, _export_texture_type_environment_map,
    _test_image_alpha, warn.
  obj2mat_tac.
Qed.

Lemma keeps_obj2mat_export_layer_animations bo bm tex_slot idx hsgmat base_layer :
  keeps _obj2mat (_export_layer_animations bo bm tex_slot idx hsgmat base_layer).
Proof.
  unfold _export_layer_animations, attach_controller,
    _export_layer_opacity_animation, _export_layer_transform_animation.
  obj2mat_tac.
Qed.

Lemma keeps_obj2mat_export_texture_slot_from bo bm hsgmat rest : forall idx,
  keeps _obj2mat (_export_texture_slot_from bo bm hsgmat rest idx).
Proof.
  induction rest as [|slot rest' IH]; intros idx; cbn [_export_texture_slot_from].
  - apply keeps_raise.
  - pose proof keeps_obj2mat_propagate. pose proof keeps_obj2mat_dispatch.
    pose proof keeps_obj2mat_export_layer_animations.
    obj2mat_tac.
Qed.

Lemma keeps_obj2mat_export_slots fuel bo bm hsgmat slots : forall i,
  keeps _obj2mat (export_slots fuel bo bm hsgmat slots i).
Proof.
  induction fuel as [|fuel IH]; intros i; simpl;
    destruct (i <? length slots)%nat; try apply keeps_ret; try apply keeps_raise.
  apply keeps_bind; [apply keeps_obj2mat_export_texture_slot_from|]. auto.
Qed.

Lemma keeps_obj2mat_export_waveset_material bo bm :
  keeps _obj2mat (export_waveset_material bo bm).
Proof.
  pose proof keeps_obj2mat_propagate. unfold export_waveset_material. obj2mat_tac.
Qed.

Lemma keeps_obj2mat_finalize_layers blank data compression layers : forall pages,
  keeps _obj2mat (finalize_layers blank data compression pages layers).
Proof.
  induction layers as [|layer layers IH]; intros pages; simpl.
  - apply keeps_ret.
  - unfold finalize_layer. obj2mat_tac.
Qed.

Lemma keeps_obj2mat_finalize : keeps _obj2mat finalize.
Proof.
  unfold finalize. apply keeps_bind; [apply keeps_gets|]. intros pending.
  apply keeps_for_each. intros [key layers]. unfold finalize_entry.
  pose proof keeps_obj2mat_finalize_layers. simpl. obj2mat_tac.
Qed.

End Obj2mat.

Section GetMaterials.
Context {hs : PyHSPlasma} {co : Collaborators} {sc : Scene}.

Lemma export_material_obj2mat bo bm s s' k :
  export_material bo bm s = (s', inr k) ->
  _obj2mat s'
  = <[bpy.ob_name bo := default [] (_obj2mat s !! bpy.ob_name bo) ++ [k]]> (_obj2mat s).
Proof.
  unfold export_material. intros Hrun.
  apply bind_inr in Hrun as (hsgmat & s1 & H1 & Hrun).
  apply bind_inr in Hrun as ([] & s2 & H2 & Hrun).
  apply bind_inr in Hrun as (m & s3 & H3 & Hrun).
  apply bind_inr in Hrun as ([] & s4 & H4 & Hrun).
  apply bind_inr in Hrun as ([] & s5 & H5 & Hret).
  injection Hret as <- <-. injection H5 as <-. simpl.
  apply keeps_obj2mat_add_object in H1.
  apply keeps_obj2mat_export_slots in H2.
  apply (keeps_get_material _obj2mat) in H3.
  assert (_obj2mat s4 = _obj2mat s3) as H4'.
  { destruct (layers m).
    - apply bind_inr in H4 as (layer & s6 & Ha & H4).
      apply bind_inr in H4 as ([] & s7 & Hp & H4).
      apply keeps_obj2mat_add_object in Ha.
      apply keeps_obj2mat_propagate in Hp.
      apply keeps_obj2mat_update_material in H4. congruence.
    - by injection H4 as <-. }
  rewrite H4', H3, H2, H1. by destruct (_obj2mat s !! bpy.ob_name bo).
Qed.

Lemma run_call_tracks c s s' r acc :
  tracks s acc -> run_call c s = (s', inr r) ->
  tracks s' (fun name => acc name ++ materials_of name [(c, r)]).
Proof.
  intros Ht Hrun. destruct c as [bo bm|bo bm|layer image|]; simpl in Hrun.
  - apply bind_inr in Hrun as (k & s1 & Hrun & [= <- <-]).
    apply export_material_obj2mat in Hrun. intros name. rewrite Hrun. simpl.
    destruct (decide (bpy.ob_name bo = name)) as [<-|Hne].
    + rewrite lookup_insert_eq, Ht. by destruct (acc (bpy.ob_name bo)).
    + by rewrite lookup_insert_ne, app_nil_r, Ht.
  - apply bind_inr in Hrun as (k & s1 & Hrun & [= <- <-]).
    apply keeps_obj2mat_export_waveset_material in Hrun.
    intros name. simpl. by rewrite Hrun, app_nil_r.
  - apply bind_inr in Hrun as (k & s1 & Hrun & [= <- <-]).
    apply keeps_obj2mat_export_prepared_layer in Hrun.
    intros name. simpl. by rewrite Hrun, app_nil_r.
  - apply bind_inr in Hrun as (k & s1 & Hrun & [= <- <-]).
    apply keeps_obj2mat_finalize in Hrun.
    intros name. simpl. by rewrite Hrun, app_nil_r.
Qed.

Lemma materials_of_cons name c r trace :
  materials_of name ((c, r) :: trace)
  = materials_of name [(c, r)] ++ materials_of name trace.
Proof.
  destruct c as [bo bm| | |], r; simpl; try done. by destruct (decide _).
Qed.

Lemma run_calls_tracks calls : forall s s' trace acc,
  tracks s acc -> run_calls calls s = (s', inr trace) ->
  tracks s' (fun name => acc name ++ materials_of name trace).
Proof.
  induction calls as [|c calls IH]; intros s s' trace acc Ht Hrun; simpl in Hrun.
  - injection Hrun as <- <-. intros name. simpl. by rewrite app_nil_r.
  - apply bind_inr in Hrun as (r & s1 & Hc & Hrun).
    apply bind_inr in Hrun as (rs & s2 & Hcs & [= <- <-]).
    pose proof (IH _ _ _ _ (run_call_tracks _ _ _ _ _ Ht Hc) Hcs) as Ht'.
    intros name. rewrite materials_of_cons, app_assoc. apply Ht'.
Qed.

(** C10 (amended). After a session of calls that all returned,
    [get_materials(bo)] raises [KeyError] when [export_material] was not
    called on [bo], also when [export_waveset_material] was, and never
    returns an empty list; otherwise it returns the references
    [export_material] returned for [bo], in call order, which leaves the
    waveset materials of [bo] out. *)
Theorem get_materials_after_session (calls : list Call) (s' : Session)
    (trace : list (Call * option Key)) (bo : bpy.Object) :
  run_calls calls MaterialConverter_init = (s', inr trace) ->
  get_materials bo s'
  = (s', match materials_of (bpy.ob_name bo) trace with
         | [] => inl KeyError
         | mats => inr mats
         end).
Proof.
  intros Hrun.
  assert (tracks MaterialConverter_init (fun _ => [])) as Ht by by intros name.
  pose proof (run_calls_tracks _ _ _ _ _ Ht Hrun (bpy.ob_name bo)) as Hl.
  simpl in Hl. unfold get_materials, gets, bind. rewrite Hl.
  by destruct (materials_of _ _).
Qed.

End GetMaterials.

Section DefaultLayer.
Context {hs : PyHSPlasma} {co : Collaborators} {sc : Scene}.

Lemma mat_layers_with_obj2mat m s k : mat_layers (with_obj2mat m s) k = mat_layers s k.
Proof. done. Qed.

(** C5. A material without qualifying texture slots is exported as a new
    [hsGMaterial] with exactly one layer, a new [plLayer] named after the
    material that carries nothing but the propagated fog flags and colors;
    and whatever its slots are, a material that [export_material] returns
    has at least one layer. *)
Theorem export_material_default_layer (bo : bpy.Object) (bm : bpy.Material)
    (s : Session) :
  (qualifying_slots bm = [] ->
   let hsgmat := length (heap s) in
   let page := page_of (bpy.ob_name bo) in
   export_material bo bm s =
   (with_obj2mat
      (<[bpy.ob_name bo := default [] (_obj2mat s !! bpy.ob_name bo) ++ [hsgmat]]>
         (_obj2mat s))
      (with_heap
         (heap s ++
          [ (page, OMaterial {| mname := bpy.mat_name bm; compFlags := 0;
                                layers := [S hsgmat] |});
            (page, OLayer
               {| lclass := plLayer;
                  lname := bpy.mat_name bm +:+ "_AutoLayer";
                  state :=
                    {| blendFlags := 0; clampFlags := 0;
                       shadeFlags :=
                         if bpy.use_mist bm then 0
                         else Z.lor (Z.lor 0 kShadeNoFog) kShadeReallyNoFog;
                       ZFlags := 0; miscFlags := 0 |};
                  opacity := 1; texture := None; UVWSrc := 0;
                  transform := {| translate := (0, 0, 0)%Q; mscale := (1, 1, 1)%Q |};
                  ambient := utils_color world_ambient_color;
                  preshade := utils_color (bpy.diffuse_color bm);
                  runtime := utils_color (bpy.diffuse_color bm);
                  specular := utils_color (bpy.specular_color bm);
                  underLay := None; opacityCtl := None; transformCtl := None;
                  timeConvert := new_timeConvert |}) ])
         s),
    inr hsgmat)) /\
  (forall s' hsgmat,
     export_material bo bm s = (s', inr hsgmat) -> mat_layers s' hsgmat <> []).
Proof.
  split.
  - intros Hq hsgmat page. unfold export_material. rewrite Hq. simpl.
    rewrite (bind_run _ _ _ _ _ (add_object_run _ _ _)). simpl.
    change (bind (ret tt) ?f ?x) with (f tt x). cbv beta.
    erewrite bind_run.
    2:{ eapply get_material_at. by apply list_lookup_middle. }
    simpl.
    erewrite bind_run.
    2:{ rewrite (bind_run _ _ _ _ _ (add_object_run _ _ _)). simpl.
        rewrite with_heap_with_heap.
        erewrite bind_run; [|by apply (propagate_snoc _ _ _ _ _ [])].
        eapply update_material_at.
        rewrite lookup_app_l by (rewrite length_app; simpl; lia).
        by apply list_lookup_middle. }
    unfold modify, bind, ret. simpl. f_equal.
    unfold with_obj2mat, with_heap. simpl. f_equal.
    + rewrite insert_app_l by (rewrite length_app; simpl; lia).
      rewrite insert_app_r_alt, Nat.sub_diag by done. simpl.
      rewrite <- app_assoc. simpl. unfold addLayer. simpl.
      rewrite length_app. simpl. rewrite Nat.add_1_r.
      unfold propagated. by destruct (bpy.use_mist bm).
    + by destruct (_obj2mat s !! bpy.ob_name bo).
  - intros s' hsgmat Hrun. unfold export_material in Hrun.
    apply bind_inr in Hrun as (k & s1 & _ & Hrun).
    apply bind_inr in Hrun as ([] & s2 & _ & Hrun).
    apply bind_inr in Hrun as (m & s3 & Hm & Hrun).
    apply bind_inr in Hrun as ([] & s4 & Hauto & Hrun).
    apply bind_inr in Hrun as ([] & s5 & Hmod & Hret).
    injection Hret as <- <-. injection Hmod as <-.
    rewrite mat_layers_with_obj2mat.
    apply get_material_inr in Hm as [-> [loc Hm]].
    destruct (layers m) as [|l0 ls] eqn:Hl.
    + apply bind_inr in Hauto as (layer & s5 & _ & Hauto).
      apply bind_inr in Hauto as ([] & s6 & _ & Hauto).
      apply update_material_inr in Hauto as (loc' & m' & Hm' & ->).
      unfold mat_layers. simpl.
      rewrite list_lookup_insert_eq by by eapply lookup_lt_Some.
      simpl. by destruct (layers m').
    + injection Hauto as <-. unfold mat_layers. by rewrite Hm, Hl.
Qed.

End DefaultLayer.

Section EnvironmentMap.
Context {hs : PyHSPlasma} {co : Collaborators} {sc : Scene}.

(** C6 (what the code does). For an environment map texture whose source is
    an image file, [_export_texture_type_environment_map] emits the warning
    and sets the environment-map shade flag of the layer, and then raises
    [AttributeError] on [pl_env.key], [pl_env] being [None]: the layer's
    texture is left as it was, but the export does not go on. *)
Theorem envmap_image_file_raises (bo : bpy.Object) (hsgmat layer : Key)
    (slot : bpy.TextureSlot) (texture : bpy.Texture) (s : Session)
    (loc : Location) (l : plLayerInterface) :
  bpy.texture slot = Some texture ->
  bpy.source (bpy.environment_map texture) = bpy.IMAGE_FILE ->
  heap s !! layer = Some (loc, OLayer l) ->
  _export_texture_type_environment_map bo hsgmat layer slot s
  = (with_warnings
       (warnings s ++ ["IMAGE EnvironmentMaps are not supported. '" +:+ lname l
                       +:+ "' will not be exported!"])
       (with_heap
          (<[layer := (loc, OLayer (on_state (or_shadeFlags kShadeEnvironMap) l))]>
             (heap s)) s),
     inl AttributeError).
Proof.
  intros Htex Hsrc Hl. unfold _export_texture_type_environment_map.
  rewrite Htex. simpl deref. rewrite bind_ret. rewrite Hsrc.
  unfold bind at 1. unfold bind at 1.
  unfold get_layer at 1. rewrite Hl.
  unfold bind at 1. unfold warn at 1, modify at 1, ret at 1.
  unfold bind at 1. unfold update_layer at 1. simpl heap. rewrite Hl.
  reflexivity.
Qed.

End EnvironmentMap.

Section StencilError.
Context {hs : PyHSPlasma} {co : Collaborators} {sc : Scene}.

Lemma drop_last_slot (slots : list bpy.TextureSlot) idx slot :
  slots !! idx = Some slot -> length slots = S idx -> drop idx slots = [slot].
Proof.
  intros Hs Hl. rewrite (drop_S _ _ _ Hs). f_equal. apply drop_ge. lia.
Qed.

(** C7 (what the code does). The per-slot exporter, called on a stencil
    slot that is the last of the qualifying slots of a material under
    export, does not raise the export error that line 177 spells out: the
    name [ExportError] is not bound in [material.py], and the statement ends
    in [NameError]. By then the slot has made its layer, set it up as a
    stencil and flagged the material as needing the blend channel; the
    session keeps that. The slot loop of [export_material] passes the
    exception on, so the export is aborted, but with no [ExportError],
    whatever the message. *)
Theorem stencil_without_next_slot_raises (bo : bpy.Object) (bm : bpy.Material)
    (hsgmat : Key) (slots : list bpy.TextureSlot) (idx : nat)
    (slot : bpy.TextureSlot) (texture : bpy.Texture) (s : Session)
    (mloc : Location) (m : hsGMaterial) :
  slots !! idx = Some slot ->
  length slots = S idx ->
  bpy.use_stencil slot = true ->
  bpy.texture slot = Some texture ->
  heap s !! hsgmat = Some (mloc, OMaterial m) ->
  let s' :=
    with_heap
      (<[hsgmat := (mloc, OMaterial
           (set_compFlags (Z.lor (compFlags m) kCompNeedsBlendChannel) m))]>
         (heap s)
       ++ [(page_of (bpy.ob_name bo),
            OLayer (stencil_flags texture (slot_layer bo bm slot)))]) s in
  _export_texture_slot bo bm hsgmat slots idx s = (s', inl NameError) /\
  (forall fuel,
     export_slots (S fuel) bo bm hsgmat slots idx s = (s', inl NameError)) /\
  (forall msg,
     (_export_texture_slot bo bm hsgmat slots idx s).2 <> inl (ExportError msg)).
Proof.
  intros Hslot Hlen Hst Htex Hm s'.
  assert (_export_texture_slot bo bm hsgmat slots idx s = (s', inl NameError))
    as Hrun.
  { unfold _export_texture_slot. rewrite (drop_last_slot _ _ _ Hslot Hlen).
    cbn [_export_texture_slot_from]. rewrite slot_prologue_run. rewrite Hst.
    erewrite bind_fail; [done|]. cbv iota.
    by erewrite stencil_setup_run. }
  split_and!; [done| |].
  - intros fuel. simpl. rewrite Hlen.
    rewrite (proj2 (Nat.ltb_lt idx (S idx))) by lia.
    by erewrite bind_fail.
  - intros msg. by rewrite Hrun.
Qed.

End StencilError.

Section NoController.
Context {hs : PyHSPlasma} {co : Collaborators} {sc : Scene}.

(** C9 (amended). When curves were gathered for a slot but neither the
    opacity nor the transform sub-exporter comes back with a controller,
    [_export_layer_animations] returns the base layer itself without
    raising and allocates no wrapper; the session is left as it was, except
    that the alpha-blend flag of the base layer is set when one of the curves
    is on [plasma_layer.opacity]. *)
Theorem layer_animations_without_controller (bo : bpy.Object) (bm : bpy.Material)
    (tex_slot : bpy.TextureSlot) (texture : bpy.Texture) (idx : nat)
    (hsgmat base_layer : Key) (s : Session) (loc : Location) (l : plLayerInterface) :
  bpy.texture tex_slot = Some texture ->
  heap s !! base_layer = Some (loc, OLayer l) ->
  let fcurves := gathered_fcurves bm texture idx in
  fcurves <> [] ->
  opacity_controller fcurves = None ->
  transform_controller tex_slot fcurves = None ->
  _export_layer_animations bo bm tex_slot idx hsgmat base_layer s
  = (match opacity_fcurve fcurves with
     | Some _ =>
         with_heap
           (<[base_layer := (loc, OLayer (on_state (or_blendFlags kBlendAlpha) l))]>
              (heap s)) s
     | None => s
     end, inr base_layer) /\
  length (heap (_export_layer_animations bo bm tex_slot idx hsgmat base_layer s).1)
  = length (heap s).
Proof.
  intros Htex Hl fcurves Hne Hop Htr.
  assert (_export_layer_animations bo bm tex_slot idx hsgmat base_layer s
          = (match opacity_fcurve fcurves with
             | Some _ =>
                 with_heap
                   (<[base_layer :=
                        (loc, OLayer (on_state (or_blendFlags kBlendAlpha) l))]>
                      (heap s)) s
             | None => s
             end, inr base_layer)) as Hrun.
  { unfold _export_layer_animations. subst fcurves. unfold gathered_fcurves in *.
    destruct (harvest_fcurves (bpy.mat_animation_data bm) _) as [mat_action mat_curves].
    rewrite Htex. simpl deref. rewrite bind_ret.
    destruct (harvest_fcurves (bpy.tex_animation_data texture) None)
      as [tex_action tex_curves].
    simpl in *. destruct (mat_curves ++ tex_curves) as [|c0 rest] eqn:Hcurves; [done|].
    unfold opacity_controller, opacity_fcurve, transform_controller in *.
    unfold _export_layer_opacity_animation, _export_layer_transform_animation.
    destruct (list_find _ (c0 :: rest)) as [[i c]|]; simpl in *.
    - erewrite bind_run.
      2:{ erewrite bind_run; [|by apply update_layer_run]. reflexivity. }
      rewrite Hop. simpl. rewrite !bind_ret. rewrite Htr. simpl.
      by rewrite !bind_ret.
    - rewrite !bind_ret. simpl. rewrite !bind_ret. rewrite Htr. simpl.
      by rewrite !bind_ret. }
  split; [done|]. rewrite Hrun. simpl.
  destruct (opacity_fcurve fcurves); [|done]. simpl. by rewrite length_insert.
Qed.

End NoController.

Section Finalize.
Context {hs : PyHSPlasma} {co : Collaborators} {sc : Scene}.

(** ** The loop over the consuming layers *)

Lemma set_texture_set_texture v w l : set_texture v (set_texture w l) = set_texture v l.
Proof. done. Qed.

(** One round of the loop: a bitmap is allocated when the page has none, and
    the layer is pointed at the bitmap of its page. *)
Lemma finalize_layer_inr blank data compression pages layer s s' pages' :
  finalize_layer blank data compression pages layer s = (s', inr pages') ->
  exists loc l km,
    heap s !! layer = Some (loc, OLayer l) /\
    pages' !! get_textures_page layer = Some km /\
    match pages !! get_textures_page layer with
    | Some km0 =>
        km = km0 /\ pages' = pages /\
        heap s' = <[layer := (loc, OLayer (set_texture (Some km) l))]> (heap s)
    | None =>
        km = length (heap s) /\ pages' = <[get_textures_page layer := km]> pages /\
        heap s' = <[layer := (loc, OLayer (set_texture (Some km) l))]>
                    (heap s ++ [(get_textures_page layer,
                                 OMipmap (store_in_mipmap blank data compression))])
    end.
Proof.
  unfold finalize_layer. intros Hrun.
  apply bind_inr in Hrun as (r & s1 & Hr & Hrun).
  apply bind_inr in Hrun as ([] & s2 & Hu & Hret).
  injection Hret as <- <-.
  apply update_layer_inr in Hu as (loc & l & Hl & ->).
  destruct (pages !! get_textures_page layer) as [km0|] eqn:Hp.
  - injection Hr as <- <-. simpl in *. by exists loc, l, km0.
  - apply bind_inr in Hr as (k & s3 & Hadd & Hret).
    injection Hadd as <- <-. injection Hret as <- <-. simpl in *.
    assert (layer < length (heap s))%nat as Hlt.
    { apply lookup_lt_Some in Hl as Hlt. rewrite length_app in Hlt. simpl in Hlt.
      destruct (decide (layer = length (heap s))) as [->|]; [|lia].
      by rewrite list_lookup_middle in Hl. }
    rewrite lookup_app_l in Hl by done.
    exists loc, l, (length (heap s)). by rewrite lookup_insert_eq.
Qed.

Lemma finalize_layers_inr blank data compression layers :
  forall pages s s' pages',
  finalize_layers blank data compression pages layers s = (s', inr pages') ->
  (forall page km, pages !! page = Some km ->
     mipmap_at s km = Some (page, store_in_mipmap blank data compression)) ->
  (length (heap s) <= length (heap s'))%nat /\
  pages ⊆ pages' /\
  (forall page km, pages' !! page = Some km ->
     mipmap_at s' km = Some (page, store_in_mipmap blank data compression)) /\
  (forall page km, pages' !! page = Some km ->
     pages !! page = Some km \/ (length (heap s) <= km)%nat) /\
  (forall k c, heap s !! k = Some c -> k ∉ layers -> heap s' !! k = Some c) /\
  (forall k, k ∈ layers ->
     exists loc l km,
       heap s !! k = Some (loc, OLayer l) /\
       heap s' !! k = Some (loc, OLayer (set_texture (Some km) l)) /\
       pages' !! get_textures_page k = Some km).
Proof.
  induction layers as [|layer layers IH]; intros pages s s' pages' Hrun Hpg.
  - injection Hrun as <- <-. split_and!; try done; [by left|].
    intros k Hk. by apply elem_of_nil in Hk.
  - simpl in Hrun. apply bind_inr in Hrun as (pages1 & s1 & Hstep & Hrun).
    apply finalize_layer_inr in Hstep as (loc & l & km & Hl & Hkm & Hstep).
    assert (Hlt : (layer < length (heap s))%nat) by by eapply lookup_lt_Some.
    (* the state after the round *)
    assert (Hs1 : (length (heap s) <= length (heap s1))%nat /\
                  pages ⊆ pages1 /\
                  (forall page km, pages1 !! page = Some km ->
                     mipmap_at s1 km
                     = Some (page, store_in_mipmap blank data compression)) /\
                  (forall k c, heap s !! k = Some c -> k <> layer ->
                     heap s1 !! k = Some c) /\
                  heap s1 !! layer = Some (loc, OLayer (set_texture (Some km) l))).
    { destruct (pages !! get_textures_page layer) as [km0|] eqn:Hp.
      - destruct Hstep as (-> & -> & Hh). rewrite Hh. split_and!.
        + by rewrite length_insert.
        + done.
        + intros page km Hpage. specialize (Hpg _ _ Hpage).
          unfold mipmap_at in *. rewrite Hh.
          destruct (decide (km = layer)) as [->|Hne].
          * by rewrite Hl in Hpg.
          * by rewrite list_lookup_insert_ne.
        + intros k c Hk Hne. by rewrite list_lookup_insert_ne.
        + by apply list_lookup_insert_eq.
      - destruct Hstep as (-> & -> & Hh). rewrite Hh. split_and!.
        + rewrite length_insert, length_app. lia.
        + by apply insert_subseteq.
        + intros page km Hpage. unfold mipmap_at. rewrite Hh.
          rewrite list_lookup_insert_ne.
          2:{ destruct (decide (page = get_textures_page layer)) as [->|Hne].
              - rewrite lookup_insert_eq in Hpage. injection Hpage as <-. lia.
              - rewrite lookup_insert_ne in Hpage by done.
                specialize (Hpg _ _ Hpage). unfold mipmap_at in Hpg.
                intros ->. by rewrite Hl in Hpg. }
          destruct (decide (page = get_textures_page layer)) as [->|Hne].
          * rewrite lookup_insert_eq in Hpage. injection Hpage as <-.
            by rewrite list_lookup_middle.
          * rewrite lookup_insert_ne in Hpage by done.
            specialize (Hpg _ _ Hpage). unfold mipmap_at in Hpg.
            rewrite lookup_app_l; [done|].
            destruct (heap s !! km) eqn:Hkm'; [|done]. by eapply lookup_lt_Some.
        + intros k c Hk Hne. rewrite list_lookup_insert_ne by done.
          rewrite lookup_app_l; [done|]. by eapply lookup_lt_Some.
        + apply list_lookup_insert_eq. rewrite length_app. lia. }
    destruct Hs1 as (Hlen1 & Hsub1 & Hpg1 & Hframe1 & Hl1).
    destruct (IH _ _ _ _ Hrun Hpg1) as (Hlen & Hsub & Hpg' & Hnew & Hframe & Hlayers).
    split_and!.
    + lia.
    + by etrans.
    + done.
    + intros page km' Hpage. destruct (Hnew _ _ Hpage) as [Hold|Hge]; [|right; lia].
      destruct (pages !! get_textures_page layer) as [km0|] eqn:Hp.
      * destruct Hstep as (_ & -> & _). by left.
      * destruct Hstep as (-> & -> & _).
        destruct (decide (page = get_textures_page layer)) as [->|Hne].
        -- rewrite lookup_insert_eq in Hold. injection Hold as <-. by right.
        -- rewrite lookup_insert_ne in Hold by done. by left.
    + intros k c Hk Hnin. apply not_elem_of_cons in Hnin as [Hne Hnin]. auto.
    + intros k Hk. destruct (decide (k ∈ layers)) as [Hin|Hnin].
      * destruct (Hlayers _ Hin) as (loc' & l' & km' & Hk1 & Hk' & Hpk).
        destruct (decide (k = layer)) as [->|Hne].
        -- rewrite Hl1 in Hk1. injection Hk1 as <- <-.
           exists loc, l, km'. by rewrite set_texture_set_texture in Hk'.
        -- assert (heap s !! k = Some (loc', OLayer l')) as Hk0.
           { destruct (heap s !! k) as [c|] eqn:Hsk.
             - rewrite (Hframe1 _ _ Hsk Hne) in Hk1. by rewrite <- Hk1.
             - destruct (pages !! get_textures_page layer) as [km0|] eqn:Hp.
               + destruct Hstep as (_ & _ & Hh). rewrite Hh in Hk1.
                 rewrite list_lookup_insert_ne in Hk1 by done. congruence.
               + destruct Hstep as (-> & _ & Hh). rewrite Hh in Hk1.
                 rewrite list_lookup_insert_ne in Hk1 by done.
                 apply lookup_ge_None in Hsk.
                 destruct (decide (k = length (heap s))) as [->|Hne'].
                 * by rewrite list_lookup_middle in Hk1.
                 * apply lookup_lt_Some in Hk1. rewrite length_app in Hk1.
                   simpl in Hk1. lia. }
           exists loc', l', km'. done.
      * apply elem_of_cons in Hk as [->|Hk]; [|done].
        exists loc, l, km. split_and!; [done|by apply Hframe|].
        by eapply lookup_weaken.
Qed.

(** ** One entry of the pending table *)

Lemma finalize_entry_inr key layers s s' :
  finalize_entry key layers s = (s', inr tt) ->
  exists im name,
    image key = Some im /\ _Texture_str key = inr name /\
    let eW := ensure_power_of_two (bpy.size im).1 in
    let eH := ensure_power_of_two (bpy.size im).2 in
    let n := if mipmap key then Z.max (Z.log2 (Z.max eW eH) + 1 - 2) 2 else 1 in
    let compression := if mipmap key then kDirectXCompression else kUncompressed in
    (mipmap key = true -> 0 < Z.max eW eH) /\
    exists pages,
      finalize_layers
        {| bname := name; bwidth := eW; bheight := eH; numLevels := n;
           compType := compression; format := kRGB8888;
           dxtLevel := if use_alpha key || calc_alpha key then kDXT5 else kDXT1;
           levels := [] |}
        (map (fun i => get_level_data im eW eH (mipmap key) i (calc_alpha key)
                         (compression =? kUncompressed))
             (seq 0 (Z.to_nat n)))
        compression ∅ layers s = (s', inr pages).
Proof.
  unfold finalize_entry. intros Hrun.
  apply bind_inr in Hrun as (name & s1 & Hname & Hrun).
  injection Hname as <- Hname.
  apply bind_inr in Hrun as (im & s2 & Him & Hrun).
  destruct (image key) as [im'|] eqn:Hkey; [|discriminate].
  injection Him as <- ->.
  destruct (bpy.size im) as [oW oH] eqn:Hsize.
  apply bind_inr in Hrun as (n0 & s3 & Hraw & Hrun).
  injection Hraw as <- Hraw.
  apply bind_inr in Hrun as (pages & s4 & Hloop & Hret).
  injection Hret as <-.
  exists im, name. split; [done|]. split; [done|]. rewrite Hsize. simpl.
  unfold raw_numLevels, clamp_numLevels in *.
  destruct (mipmap key) eqn:Hmip.
  - destruct (Z.leb_spec (Z.max (ensure_power_of_two oW) (ensure_power_of_two oH)) 0);
      [discriminate|].
    injection Hraw as <-. split; [done|]. by exists pages.
  - injection Hraw as <-. split; [done|]. by exists pages.
Qed.








End Finalize.

(** ** One bitmap per page *)

Section FinalizePages.
Context {hs : PyHSPlasma} {co : Collaborators} {sc : Scene}.


End FinalizePages.

(** ** The number of mip levels *)

Section FinalizeLevels.
Context {hs : PyHSPlasma} {co : Collaborators} {sc : Scene}.

(** C4. Let [finalize] get through the entry of the identity [key],
    whose image is [im], and let [layer] be one of its consumers. With [eW]
    and [eH] the dimensions of the image adjusted to powers of two, the raw
    level count is [floor (log2 (max eW eH)) + 1] when the identity asks for
    mipmaps and [1] otherwise; the workaround turns the former into
    [max (raw - 2) 2]; and the bitmap the layer references afterwards was
    stored from a blank mipmap with that many levels and from that many
    lists of level data. For adjusted dimensions of 256 by 256 with mipmaps
    the raw count is 9 and the count after the workaround is 7. *)
Theorem finalize_level_count (key : _Texture) (layers : list Key) (layer : Key)
    (s s' : Session) (im : bpy.Image) :
  image key = Some im ->
  layer ∈ layers ->
  finalize_entry key layers s = (s', inr tt) ->
  let eW := ensure_power_of_two (bpy.size im).1 in
  let eH := ensure_power_of_two (bpy.size im).2 in
  let raw := if mipmap key then Z.log2 (Z.max eW eH) + 1 else 1 in
  let n := if mipmap key then Z.max (Z.log2 (Z.max eW eH) + 1 - 2) 2 else 1 in
  let compression := if mipmap key then kDirectXCompression else kUncompressed in
  raw_numLevels key eW eH = inr raw /\
  clamp_numLevels key raw = n /\
  (exists name km,
     _Texture_str key = inr name /\
     texture_of s' layer = Some km /\
     mipmap_at s' km
     = Some (get_textures_page layer,
             store_in_mipmap
               {| bname := name; bwidth := eW; bheight := eH; numLevels := n;
                  compType := compression; format := kRGB8888;
                  dxtLevel := if use_alpha key || calc_alpha key then kDXT5 else kDXT1;
                  levels := [] |}
               (map (fun i => get_level_data im eW eH (mipmap key) i (calc_alpha key)
                                (compression =? kUncompressed))
                    (seq 0 (Z.to_nat n)))
               compression)) /\
  (mipmap key = true -> eW = 256 -> eH = 256 -> raw = 9 /\ n = 7).
Proof.
  intros Him Hin Hrun eW eH raw n compression.
  apply finalize_entry_inr in Hrun as (im' & name & Him' & Hname & Hrun).
  rewrite Him in Him'. injection Him' as <-.
  destruct Hrun as (Hpos & pages & Hloop).
  apply finalize_layers_inr in Hloop as (_ & _ & Hpg & _ & _ & Hlayers);
    [|intros page km Hpage; by rewrite lookup_empty in Hpage].
  split_and!.
  - unfold raw_numLevels, raw. destruct (mipmap key); [|done].
    specialize (Hpos eq_refl). fold eW eH in Hpos.
    by destruct (Z.leb_spec (Z.max eW eH) 0); [lia|].
  - unfold clamp_numLevels, raw, n. by destruct (mipmap key).
  - destruct (Hlayers _ Hin) as (loc & l & km & _ & Hl & Hpage).
    exists name, km. split_and!; [done| |by apply Hpg].
    unfold texture_of. by rewrite Hl.
  - intros Hmip HW HH. unfold raw, n. rewrite Hmip, HW, HH. by vm_compute.
Qed.

End FinalizeLevels.

(** ** Opacity of a plain slot *)

Section Opacity.
Context {hs : PyHSPlasma} {co : Collaborators} {sc : Scene}.

Lemma Qltb_lt (x y : Q) : Qltb x y = true <-> (x < y)%Q.
Proof.
  unfold Qltb. rewrite negb_true_iff, <- not_true_iff_false, Qle_bool_iff.
  split; [apply Qnot_le_lt | apply Qlt_not_le].
Qed.

Lemma blendFlags_propagated bm l :
  blendFlags (state (propagated bm l)) = blendFlags (state l).
Proof. unfold propagated. by destruct (bpy.use_mist bm). Qed.

Lemma blendFlags_slot_layer bo bm slot : blendFlags (state (slot_layer bo bm slot)) = 0.
Proof.
  unfold slot_layer. destruct (list_find _ _) as [[i ?]|];
    cbn [set_transform set_UVWSrc state]; by rewrite blendFlags_propagated.
Qed.

Lemma opacity_layer_props_applied props l :
  opacity (layer_props_applied props l) = (bpy.opacity props / 100)%Q.
Proof.
  unfold layer_props_applied. by destruct (Qltb _ _), (bpy.alpha_halo props).
Qed.

Lemma blendFlags_layer_props_applied props l :
  blendFlags (state (layer_props_applied props l))
  = Z.lor (Z.lor (blendFlags (state l))
                 (if Qltb (bpy.opacity props) 100 then kBlendAlpha else 0))
          (if bpy.alpha_halo props then kBlendAlphaTestHigh else 0).
Proof.
  unfold layer_props_applied.
  destruct (Qltb _ _), (bpy.alpha_halo props); simpl; by rewrite ?Z.lor_0_r.
Qed.

Lemma blendFlags_standard_flags slot l :
  blendFlags (state l) = 0 ->
  blendFlags (state (standard_flags slot l))
  = match bpy.blend_type slot with
    | bpy.ADD => kBlendAddColorTimesAlpha
    | bpy.MULTIPLY => kBlendMult
    | _ => 0
    end.
Proof. intros Hl. unfold standard_flags. destruct (bpy.blend_type slot); simpl; by rewrite Hl. Qed.

(** The plain slot up to the call of the texture type exporter. *)
Lemma plain_slot_from_run bo bm hsgmat slot rest idx texture s :
  bpy.use_stencil slot = false ->
  bpy.texture slot = Some texture ->
  _export_texture_slot_from bo bm hsgmat (slot :: rest) idx s
  = (dispatch_tex_exporter (bpy.type texture) bo hsgmat (length (heap s)) slot ;;
     layer' <- _export_layer_animations bo bm slot idx hsgmat (length (heap s)) ;;
     update_material hsgmat (addLayer layer') ;;
     ret 1%nat)
    (with_heap
       (heap s ++
        [(page_of (bpy.ob_name bo),
          OLayer (layer_props_applied (bpy.plasma_layer texture)
                    (standard_flags slot (slot_layer bo bm slot))))]) s).
Proof.
  intros Hst Htex. cbn [_export_texture_slot_from].
  rewrite slot_prologue_run. rewrite Hst.
  rewrite standard_flags_run by done.
  rewrite Htex. simpl deref. rewrite bind_ret.
  by rewrite (layer_props_snoc_run _ _ _ _ []) by done.
Qed.

Lemma plain_slot_run bo bm hsgmat slots idx slot texture s :
  slots !! idx = Some slot ->
  bpy.use_stencil slot = false ->
  bpy.texture slot = Some texture ->
  _export_texture_slot bo bm hsgmat slots idx s
  = (dispatch_tex_exporter (bpy.type texture) bo hsgmat (length (heap s)) slot ;;
     layer' <- _export_layer_animations bo bm slot idx hsgmat (length (heap s)) ;;
     update_material hsgmat (addLayer layer') ;;
     ret 1%nat)
    (with_heap
       (heap s ++
        [(page_of (bpy.ob_name bo),
          OLayer (layer_props_applied (bpy.plasma_layer texture)
                    (standard_flags slot (slot_layer bo bm slot))))]) s).
Proof.
  intros Hslot Hst Htex. unfold _export_texture_slot.
  rewrite (drop_S _ _ _ Hslot). by apply plain_slot_from_run.
Qed.

(** What the rest of the slot does to the layer of the slot. *)
Lemma slot_epilogue_edits (ty : bpy.TextureType) bo bm hsgmat slot idx
    (n : nat) h loc l s s' r :
  (dispatch_tex_exporter ty bo hsgmat (length h) slot ;;
   layer' <- _export_layer_animations bo bm slot idx hsgmat (length h) ;;
   update_material hsgmat (addLayer layer') ;;
   ret n) (with_heap (h ++ [(loc, OLayer l)]) s) = (s', inr r) ->
  r = n /\
  exists l', heap s' !! length h = Some (loc, OLayer l') /\ edited l l'.
Proof.
  intros Hrun.
  apply bind_inr in Hrun as ([] & s1 & Hd & Hrun).
  apply bind_inr in Hrun as (k & s2 & Ha & Hrun).
  apply bind_inr in Hrun as ([] & s3 & Hu & Hret). injection Hret as <- <-.
  split; [done|].
  pose proof (hoare_dispatch_tex_exporter _ _ _ _ _ _ _ _ _ (Inv_refl _ _) Hd) as HI1.
  destruct (hoare_export_layer_animations _ _ _ _ _ _ _ _ _ _ HI1 Ha) as [_ [_ HI2]].
  assert (heap (with_heap (h ++ [(loc, OLayer l)]) s) !! length h
          = Some (loc, OLayer l)) as Hl by (simpl; by apply list_lookup_middle).
  specialize (HI2 _ _ _ Hl). cbv beta iota in HI2.
  rewrite decide_True in HI2 by done. destruct HI2 as (l' & Hl' & He).
  apply update_material_inr in Hu as (mloc & m & Hm & ->). simpl.
  exists l'. split; [|done].
  rewrite list_lookup_insert_ne; [done|]. intros Heq. rewrite Heq in Hm. congruence.
Qed.

(** C8. For a slot that is no stencil, the per-slot exporter reaches
    the call of the texture type exporter with a new layer [l] whose opacity
    is the opacity override divided by 100 (between 0 and 1 for an override
    between 0 and 100) and whose blend flags are those of the blend type,
    [kBlendAlpha] exactly when the override is below 100, and
    [kBlendAlphaTestHigh] exactly when the texture is an alpha halo. So an
    alpha halo at opacity 100 has the alpha-test flag and no alpha-blend
    flag from the opacity, and an override of 50 with blend type [MIX] and
    no halo gives opacity 1/2 and the blend flags [kBlendAlpha]. When the
    exporter returns, it returns 1, and the layer still has that opacity;
    the texture type exporter and the animation exporter only add blend
    flags. *)
Theorem plain_slot_opacity (bo : bpy.Object) (bm : bpy.Material) (hsgmat : Key)
    (slots : list bpy.TextureSlot) (idx : nat) (slot : bpy.TextureSlot)
    (texture : bpy.Texture) (s : Session) :
  slots !! idx = Some slot ->
  bpy.use_stencil slot = false ->
  bpy.texture slot = Some texture ->
  let props := bpy.plasma_layer texture in
  let layer := length (heap s) in
  let page := page_of (bpy.ob_name bo) in
  let blend := match bpy.blend_type slot with
               | bpy.ADD => kBlendAddColorTimesAlpha
               | bpy.MULTIPLY => kBlendMult
               | _ => 0
               end in
  exists l : plLayerInterface,
    _export_texture_slot bo bm hsgmat slots idx s
    = (dispatch_tex_exporter (bpy.type texture) bo hsgmat layer slot ;;
       layer' <- _export_layer_animations bo bm slot idx hsgmat layer ;;
       update_material hsgmat (addLayer layer') ;;
       ret 1%nat)
      (with_heap (heap s ++ [(page, OLayer l)]) s) /\
    opacity l = (bpy.opacity props / 100)%Q /\
    ((0 <= bpy.opacity props)%Q -> (bpy.opacity props <= 100)%Q ->
     (0 <= opacity l)%Q /\ (opacity l <= 1)%Q) /\
    blendFlags (state l)
    = Z.lor (Z.lor blend (if Qltb (bpy.opacity props) 100 then kBlendAlpha else 0))
            (if bpy.alpha_halo props then kBlendAlphaTestHigh else 0) /\
    (Qltb (bpy.opacity props) 100 = true <-> (bpy.opacity props < 100)%Q) /\
    ((bpy.opacity props == 100)%Q -> bpy.alpha_halo props = true ->
     blendFlags (state l) = Z.lor blend kBlendAlphaTestHigh) /\
    ((bpy.opacity props == 50)%Q -> blend = 0 -> bpy.alpha_halo props = false ->
     (opacity l == 1 # 2)%Q /\ blendFlags (state l) = kBlendAlpha) /\
    (forall s' n,
       _export_texture_slot bo bm hsgmat slots idx s = (s', inr n) ->
       n = 1%nat /\
       exists l', heap s' !! layer = Some (page, OLayer l') /\
                  opacity l' = opacity l /\
                  exists extra,
                    blendFlags (state l') = Z.lor (blendFlags (state l)) extra).
Proof.
  intros Hslot Hst Htex props layer page blend. subst props layer page.
  pose proof (plain_slot_run bo bm hsgmat _ _ _ _ s Hslot Hst Htex) as Hrun.
  eexists. split; [exact Hrun|].
  assert (Hbf : blendFlags (state (layer_props_applied (bpy.plasma_layer texture)
                   (standard_flags slot (slot_layer bo bm slot))))
                = Z.lor (Z.lor blend
                           (if Qltb (bpy.opacity (bpy.plasma_layer texture)) 100
                            then kBlendAlpha else 0))
                        (if bpy.alpha_halo (bpy.plasma_layer texture)
                         then kBlendAlphaTestHigh else 0)).
  { rewrite blendFlags_layer_props_applied, blendFlags_standard_flags; [done|].
    apply blendFlags_slot_layer. }
  rewrite opacity_layer_props_applied. split_and!.
  - done.
  - intros H0 H100. split.
    + apply Qle_shift_div_l; [done|]. by rewrite Qmult_0_l.
    + apply Qle_shift_div_r; [done|]. by rewrite Qmult_1_l.
  - done.
  - apply Qltb_lt.
  - intros H100 Hhalo. rewrite Hbf, Hhalo.
    destruct (Qltb _ _) eqn:Hlt; [|by rewrite Z.lor_0_r].
    apply Qltb_lt in Hlt. rewrite H100 in Hlt. by apply Qlt_irrefl in Hlt.
  - intros H50 Hblend Hhalo. split.
    + by rewrite H50.
    + rewrite Hbf, Hhalo, Hblend.
      destruct (Qltb _ _) eqn:Hlt; [by rewrite Z.lor_0_r|].
      assert (Qltb (bpy.opacity (bpy.plasma_layer texture)) 100 = true) as Hlt'; [|congruence].
      apply Qltb_lt. by rewrite H50.
  - intros s' n Hret. rewrite Hrun in Hret.
    apply slot_epilogue_edits in Hret as (-> & l' & Hl' & He).
    split; [done|]. exists l'. split; [done|].
    destruct He as (_ & _ & Hop & _ & Hextra).
    by rewrite Hop, opacity_layer_props_applied.
Qed.

End Opacity.

Section Stencil.
Context {hs : PyHSPlasma} {co : Collaborators} {sc : Scene}.

(** ** The end of a slot: texture type exporter, animations, [addLayer] *)

Lemma slot_tail_inv (ty : bpy.TextureType) bo bm hsgmat slot idx (n : nat)
    L s s' r mloc m :
  heap s !! hsgmat = Some (mloc, OMaterial m) ->
  (dispatch_tex_exporter ty bo hsgmat L slot ;;
   layer' <- _export_layer_animations bo bm slot idx hsgmat L ;;
   update_material hsgmat (addLayer layer') ;;
   ret n) s = (s', inr r) ->
  r = n /\ (length (heap s) <= length (heap s'))%nat /\
  exists k,
    (k = L \/ (length (heap s) <= k)%nat) /\
    heap s' !! hsgmat = Some (mloc, OMaterial (addLayer k m)) /\
    forall j loc l, heap s !! j = Some (loc, OLayer l) ->
      if decide (j = L)
      then exists l', heap s' !! j = Some (loc, OLayer l') /\ edited l l'
      else heap s' !! j = Some (loc, OLayer l).
Proof.
  intros Hm Hrun.
  apply bind_inr in Hrun as ([] & s1 & Hd & Hrun).
  apply bind_inr in Hrun as (k & s2 & Ha & Hrun).
  apply bind_inr in Hrun as ([] & s3 & Hu & Hret). injection Hret as <- <-.
  pose proof (hoare_dispatch_tex_exporter _ _ _ _ _ _ _ _ _ (Inv_refl _ _) Hd) as HI1.
  destruct (hoare_export_layer_animations _ _ _ _ _ _ _ _ _ _ HI1 Ha) as [Hk [Hlen HI2]].
  pose proof (HI2 _ _ _ Hm) as Hm2. cbv beta iota in Hm2.
  rewrite (update_material_run _ _ _ _ _ Hm2) in Hu. injection Hu as <-.
  split; [done|]. split; [simpl; by rewrite length_insert|].
  exists k. split_and!; [done| |].
  - simpl. apply list_lookup_insert_eq. by eapply lookup_lt_Some.
  - intros j loc l Hj. specialize (HI2 _ _ _ Hj). cbv beta iota in HI2. simpl.
    assert (hsgmat <> j) by (intros ->; congruence).
    destruct (decide (j = L)).
    + destruct HI2 as (l' & Hl' & He). exists l'. by rewrite list_lookup_insert_ne.
    + by rewrite list_lookup_insert_ne.
Qed.

(** ** A plain slot adds one layer *)

Lemma slot_texture_inr bo bm hsgmat slot rest idx s s' n :
  _export_texture_slot_from bo bm hsgmat (slot :: rest) idx s = (s', inr n) ->
  exists texture, bpy.texture slot = Some texture.
Proof.
  intros Hrun. destruct (bpy.texture slot) as [texture|] eqn:Htex; [eauto|].
  exfalso. cbn [_export_texture_slot_from] in Hrun.
  rewrite slot_prologue_run in Hrun.
  apply bind_inr in Hrun as (n0 & s1 & Hinner & Htail).
  rewrite Htex in Htail. discriminate.
Qed.

Lemma plain_slot_inv bo bm hsgmat slot rest idx s s' n mloc m :
  bpy.use_stencil slot = false ->
  heap s !! hsgmat = Some (mloc, OMaterial m) ->
  _export_texture_slot_from bo bm hsgmat (slot :: rest) idx s = (s', inr n) ->
  n = 1%nat /\ (length (heap s) < length (heap s'))%nat /\
  exists k, (length (heap s) <= k)%nat /\
            heap s' !! hsgmat = Some (mloc, OMaterial (addLayer k m)).
Proof.
  intros Hst Hm Hrun.
  destruct (slot_texture_inr _ _ _ _ _ _ _ _ _ Hrun) as [texture Htex].
  rewrite (plain_slot_from_run _ _ _ _ _ _ _ _ Hst Htex) in Hrun.
  pose proof (lookup_lt_Some _ _ _ Hm) as Hlt.
  eapply slot_tail_inv in Hrun as (-> & Hlen & k & Hk & Hm' & _);
    [|simpl; by rewrite lookup_app_l].
  simpl in Hlen, Hk. rewrite length_app in Hlen, Hk. simpl in Hlen, Hk.
  split; [done|]. split; [lia|]. exists k. split; [lia|done].
Qed.

(** ** A stencil slot *)

Lemma stencil_slot_inv bo bm hsgmat slot rest idx s s' n mloc m :
  slot_grows bo bm hsgmat rest ->
  bpy.use_stencil slot = true ->
  heap s !! hsgmat = Some (mloc, OMaterial m) ->
  _export_texture_slot_from bo bm hsgmat (slot :: rest) idx s = (s', inr n) ->
  n = 2%nat /\
  exists texture, bpy.texture slot = Some texture /\
  exists s2 n' mid base_k top_k bloc prev m',
    _export_texture_slot_from bo bm hsgmat rest (S idx)
      (with_heap
         (<[hsgmat := (mloc, OMaterial
              (set_compFlags (Z.lor (compFlags m) kCompNeedsBlendChannel) m))]>
            (heap s)
          ++ [(page_of (bpy.ob_name bo),
               OLayer (stencil_flags texture (slot_layer bo bm slot)))]) s)
    = (s2, inr n') /\
    mat_layers s2 hsgmat = layers m ++ mid ++ [base_k] /\
    heap s2 !! base_k = Some (bloc, OLayer prev) /\
    heap s' !! hsgmat = Some (mloc, OMaterial m') /\
    layers m' = layers m ++ mid ++ [base_k; top_k] /\
    heap s' !! base_k = Some (bloc, OLayer (flagged prev)) /\
    (length (heap s) < base_k)%nat /\
    (top_k = length (heap s) \/ (length (heap s2) <= top_k)%nat) /\
    Forall (fun k => (length (heap s) <= k)%nat) mid /\
    (length (heap s) < length (heap s2))%nat /\
    (length (heap s2) <= length (heap s'))%nat /\
    match rest with
    | slot' :: _ => bpy.use_stencil slot' = false -> mid = []
    | [] => True
    end.
Proof.
  intros HN Hst Hm Hrun.
  destruct (slot_texture_inr _ _ _ _ _ _ _ _ _ Hrun) as [texture Htex].
  pose proof (lookup_lt_Some _ _ _ Hm) as Hlt.
  cbn [_export_texture_slot_from] in Hrun.
  rewrite slot_prologue_run in Hrun. rewrite Hst in Hrun.
  apply bind_inr in Hrun as (n0 & s3 & Hinner & Htail).
  erewrite stencil_setup_run in Hinner; [|done|exact Hm|exact Htex].
  destruct rest as [|slot' rest]; [discriminate|].
  apply bind_inr in Hinner as (n' & s2 & Hnest & Hinner).
  (* the next slot *)
  edestruct HN as (Hlen2 & m2 & added & Hm2 & Hlay2 & Hne & Hall & Hone);
    [|exact Hnest|].
  { simpl. rewrite lookup_app_l by by rewrite length_insert.
    by apply list_lookup_insert_eq. }
  simpl in Hlay2, Hlen2, Hall.
  rewrite length_app, length_insert in Hlen2, Hall. simpl in Hlen2, Hall.
  destruct added as [|base_k mid _] using rev_ind; [done|]. clear Hne.
  apply Forall_app in Hall as [Hmid Hbase]. rewrite Forall_singleton in Hbase.
  (* flagging the layer exported last *)
  apply bind_inr in Hinner as (m2' & s2' & Hg & Hinner).
  apply get_material_inr in Hg as (-> & loc' & Hm2'). rewrite Hm2 in Hm2'.
  injection Hm2' as <- <-.
  rewrite Hlay2, app_assoc, last_snoc in Hinner.
  apply bind_inr in Hinner as (pk & sx & Hret & Hinner). injection Hret as <- <-.
  apply bind_inr in Hinner as ([] & s4 & Hu & Hinner).
  apply update_layer_inr in Hu as (bloc & prev & Hprev & ->).
  pose proof (lookup_lt_Some _ _ _ Hprev) as Hblt.
  apply bind_inr in Hinner as (prev' & s5 & Hgl & Hinner).
  apply get_layer_inr in Hgl as (-> & loc'' & Hgl). simpl in Hgl.
  rewrite list_lookup_insert_eq in Hgl by done. injection Hgl as <- <-.
  apply bind_inr in Hinner as ([] & s6 & Hw & Hret). injection Hret as <- <-.
  assert (Hs3 : s6 = with_heap (<[base_k := (bloc, OLayer (flagged prev))]> (heap s2)) s2).
  { unfold flagged. cbv zeta. unfold when in Hw.
    destruct (Z.land _ _ =? 0).
    - erewrite update_layer_run in Hw by (simpl; by apply list_lookup_insert_eq).
      injection Hw as <-. simpl. by rewrite list_insert_insert_eq.
    - by injection Hw as <-. }
  subst s6.
  (* the stencil's own texture and animations *)
  rewrite Htex in Htail. simpl deref in Htail. rewrite bind_ret in Htail.
  assert (exists lloc lx,
            heap s2 !! length (heap s) = Some (lloc, OLayer lx)) as (lloc & lx & HL).
  { pose proof Htail as H. apply bind_inr in H as (? & ? & Hu & _).
    apply update_layer_inr in Hu as (lloc & lx & HL & _). simpl in HL.
    rewrite list_lookup_insert_ne in HL by lia. eauto. }
  erewrite layer_props_at_run in Htail
    by (simpl; rewrite list_lookup_insert_ne by lia; exact HL).
  assert (hsgmat <> base_k) as Hnb by (intros ->; congruence).
  assert (hsgmat <> length (heap s)) as HnL by (intros ->; congruence).
  eapply slot_tail_inv in Htail as (-> & Hlen' & k & Hk & Hm' & Hframe).
  2:{ simpl. by rewrite !list_lookup_insert_ne by done. }
  simpl in Hlen', Hk. rewrite !length_insert in Hlen', Hk.
  split; [done|]. exists texture. split; [done|].
  exists s2, n', mid, base_k, k, bloc, prev, (addLayer k m2).
  split; [exact Hnest|].
  split; [unfold mat_layers; by rewrite Hm2, Hlay2, app_assoc|].
  split; [exact Hprev|]. split; [exact Hm'|].
  split; [simpl; by rewrite Hlay2, <- !app_assoc|].
  split.
  { specialize (Hframe base_k bloc (flagged prev)). simpl in Hframe.
    rewrite list_lookup_insert_ne in Hframe by lia.
    rewrite list_lookup_insert_eq in Hframe by done. specialize (Hframe eq_refl).
    by rewrite decide_False in Hframe by lia. }
  split; [lia|]. split; [exact Hk|].
  split; [eapply Forall_impl; [exact Hmid|]; simpl; lia|].
  split; [lia|]. split; [exact Hlen'|].
  intros Hplain. specialize (Hone Hplain). rewrite length_app in Hone.
  simpl in Hone. destruct mid; [done|simpl in Hone; lia].
Qed.

(** ** Every slot adds layers *)

Lemma slot_grows_all bo bm hsgmat rest : slot_grows bo bm hsgmat rest.
Proof.
  induction rest as [|slot rest IH]; intros idx s s' n mloc m Hm Hrun; [done|].
  destruct (bpy.use_stencil slot) eqn:Hst.
  - destruct (stencil_slot_inv _ _ _ _ _ _ _ _ _ _ _ IH Hst Hm Hrun)
      as (-> & texture & Htex & s2 & n' & mid & base_k & top_k & bloc & prev & m'
          & Hnest & Hl2 & Hprev & Hm' & Hl' & Hbase & Hlt & Htop & Hmid & Hlen2
          & Hlen & _).
    split; [lia|]. exists m', (mid ++ [base_k; top_k]). split_and!; try done.
    + by destruct mid.
    + apply Forall_app. split; [done|]. repeat constructor; lia.
  - destruct (plain_slot_inv _ _ _ _ _ _ _ _ _ _ _ Hst Hm Hrun)
      as (-> & Hlen & k & Hk & Hm').
    split; [done|]. exists (addLayer k m), [k]. split_and!; try done.
    by repeat constructor.
Qed.

End Stencil.

(** ** A stencil and the layer it binds to *)

Section StencilBinds.
Context {hs : PyHSPlasma} {co : Collaborators} {sc : Scene}.

(** C2. Let the per-slot exporter return on the stencil slot at index
    [i] of the slots of a material. Then it returns 2. Having set up the
    stencil's own layer (session [s1]), it first exports the slot at index
    [i + 1]; the layer [base_k] that is last in the material's layer list
    after that (session [s2]) is the base layer. In the end the layer list
    of the material is what it was, followed by the layers [mid] that the
    export of the next slot put before its own (none when the next slot is
    no stencil), the base layer, and last the stencil layer [top_k]: the
    layer of slot [i], or the animation layer that wraps it. The base layer
    ends with the misc flags it had or-ed with [kMiscBindNext] and
    [kMiscRestartPassHere], and its blend flags get [kBlendAlpha] exactly
    when they had no bit of [kBlendMask] when the stencil flagged it. *)
Theorem stencil_slot_binds_base (bo : bpy.Object) (bm : bpy.Material) (hsgmat : Key)
    (slots : list bpy.TextureSlot) (i : nat) (slot : bpy.TextureSlot)
    (s s' : Session) (n : nat) (mloc : Location) (m : hsGMaterial) :
  slots !! i = Some slot ->
  bpy.use_stencil slot = true ->
  heap s !! hsgmat = Some (mloc, OMaterial m) ->
  _export_texture_slot bo bm hsgmat slots i s = (s', inr n) ->
  n = 2%nat /\
  exists (texture : bpy.Texture) (s2 : Session) (n' : nat) (mid : list Key)
         (base_k top_k : Key) (bloc : Location) (prev base : plLayerInterface),
    bpy.texture slot = Some texture /\
    _export_texture_slot bo bm hsgmat slots (S i)
      (with_heap
         (<[hsgmat := (mloc, OMaterial
              (set_compFlags (Z.lor (compFlags m) kCompNeedsBlendChannel) m))]>
            (heap s)
          ++ [(page_of (bpy.ob_name bo),
               OLayer (stencil_flags texture (slot_layer bo bm slot)))]) s)
    = (s2, inr n') /\
    mat_layers s2 hsgmat = layers m ++ mid ++ [base_k] /\
    heap s2 !! base_k = Some (bloc, OLayer prev) /\
    mat_layers s' hsgmat = layers m ++ mid ++ [base_k; top_k] /\
    match slots !! S i with
    | Some slot' => bpy.use_stencil slot' = false -> mid = []
    | None => True
    end /\
    (length (heap s) < base_k)%nat /\
    (top_k = length (heap s) \/ (length (heap s2) <= top_k)%nat) /\
    heap s' !! base_k = Some (bloc, OLayer base) /\
    miscFlags (state base)
    = Z.lor (miscFlags (state prev)) (Z.lor kMiscBindNext kMiscRestartPassHere) /\
    blendFlags (state base)
    = if Z.land (blendFlags (state prev)) kBlendMask =? 0
      then Z.lor (blendFlags (state prev)) kBlendAlpha
      else blendFlags (state prev).
Proof.
  intros Hslot Hst Hm Hrun. unfold _export_texture_slot in *.
  rewrite (drop_S _ _ _ Hslot) in Hrun.
  destruct (stencil_slot_inv _ _ _ _ _ _ _ _ _ _ _ (slot_grows_all _ _ _ _) Hst Hm Hrun)
    as (-> & texture & Htex & s2 & n' & mid & base_k & top_k & bloc & prev & m'
        & Hnest & Hl2 & Hprev & Hm' & Hl' & Hbase & Hlt & Htop & _ & _ & _ & Hmid).
  split; [done|].
  exists texture, s2, n', mid, base_k, top_k, bloc, prev, (flagged prev).
  split; [done|]. split; [done|]. split; [done|]. split; [done|].
  split; [unfold mat_layers; by rewrite Hm'|].
  split.
  { destruct (slots !! S i) as [slot'|] eqn:Hnext; [|done].
    by rewrite (drop_S _ _ _ Hnext) in Hmid. }
  split; [done|]. split; [done|]. split; [done|].
  unfold flagged. cbv zeta.
  by destruct (Z.land _ _ =? 0).
Qed.

End StencilBinds.

(** * More of the converter: proofs *)

(** ** Exceptions a computation can raise *)

Section RaisesOnly.
Context (E : PyExc -> Prop).

Lemma raises_only_bind {A B} (m : M A) (g : A -> M B) :
  raises_only E m -> (forall a, raises_only E (g a)) -> raises_only E (bind m g).
Proof.
  intros Hm Hg s s' e Hrun.
  apply bind_inl in Hrun as [H1 | (a & s1 & H1 & H2)].
  - by eapply Hm.
  - by eapply Hg.
Qed.

Lemma raises_only_ret {A} (a : A) : raises_only E (ret a).
Proof. intros s s' e [=]. Qed.

Lemma raises_only_raise {A} e : E e -> raises_only E (@raise A e).
Proof. by intros He s s' e' [= _ <-]. Qed.

Lemma raises_only_gets {A} (g : Session -> A) : raises_only E (gets g).
Proof. intros s s' e [=]. Qed.

Lemma raises_only_modify (g : Session -> Session) : raises_only E (modify g).
Proof. intros s s' e [=]. Qed.

Lemma raises_only_when b (m : M unit) : raises_only E m -> raises_only E (when b m).
Proof. destruct b; simpl; [done|]. intros _. apply raises_only_ret. Qed.

Lemma raises_only_add_object loc o : raises_only E (add_object loc o).
Proof. intros s s' e [=]. Qed.

Lemma raises_only_find_key cls loc name : raises_only E (find_key cls loc name).
Proof. apply raises_only_gets. Qed.

Lemma raises_only_for_each {A} (xs : list A) (body : A -> M unit) :
  (forall x, raises_only E (body x)) -> raises_only E (for_each xs body).
Proof.
  intros Hb. induction xs as [|x xs IH]; simpl; [apply raises_only_ret|].
  apply raises_only_bind; auto.
Qed.

Context (HE : E AttributeError).

Lemma raises_only_deref {A} (o : option A) : raises_only E (deref o).
Proof. destruct o; [apply raises_only_ret | by apply raises_only_raise]. Qed.

Lemma raises_only_get_layer k : raises_only E (get_layer k).
Proof.
  intros s s' e. unfold get_layer.
  destruct (heap s !! k) as [[? []]|]; by intros [= _ <-].
Qed.

Lemma raises_only_update_layer k f : raises_only E (update_layer k f).
Proof.
  intros s s' e. unfold update_layer.
  destruct (heap s !! k) as [[? []]|]; by intros [= _ <-].
Qed.

Lemma raises_only_get_material k : raises_only E (get_material k).
Proof.
  intros s s' e. unfold get_material.
  destruct (heap s !! k) as [[? []]|]; by intros [= _ <-].
Qed.

Lemma raises_only_update_material k f : raises_only E (update_material k f).
Proof.
  intros s s' e. unfold update_material.
  destruct (heap s !! k) as [[? []]|]; by intros [= _ <-].
Qed.

Lemma raises_only_get_env k : raises_only E (get_env k).
Proof.
  intros s s' e. unfold get_env.
  destruct (heap s !! k) as [[? []]|]; by intros [= _ <-].
Qed.

Lemma raises_only_update_env k f : raises_only E (update_env k f).
Proof.
  intros s s' e. unfold update_env.
  destruct (heap s !! k) as [[? []]|]; by intros [= _ <-].
Qed.

End RaisesOnly.

(** Walk a computation to bound the exceptions it raises. *)
Ltac raises_tac :=
  repeat first
    [ assumption
    | match goal with
      | Hp : context [raises_only] |- _ => apply Hp
      end
    | apply raises_only_ret | apply raises_only_gets | apply raises_only_modify
    | apply raises_only_add_object | apply raises_only_find_key
    | apply raises_only_raise; done
    | apply raises_only_deref; done
    | apply raises_only_get_layer; done | apply raises_only_update_layer; done
    | apply raises_only_get_material; done | apply raises_only_update_material; done
    | apply raises_only_get_env; done | apply raises_only_update_env; done
    | apply raises_only_when
    | apply raises_only_bind; [|intros ?]
    | match goal with
      | |- raises_only _ (match ?x with _ => _ end) => destruct x
      end ].

(** ** Invariants of the session *)

Section Pres.
Context (I : Session -> Prop).

Lemma pres_bind {A B} (m : M A) (g : A -> M B) :
  pres I m -> (forall a, pres I (g a)) -> pres I (bind m g).
Proof.
  intros Hm Hg s s' [e|b] HI Hrun.
  - apply bind_inl in Hrun as [H1 | (a & s1 & H1 & H2)].
    + by eapply Hm.
    + eapply Hg; [|done]. by eapply Hm.
  - apply bind_inr in Hrun as (a & s1 & H1 & H2).
    eapply Hg; [|done]. by eapply Hm.
Qed.

Lemma pres_ret {A} (a : A) : pres I (ret a).
Proof. by intros s s' r HI [= <- _]. Qed.

Lemma pres_raise {A} e : pres I (@raise A e).
Proof. by intros s s' r HI [= <- _]. Qed.

Lemma pres_when b (m : M unit) : pres I m -> pres I (when b m).
Proof. destruct b; simpl; [done|]. intros _. apply pres_ret. Qed.

Lemma pres_for_each {A} (xs : list A) (body : A -> M unit) :
  (forall x, pres I (body x)) -> pres I (for_each xs body).
Proof.
  intros Hb. induction xs as [|x xs IH]; simpl; [apply pres_ret|].
  apply pres_bind; auto.
Qed.

End Pres.

(** A property of a component is kept by what keeps the component. *)
Lemma keeps_pres {X A} (f : Session -> X) (P : X -> Prop) (m : M A) :
  keeps f m -> pres (fun s => P (f s)) m.
Proof. intros Hm s s' r HP Hrun. by rewrite (Hm _ _ _ Hrun). Qed.

(** ** Components the heap primitives leave alone *)

Section KeepsOther.
Context {hs : PyHSPlasma} {co : Collaborators} {sc : Scene}.
Context {X : Type} (f : Session -> X).
Context (Hheap : forall h s, f (with_heap h s) = f s).

Lemma keeps_other_add_object loc o : keeps f (add_object loc o).
Proof. intros s s' r [= <- _]. apply Hheap. Qed.

Lemma keeps_other_update_layer k g : keeps f (update_layer k g).
Proof.
  intros s s' r. unfold update_layer.
  destruct (heap s !! k) as [[? []]|]; intros [= <- _]; by rewrite ?Hheap.
Qed.

Lemma keeps_other_update_material k g : keeps f (update_material k g).
Proof.
  intros s s' r. unfold update_material.
  destruct (heap s !! k) as [[? []]|]; intros [= <- _]; by rewrite ?Hheap.
Qed.

Lemma keeps_other_update_env k g : keeps f (update_env k g).
Proof.
  intros s s' r. unfold update_env.
  destruct (heap s !! k) as [[? []]|]; intros [= <- _]; by rewrite ?Hheap.
Qed.

Lemma keeps_other_update_textmap k g : keeps f (update_textmap k g).
Proof.
  intros s s' r. unfold update_textmap.
  destruct (heap s !! k) as [[? []]|]; intros [= <- _]; by rewrite ?Hheap.
Qed.

Ltac other_tac :=
  pose proof keeps_other_add_object; pose proof keeps_other_update_layer;
  pose proof keeps_other_update_material; pose proof keeps_other_update_env;
  pose proof keeps_other_update_textmap; keeps_tac.

Lemma keeps_other_propagate bm layer : keeps f (_propagate_material_settings bm layer).
Proof. unfold _propagate_material_settings. other_tac. Qed.

Lemma keeps_other_find_create cls loc name fresh :
  keeps f (find_create cls loc name fresh).
Proof. unfold find_create. other_tac. Qed.

Lemma keeps_other_collect_visregions texture regions acc :
  keeps f (collect_visregions texture regions acc).
Proof.
  revert acc. induction regions as [|r regions IH]; intros acc; simpl.
  - apply keeps_ret.
  - pose proof keeps_other_find_create. other_tac.
Qed.

Lemma keeps_other_export_dynamic_env bo hsgmat layer texture pl_class :
  keeps f (export_dynamic_env bo hsgmat layer texture pl_class).
Proof.
  pose proof keeps_other_find_create. pose proof keeps_other_collect_visregions.
  unfold export_dynamic_env. other_tac.
Qed.

Lemma keeps_other_export_waveset_material bo bm :
  keeps f (export_waveset_material bo bm).
Proof.
  pose proof keeps_other_propagate. unfold export_waveset_material. other_tac.
Qed.

Lemma keeps_other_export_layer_animations bo bm tex_slot idx hsgmat base_layer :
  keeps f (_export_layer_animations bo bm tex_slot idx hsgmat base_layer).
Proof.
  unfold _export_layer_animations, attach_controller,
    _export_layer_opacity_animation, _export_layer_transform_animation.
  other_tac.
Qed.

Lemma keeps_other_finalize_layers blank data compression layers : forall pages,
  keeps f (finalize_layers blank data compression pages layers).
Proof.
  induction layers as [|layer layers IH]; intros pages; simpl.
  - apply keeps_ret.
  - unfold finalize_layer. other_tac.
Qed.

Lemma keeps_other_finalize : keeps f finalize.
Proof.
  unfold finalize. apply keeps_bind; [apply keeps_gets|]. intros pending.
  apply keeps_for_each. intros [key layers]. unfold finalize_entry.
  pose proof keeps_other_finalize_layers. simpl. other_tac.
Qed.

End KeepsOther.

(** ** The pending table in general *)

Section PendingGeneral.
Context {hs : PyHSPlasma} {co : Collaborators} {sc : Scene}.

Lemma first_match {A} (P : A -> Prop) `{!forall x, Decision (P x)} (l : list A) :
  Forall (fun x => ~ P x) l \/
  exists pre x post, l = pre ++ x :: post /\ Forall (fun y => ~ P y) pre /\ P x.
Proof.
  induction l as [|y l IH]; [by left|].
  destruct (decide (P y)) as [Hy|Hy].
  - right. by exists [], y, l.
  - destruct IH as [IH|(pre & x & post & -> & Hpre & Hx)].
    + left. by constructor.
    + right. exists (y :: pre), x, post. split_and!; [done| |done]. by constructor.
Qed.

Lemma same_identity_sym a b : same_identity a b -> same_identity b a.
Proof. intros [Hi Hc]. by split. Qed.

(** What the stashing block does, on any table. *)
Lemma stash_cases key layer s h :
  _Texture_hash key = inr h ->
  (Forall (fun e => ~ same_identity e.1 key) (_pending s) /\
   stash key layer s = (with_pending (_pending s ++ [(key, [layer])]) s, inr tt)) \/
  (exists pre k v post,
     _pending s = pre ++ (k, v) :: post /\
     Forall (fun e => ~ same_identity e.1 key) pre /\
     same_identity k key /\
     stash key layer s
     = (with_pending (pre ++ (_update k key, v ++ [layer]) :: post) s, inr tt)).
Proof.
  intros Hh.
  destruct (first_match (fun e : _Texture * list Key => same_identity e.1 key)
              (_pending s)) as [Habs|(pre & [k v] & post & Heq & Hpre & Hk)].
  - left. split; [done|]. by eapply stash_new.
  - right. exists pre, k, v, post. split_and!; try done. by eapply stash_merge.
Qed.

Lemma stash_no_hash key layer s e :
  _Texture_hash key = inl e -> stash key layer s = (s, inl e).
Proof.
  intros Hh. unfold stash, pending_contains, pending_lookup, bind, lift. by rewrite Hh.
Qed.

Lemma hash_is_Some key h : _Texture_hash key = inr h -> is_Some (image key).
Proof. unfold _Texture_hash. destruct (image key); [eauto|done]. Qed.

Lemma hash_None key : image key = None -> _Texture_hash key = inl AttributeError.
Proof. unfold _Texture_hash. by intros ->. Qed.

Lemma key_wf_update k key : key_wf k -> key_wf (_update k key).
Proof.
  intros [Him Hc]. destruct (update_identity k key) as [Hi Hca].
  destruct (update_flags k key) as [Hu _].
  split; [by rewrite Hi|]. rewrite Hca, Hu. intros Ht. by rewrite (Hc Ht).
Qed.

Lemma pending_wf_nil : pending_wf [].
Proof. split; [constructor|]. intros i j e1 e2 Hi. by rewrite lookup_nil in Hi. Qed.

Lemma pending_wf_stash key layer s s' r :
  (calc_alpha key = true -> use_alpha key = true) ->
  pending_wf (_pending s) -> stash key layer s = (s', r) -> pending_wf (_pending s').
Proof.
  intros Hkey [Hall Hdist] Hrun.
  destruct (_Texture_hash key) as [e|h] eqn:Hh.
  { rewrite (stash_no_hash _ _ _ _ Hh) in Hrun. injection Hrun as <- _. by split. }
  destruct (stash_cases key layer s h Hh)
    as [[Habs Hs]|(pre & k & v & post & Heq & Hpre & Hk & Hs)];
    rewrite Hs in Hrun; injection Hrun as <- _; simpl.
  - split.
    + apply Forall_app. split; [done|]. constructor; [|done].
      split; [|done]. split; [by eapply hash_is_Some|done].
    + intros i j e1 e2 Hi Hj Hsame.
      destruct (decide (i < length (_pending s))%nat) as [Hil|Hil],
               (decide (j < length (_pending s))%nat) as [Hjl|Hjl].
      * rewrite lookup_app_l in Hi, Hj by done. eauto.
      * rewrite lookup_app_l in Hi by done. rewrite lookup_app_r in Hj by lia.
        apply list_lookup_singleton_Some in Hj as [_ <-]. simpl in Hsame.
        rewrite Forall_forall in Habs. exfalso. eapply Habs; [|exact Hsame].
        by eapply list_elem_of_lookup_2.
      * rewrite lookup_app_l in Hj by done. rewrite lookup_app_r in Hi by lia.
        apply list_lookup_singleton_Some in Hi as [_ <-]. simpl in Hsame.
        rewrite Forall_forall in Habs. exfalso. eapply Habs; [|apply same_identity_sym; exact Hsame].
        by eapply list_elem_of_lookup_2.
      * rewrite lookup_app_r in Hi, Hj by lia.
        apply list_lookup_singleton_Some in Hi as [Hi _].
        apply list_lookup_singleton_Some in Hj as [Hj _]. lia.
  - rewrite Heq in Hall, Hdist.
    apply Forall_app in Hall as [Hall1 Hall2].
    apply Forall_cons in Hall2 as [[Hkwf _] Hall2].
    split.
    + apply Forall_app. split; [done|]. constructor; [|done]. simpl.
      split; [by apply key_wf_update|]. by destruct v.
    + intros i j e1 e2 Hi Hj Hsame.
      (* the entries have the identities they had *)
      assert (forall n e, (pre ++ (_update k key, v ++ [layer]) :: post) !! n = Some e ->
                exists e0, (pre ++ (k, v) :: post) !! n = Some e0 /\
                           forall x, same_identity e.1 x <-> same_identity e0.1 x)
        as Hback.
      { intros n e Hn.
        destruct (decide (n = length pre)) as [->|Hne].
        - rewrite list_lookup_middle in Hn by done. injection Hn as <-.
          exists (k, v). rewrite list_lookup_middle by done. split; [done|].
          intros x. simpl. apply same_identity_update.
        - exists e. split; [|done].
          destruct (decide (n < length pre)%nat).
          + rewrite lookup_app_l in Hn by done. by rewrite lookup_app_l.
          + rewrite lookup_app_r in Hn by lia. rewrite lookup_app_r by lia.
            destruct (n - length pre)%nat as [|n'] eqn:Hn'; [lia|done]. }
      destruct (Hback _ _ Hi) as (e1' & Hi' & H1).
      destruct (Hback _ _ Hj) as (e2' & Hj' & H2).
      apply (Hdist i j e1' e2' Hi' Hj').
      apply H1 in Hsame. apply same_identity_sym in Hsame. apply H2 in Hsame.
      by apply same_identity_sym.
Qed.

End PendingGeneral.

(** ** The pending table follows the references of a session *)

Section SessionReferences.
Context {hs : PyHSPlasma} {co : Collaborators} {sc : Scene}.

(** *** What keeps the pending table *)

Lemma keeps_pending_warn msg : keeps _pending (warn msg).
Proof. by apply keeps_modify. Qed.

Lemma keeps_pending_test_image_alpha image : keeps _pending (_test_image_alpha image).
Proof. unfold _test_image_alpha. keeps_tac. Qed.

Ltac keeps_pending :=
  first [ apply keeps_other_propagate; done
        | apply keeps_other_export_dynamic_env; done
        | apply keeps_other_export_layer_animations; done
        | apply keeps_other_export_waveset_material; done
        | apply keeps_other_finalize; done
        | apply keeps_other_find_create; done
        | apply keeps_other_add_object; done
        | apply keeps_other_update_layer; done
        | apply keeps_other_update_material; done
        | apply keeps_other_update_env; done
        | apply keeps_other_update_textmap; done
        | apply keeps_pending_warn
        | apply keeps_pending_test_image_alpha ].

Ltac keeps_pending_tac :=
  repeat first
    [ keeps_pending
    | apply keeps_ret | apply keeps_raise | apply keeps_lift
    | apply keeps_gets | apply keeps_deref
    | apply keeps_get_layer | apply keeps_get_material | apply keeps_get_env
    | apply keeps_find_key
    | apply keeps_modify; done
    | apply keeps_when
    | apply keeps_bind; [|intros ?]
    | match goal with
      | |- keeps _ (match ?x with _ => _ end) => destruct x
      end ].

Lemma keeps_pending_envmap bo hsgmat layer slot :
  keeps _pending (_export_texture_type_environment_map bo hsgmat layer slot).
Proof. unfold _export_texture_type_environment_map. keeps_pending_tac. Qed.

(** *** The answer of the alpha test *)

Lemma test_image_alpha_ext im s s' :
  _alphatest s = _alphatest s' ->
  (_test_image_alpha im s).2 = (_test_image_alpha im s').2.
Proof.
  intros Heq. unfold _test_image_alpha, bind, gets, modify, ret. rewrite Heq.
  by destruct (_alphatest s' !! im).
Qed.

Lemma stashed_ext texture slot layer s s' :
  _alphatest s = _alphatest s' ->
  stashed texture slot layer s = stashed texture slot layer s'.
Proof.
  intros Heq. unfold stashed. destruct (bpy.image texture) as [im|]; [|done].
  by rewrite (test_image_alpha_ext im s s' Heq).
Qed.

Lemma stashed_stencil texture slot layer s s' :
  bpy.use_stencil slot = true ->
  stashed texture slot layer s = stashed texture slot layer s'.
Proof.
  intros Hst. unfold stashed. destruct (bpy.image texture) as [im|]; [|done].
  rewrite Hst. by rewrite !orb_true_r.
Qed.

Lemma image_ref_ext slot layer s s' :
  _alphatest s = _alphatest s' \/ bpy.use_stencil slot = true ->
  image_ref slot layer s = image_ref slot layer s'.
Proof.
  intros Heq. unfold image_ref. destruct (bpy.texture slot) as [texture|]; [|done].
  destruct (bpy.type texture); try done.
  destruct Heq; [by apply stashed_ext | by apply stashed_stencil].
Qed.

Lemma slot_refs_ext rest : forall layer s s',
  _alphatest s = _alphatest s' -> slot_refs rest layer s = slot_refs rest layer s'.
Proof.
  induction rest as [|slot rest IH]; intros layer s s' Heq; [done|]. simpl.
  rewrite (image_ref_ext slot layer s s') by by left.
  by rewrite (IH (S layer) s s' Heq).
Qed.

(** *** The image exporter *)

Lemma Texture_init_image texture ua force key :
  _Texture_init (Some texture) None ua force = inr key ->
  image key = bpy.image texture.
Proof.
  unfold _Texture_init. destruct (force || _).
  - by intros [= <-].
  - destruct ua; [by intros [= <-]|].
    destruct (bpy.image texture); [by intros [= <-]|done].
Qed.

Lemma image_exporter_represents bo hsgmat layer slot texture s s' seen :
  bpy.texture slot = Some texture ->
  _export_texture_type_image bo hsgmat layer slot s = (s', inr tt) ->
  represents (_pending s) seen ->
  represents (_pending s') (seen ++ stashed texture slot layer s).
Proof.
  intros Htex Hrun Hrep. unfold _export_texture_type_image in Hrun.
  rewrite Htex in Hrun. simpl deref in Hrun. rewrite bind_ret in Hrun.
  apply bind_inr in Hrun as (has_alpha & s1 & Halpha & Hrun).
  apply bind_inr in Hrun as ([] & s2 & Hflags & Hrun).
  apply bind_inr in Hrun as ([] & s3 & Hclamp & Hrun).
  assert (_pending s3 = _pending s1) as Hp3.
  { transitivity (_pending s2).
    - revert Hclamp. apply keeps_when. keeps_pending.
    - revert Hflags. keeps_pending_tac. }
  unfold stashed. destruct (bpy.image texture) as [im|] eqn:Him.
  - (* the texture has an image: the layer is stashed *)
    apply bind_inr in Halpha as (ha & s0 & Htest & Halpha).
    apply bind_inr in Halpha as ([] & s0' & Hwarn & Hret). injection Hret as <- <-.
    assert (_pending s0' = _pending s /\
            ha = bpy.use_calculate_alpha texture || bpy.use_stencil slot ||
                 match (_test_image_alpha im s).2 with
                 | inr r => r
                 | inl _ => false
                 end) as [Hp1 Hha].
    { assert (_pending s0' = _pending s0) as ->
        by (revert Hwarn; apply keeps_when, keeps_pending_warn).
      destruct (bpy.use_calculate_alpha texture).
      { injection Htest as <- <-. done. }
      destruct (bpy.use_stencil slot).
      { injection Htest as <- <-. done. }
      rewrite Htest. simpl. split; [|done].
      by apply keeps_pending_test_image_alpha in Htest. }
    apply bind_inr in Hrun as (key & s4 & Hlift & Hstash).
    unfold lift in Hlift.
    assert (_Texture_init (Some texture) None (Some ha) (bpy.use_stencil slot)
            = inr key) as Hinit by (by injection Hlift).
    assert (s4 = s3) as -> by (by injection Hlift).
    rewrite <- Hha, Hinit.
    assert (exists h, _Texture_hash key = inr h) as [h Hh].
    { unfold _Texture_hash. rewrite (Texture_init_image _ _ _ _ Hinit), Him. eauto. }
    destruct (stash_represents key layer s3 seen h Hh) as (s'' & Hs'' & _ & Hrep'').
    { by rewrite Hp3, Hp1. }
    rewrite Hs'' in Hstash. by injection Hstash as <-.
  - (* no image: a dynamic text map, and nothing is stashed *)
    injection Halpha as <- <-. rewrite app_nil_r.
    assert (_pending s' = _pending s3) as ->; [|by rewrite Hp3].
    revert Hrun. keeps_pending_tac.
Qed.

Lemma dispatch_represents bo hsgmat layer slot texture s s' seen :
  bpy.texture slot = Some texture ->
  dispatch_tex_exporter (bpy.type texture) bo hsgmat layer slot s = (s', inr tt) ->
  represents (_pending s) seen ->
  represents (_pending s') (seen ++ image_ref slot layer s).
Proof.
  intros Htex Hrun Hrep. unfold image_ref. rewrite Htex.
  unfold dispatch_tex_exporter in Hrun.
  destruct (bpy.type texture); try done;
    first [ by eapply image_exporter_represents
          | apply keeps_pending_envmap in Hrun; by rewrite Hrun, app_nil_r
          | injection Hrun as <-; by rewrite app_nil_r ].
Qed.

(** *** A slot *)

Lemma slot_tail_represents bo bm hsgmat slot idx (n : nat)
    layer texture s s' r seen :
  bpy.texture slot = Some texture ->
  (dispatch_tex_exporter (bpy.type texture) bo hsgmat layer slot ;;
   layer' <- _export_layer_animations bo bm slot idx hsgmat layer ;;
   update_material hsgmat (addLayer layer') ;;
   ret n) s = (s', inr r) ->
  represents (_pending s) seen ->
  represents (_pending s') (seen ++ image_ref slot layer s).
Proof.
  intros Htex Hrun Hrep.
  apply bind_inr in Hrun as ([] & s1 & Hd & Hrun).
  apply bind_inr in Hrun as (k & s2 & Ha & Hrun).
  apply bind_inr in Hrun as ([] & s3 & Hu & Hret). injection Hret as <- _.
  apply (keeps_other_update_material _pending) in Hu; [|done].
  apply (keeps_other_export_layer_animations _pending) in Ha; [|done].
  rewrite Hu, Ha. by eapply dispatch_represents.
Qed.

Lemma slot_represents bo bm hsgmat rest : forall idx s s' n seen,
  _export_texture_slot_from bo bm hsgmat rest idx s = (s', inr n) ->
  represents (_pending s) seen ->
  represents (_pending s') (seen ++ slot_refs rest (length (heap s)) s).
Proof.
  induction rest as [|slot rest IH]; intros idx s s' n seen Hrun Hrep; [done|].
  destruct (slot_texture_inr _ _ _ _ _ _ _ _ _ Hrun) as [texture Htex].
  cbn [slot_refs]. destruct (bpy.use_stencil slot) eqn:Hst.
  - (* a stencil: the next slot first *)
    cbn [_export_texture_slot_from] in Hrun.
    rewrite slot_prologue_run in Hrun. rewrite Hst in Hrun.
    apply bind_inr in Hrun as (n0 & s3 & Hinner & Htail).
    apply bind_inr in Hinner as ([] & sa & Hum & Hinner).
    apply bind_inr in Hinner as ([] & sb & Hul & Hinner).
    rewrite Htex in Hinner. simpl deref in Hinner. rewrite bind_ret in Hinner.
    apply bind_inr in Hinner as ([] & sc' & Hclamp & Hinner).
    apply bind_inr in Hinner as ([] & sd & Hz & Hinner).
    apply bind_inr in Hinner as ([] & s1 & Hamb & Hinner).
    destruct rest as [|slot' rest]; [discriminate|].
    apply bind_inr in Hinner as (n' & s2 & Hnest & Hflag).
    (* the set-up of the stencil's layer adds one object *)
    assert (length (heap s1) = S (length (heap s)) /\
            _pending s1 = _pending s /\ _alphatest s1 = _alphatest s)
      as (Hl1 & Hp1 & Ha1).
    { apply update_material_inr in Hum as (? & ? & _ & ->).
      apply update_layer_inr in Hul as (? & ? & _ & ->).
      apply update_layer_inr in Hamb as (? & ? & _ & ->).
      apply update_layer_inr in Hz as (? & ? & _ & ->).
      unfold when in Hclamp. destruct (bool_decide _).
      - apply update_layer_inr in Hclamp as (? & ? & _ & ->). simpl.
        rewrite !length_insert, length_app. simpl. split_and!; try done. lia.
      - injection Hclamp as <-. simpl.
        rewrite !length_insert, length_app. simpl. split_and!; try done. lia. }
    specialize (IH (S idx) _ _ _ seen Hnest).
    rewrite Hl1, (slot_refs_ext _ _ s1 s Ha1) in IH.
    specialize (IH ltac:(by rewrite Hp1)).
    (* the flagging of the layer exported last *)
    assert (_pending s3 = _pending s2) as Hp3.
    { revert Hflag. keeps_pending_tac. }
    (* the stencil's own texture *)
    rewrite Htex in Htail. simpl deref in Htail. rewrite bind_ret in Htail.
    apply bind_inr in Htail as ([] & s4 & Hop & Htail).
    apply bind_inr in Htail as ([] & s5 & Hwa & Htail).
    apply bind_inr in Htail as ([] & s6 & Hwh & Htail).
    assert (_pending s6 = _pending s3) as Hp6.
    { transitivity (_pending s5); [revert Hwh; keeps_pending_tac|].
      transitivity (_pending s4); [revert Hwa; keeps_pending_tac|].
      revert Hop. keeps_pending_tac. }
    eapply slot_tail_represents in Htail; [|done..|by rewrite Hp6, Hp3; exact IH].
    rewrite (image_ref_ext slot _ s6 s) in Htail by by right.
    rewrite <- app_assoc in Htail. exact Htail.
  - (* a plain slot *)
    rewrite (plain_slot_from_run _ _ _ _ _ _ _ _ Hst Htex) in Hrun.
    eapply slot_tail_represents in Hrun; [|done..].
    by rewrite (image_ref_ext slot _ _ s) in Hrun by by left.
Qed.

(** *** The slot loop, a call, a session *)

Lemma loop_represents fuel bo bm hsgmat slots : forall i s s' seen,
  export_slots fuel bo bm hsgmat slots i s = (s', inr tt) ->
  represents (_pending s) seen ->
  represents (_pending s') (seen ++ loop_refs fuel bo bm hsgmat slots i s).
Proof.
  induction fuel as [|fuel IH]; intros i s s' seen Hrun Hrep; simpl in *;
    destruct (i <? length slots)%nat; try done;
    try (injection Hrun as <-; by rewrite app_nil_r).
  apply bind_inr in Hrun as (n & s1 & Hslot & Hrun).
  rewrite Hslot. rewrite app_assoc. eapply IH; [done|].
  by eapply slot_represents.
Qed.

Lemma call_represents c s s' r seen :
  run_call c s = (s', inr r) ->
  represents (_pending s) seen ->
  represents (_pending s') (seen ++ call_refs c s).
Proof.
  intros Hrun Hrep. destruct c as [bo bm|bo bm|layer image|];
    simpl in Hrun; unfold call_refs.
  - apply bind_inr in Hrun as (k & s0 & Hrun & [= <- <-]).
    unfold export_material in Hrun. simpl.
    apply bind_inr in Hrun as (hsgmat & s1 & Hadd & Hrun).
    injection Hadd as <- <-.
    apply bind_inr in Hrun as ([] & s2 & Hloop & Hrun).
    eapply loop_represents in Hloop; [|exact Hrep].
    assert (_pending s0 = _pending s2) as ->; [|done].
    revert Hrun. keeps_pending_tac.
  - apply bind_inr in Hrun as (k & s0 & Hrun & [= <- <-]).
    apply (keeps_other_export_waveset_material _pending) in Hrun; [|done].
    by rewrite Hrun, app_nil_r.
  - apply bind_inr in Hrun as ([] & s0 & Hrun & [= <- <-]).
    unfold export_prepared_layer in Hrun.
    apply bind_inr in Hrun as (key & s1 & Hlift & Hstash).
    unfold lift in Hlift.
    assert (_Texture_init None image None false = inr key) as Hinit
      by (by injection Hlift).
    assert (s1 = s) as -> by (by injection Hlift).
    rewrite Hinit.
    assert (exists h, _Texture_hash key = inr h) as [h Hh].
    { destruct image as [im|]; [|done]. injection Hinit as <-. simpl. eauto. }
    destruct (stash_represents key layer s seen h Hh Hrep) as (s'' & Hs'' & _ & Hrep'').
    rewrite Hs'' in Hstash. by injection Hstash as <-.
  - apply bind_inr in Hrun as ([] & s0 & Hrun & [= <- <-]).
    apply (keeps_other_finalize _pending) in Hrun; [|done].
    by rewrite Hrun, app_nil_r.
Qed.

Lemma session_represents calls : forall s s' trace seen,
  run_calls calls s = (s', inr trace) ->
  represents (_pending s) seen ->
  represents (_pending s') (seen ++ session_refs calls s).
Proof.
  induction calls as [|c calls IH]; intros s s' trace seen Hrun Hrep; simpl in *.
  - injection Hrun as <- _. by rewrite app_nil_r.
  - apply bind_inr in Hrun as (r & s1 & Hcall & Hrun).
    apply bind_inr in Hrun as (rs & s2 & Hrest & [= <- _]).
    rewrite Hcall, app_assoc. eapply IH; [done|]. by eapply call_represents.
Qed.

End SessionReferences.

Section PendingTheorem.
Context {hs : PyHSPlasma} {co : Collaborators} {sc : Scene}.


End PendingTheorem.

(** ** Texture identities as dict keys *)

Section Identities.
Context {hs : PyHSPlasma} {co : Collaborators} {sc : Scene}.

(** X1. [__eq__] and [__hash__] agree, and the merge that [__eq__] does in
    place is safe for a key that sits in a dict: when [a == b] answers true,
    [a] and [b] have the same hash (or both have none, for want of an
    image), and [a] after the merge has the hash and the identity it had. *)
Theorem Texture_eq_hash (a b : _Texture) :
  (_Texture_eq a b).2 = true ->
  _Texture_hash a = _Texture_hash b /\
  _Texture_hash (_Texture_eq a b).1 = _Texture_hash a /\
  same_identity (_Texture_eq a b).1 a.
Proof.
  unfold _Texture_eq.
  destruct (decide (image a = image b)) as [Hi|]; [|done].
  destruct (decide (calc_alpha a = calc_alpha b)) as [Hc|]; [|done].
  intros _. simpl. destruct (update_identity a b) as [Hui Huc].
  unfold _Texture_hash, same_identity. rewrite Hui, Huc, Hi, Hc. done.
Qed.

(** X2. [export_prepared_layer(layer, image)] without an image fails the
    assertion of the key's constructor and changes nothing. With an image it
    returns, and touches the pending table only: the key is that of the
    image alone (no computed alpha, no mipmaps, alpha when the image has
    four channels and uses alpha); when no entry of the table has its
    identity, the entry [key -> [layer]] is added at the end, otherwise the
    first entry with its identity gets the key's flags merged in and
    [layer] appended to its consumers. *)
Theorem export_prepared_layer_stashes (layer : Key) (im : option bpy.Image)
    (s : Session) :
  match im with
  | None => export_prepared_layer layer None s = (s, inl AssertionError)
  | Some i =>
      let key := {| image := Some i; calc_alpha := false; mipmap := false;
                    use_alpha := (bpy.channels i =? 4) && bpy.use_alpha i |} in
      exists tbl,
        export_prepared_layer layer (Some i) s = (with_pending tbl s, inr tt) /\
        ((Forall (fun e => ~ same_identity e.1 key) (_pending s) /\
          tbl = _pending s ++ [(key, [layer])]) \/
         (exists pre k v post,
            _pending s = pre ++ (k, v) :: post /\
            Forall (fun e => ~ same_identity e.1 key) pre /\
            same_identity k key /\
            tbl = pre ++ (_update k key, v ++ [layer]) :: post))
  end.
Proof.
  destruct im as [i|]; [|done].
  intros key.
  change (export_prepared_layer layer (Some i) s) with (stash key layer s).
  destruct (stash_cases key layer s (Z.lxor (hash_str (bpy.name i)) 0) eq_refl)
    as [[Habs Hs]|(pre & k & v & post & Heq & Hpre & Hk & Hs)]; rewrite Hs.
  - eexists. split; [done|]. by left.
  - eexists. split; [done|]. right. by exists pre, k, v, post.
Qed.

End Identities.

(** ** The alpha test and its cache *)

Section AlphaTest.
Context {hs : PyHSPlasma} {co : Collaborators} {sc : Scene}.

(** X4. [_test_image_alpha(image)] always returns; afterwards the cache
    holds the answer for the image and nothing else of the session has
    changed. A cached answer, true or false, is given back as it is and
    leaves the session as it was. Without one, the answer is false for an
    image that has not four channels or does not use alpha, and what OpenGL
    says otherwise. Asking again gives the same answer and changes
    nothing. *)
Theorem test_image_alpha_cached (image : bpy.Image) (s : Session) :
  exists (r : bool) (s' : Session),
    _test_image_alpha image s = (s', inr r) /\
    s' = with_alphatest (<[image := r]> (_alphatest s)) s /\
    (forall c, _alphatest s !! image = Some c -> r = c /\ s' = s) /\
    (_alphatest s !! image = None ->
     r = (bpy.channels image =? 4) && bpy.use_alpha image && gl_has_alpha image) /\
    _test_image_alpha image s' = (s', inr r).
Proof.
  unfold _test_image_alpha, bind, gets, modify, ret.
  destruct (_alphatest s !! image) as [c|] eqn:Hc.
  - exists c, s. split; [done|]. split.
    + rewrite insert_id by done. by destruct s.
    + split; [by intros ? [= <-]|]. split; [done|]. by rewrite Hc.
  - eexists _, _. split; [done|]. split; [done|]. split; [done|]. split.
    + intros _. by destruct (bpy.channels image =? 4), (bpy.use_alpha image).
    + simpl. by rewrite lookup_insert_eq.
Qed.

End AlphaTest.

(** ** Waveset materials *)

Section Waveset.
Context {hs : PyHSPlasma} {co : Collaborators} {sc : Scene}.

(** X5. [export_waveset_material(bo, bm)] always returns. It adds two
    objects to the page of the object and touches nothing else: a material
    and a layer, both named after the Blender material with the suffix
    [_WaveSet7]; the layer is the only layer of the material, it carries the
    propagated fog flags and colors, and [kBlendAlpha] is its only blend
    flag. The key it returns is that of the material. *)
Theorem export_waveset_material_result (bo : bpy.Object) (bm : bpy.Material)
    (s : Session) :
  let hsgmat := length (heap s) in
  let page := page_of (bpy.ob_name bo) in
  let name := bpy.mat_name bm +:+ "_WaveSet7" in
  export_waveset_material bo bm s =
  (with_heap
     (heap s ++
      [ (page, OMaterial {| mname := name; compFlags := 0; layers := [S hsgmat] |});
        (page, OLayer
           {| lclass := plLayer; lname := name;
              state :=
                {| blendFlags := kBlendAlpha; clampFlags := 0;
                   shadeFlags :=
                     if bpy.use_mist bm then 0
                     else Z.lor (Z.lor 0 kShadeNoFog) kShadeReallyNoFog;
                   ZFlags := 0; miscFlags := 0 |};
              opacity := 1; texture := None; UVWSrc := 0;
              transform := {| translate := (0, 0, 0)%Q; mscale := (1, 1, 1)%Q |};
              ambient := utils_color world_ambient_color;
              preshade := utils_color (bpy.diffuse_color bm);
              runtime := utils_color (bpy.diffuse_color bm);
              specular := utils_color (bpy.specular_color bm);
              underLay := None; opacityCtl := None; transformCtl := None;
              timeConvert := new_timeConvert |}) ])
     s,
   inr hsgmat).
Proof.
  intros hsgmat page name. unfold export_waveset_material. fold name page.
  rewrite (bind_run _ _ _ _ _ (add_object_run _ _ _)).
  rewrite (bind_run _ _ _ _ _ (add_object_run _ _ _)). simpl.
  rewrite with_heap_with_heap.
  erewrite bind_run; [|by apply (propagate_snoc _ _ _ _ _ []); rewrite length_app; simpl].
  erewrite bind_run;
    [|by apply (update_layer_snoc _ _ _ _ _ []); rewrite length_app; simpl].
  erewrite bind_run.
  2:{ eapply update_material_at.
      rewrite lookup_app_l by (rewrite length_app; simpl; lia).
      by apply list_lookup_middle. }
  unfold ret. f_equal. unfold with_heap. simpl. f_equal.
  rewrite insert_app_l by (rewrite length_app; simpl; lia).
  rewrite insert_app_r_alt, Nat.sub_diag by done. simpl.
  rewrite <- app_assoc. simpl. unfold addLayer. simpl.
  rewrite length_app. simpl. rewrite Nat.add_1_r.
  unfold propagated. by destruct (bpy.use_mist bm).
Qed.

End Waveset.

(** ** The pending table stays well-formed *)

Section PendingInvariant.
Context {hs : PyHSPlasma} {co : Collaborators} {sc : Scene}.

Lemma Texture_init_calc_use texture im ua force key :
  _Texture_init texture im ua force = inr key ->
  calc_alpha key = true -> use_alpha key = true.
Proof.
  unfold _Texture_init. intros Hinit Hcalc.
  assert (forall (calc mip : bool) (img : option bpy.Image),
            (if force || calc
             then inr {| image := img; calc_alpha := true; mipmap := mip;
                         use_alpha := true |}
             else match ua with
                  | None =>
                      match img with
                      | None => inl AttributeError
                      | Some i =>
                          inr {| image := img; calc_alpha := calc; mipmap := mip;
                                 use_alpha := (bpy.channels i =? 4) && bpy.use_alpha i |}
                      end
                  | Some u =>
                      inr {| image := img; calc_alpha := calc; mipmap := mip;
                             use_alpha := u |}
                  end) = inr key -> use_alpha key = true) as Hgen.
  { intros calc mip img Hk. destruct (force || calc) eqn:Hf.
    - by injection Hk as <-.
    - apply orb_false_elim in Hf as [_ ->].
      destruct ua as [u|]; [|destruct img]; try done;
        injection Hk as <-; simpl in Hcalc; done. }
  destruct texture as [t|], im as [i|]; try done.
  - exact (Hgen (bpy.use_calculate_alpha t) (bpy.use_mipmap t) (Some i) Hinit).
  - exact (Hgen (bpy.use_calculate_alpha t) (bpy.use_mipmap t) (bpy.image t) Hinit).
  - exact (Hgen false false (Some i) Hinit).
Qed.

Local Notation "'wf'" := (fun s : Session => pending_wf (_pending s)).

Lemma pres_pending_init_stash texture im ua force layer :
  pres wf (key <- lift (_Texture_init texture im ua force) ;; stash key layer).
Proof.
  intros s s' r Hwf Hrun. unfold bind, lift in Hrun.
  destruct (_Texture_init texture im ua force) as [e|key] eqn:Hinit.
  - by injection Hrun as <- _.
  - eapply pending_wf_stash; [|done..]. by eapply Texture_init_calc_use.
Qed.

Ltac pending_leaf :=
  apply (keeps_pres _pending pending_wf);
  lazymatch goal with
  | |- keeps _ (_propagate_material_settings _ _) => apply keeps_other_propagate; done
  | |- keeps _ (export_dynamic_env _ _ _ _ _) =>
      apply keeps_other_export_dynamic_env; done
  | |- keeps _ (_export_layer_animations _ _ _ _ _ _) =>
      apply keeps_other_export_layer_animations; done
  | |- keeps _ (export_waveset_material _ _) =>
      apply keeps_other_export_waveset_material; done
  | |- keeps _ finalize => apply keeps_other_finalize; done
  | |- keeps _ (find_create _ _ _ _) => apply keeps_other_find_create; done
  | |- keeps _ (add_object _ _) => apply keeps_other_add_object; done
  | |- keeps _ (update_layer _ _) => apply keeps_other_update_layer; done
  | |- keeps _ (update_material _ _) => apply keeps_other_update_material; done
  | |- keeps _ (update_env _ _) => apply keeps_other_update_env; done
  | |- keeps _ (update_textmap _ _) => apply keeps_other_update_textmap; done
  | |- keeps _ (_test_image_alpha _) => unfold _test_image_alpha; solve [keeps_tac]
  | |- keeps _ (warn _) => unfold warn; solve [keeps_tac]
  | |- keeps _ _ => solve [keeps_tac]
  end.

(** Walk a computation by its head; [special] takes the calls that have a
    lemma of their own. *)
Ltac pres_pending special :=
  repeat first
    [ special
    | lazymatch goal with
      | |- pres _ (bind (lift (_Texture_init _ _ _ _)) _) =>
          apply pres_pending_init_stash
      | |- pres _ (bind _ _) => apply pres_bind; [|intros ?]
      | |- pres _ (when _ _) => apply pres_when
      | |- pres _ (ret _) => apply pres_ret
      | |- pres _ (raise _) => apply pres_raise
      | |- pres _ (match ?x with _ => _ end) => destruct x
      | |- pres _ _ => solve [pending_leaf]
      end ].

Lemma pres_pending_export_prepared_layer layer im :
  pres wf (export_prepared_layer layer im).
Proof. unfold export_prepared_layer. apply pres_pending_init_stash. Qed.

Lemma pres_pending_dispatch ty bo hsgmat layer slot :
  pres wf (dispatch_tex_exporter ty bo hsgmat layer slot).
Proof.
  unfold dispatch_tex_exporter, _export_texture_type_none,
    _export_texture_type_image, _export_texture_type_environment_map.
  pres_pending fail.
Qed.

Lemma pres_pending_export_texture_slot_from bo bm hsgmat rest : forall idx,
  pres wf (_export_texture_slot_from bo bm hsgmat rest idx).
Proof.
  induction rest as [|slot rest' IH]; intros idx; cbn [_export_texture_slot_from].
  - apply pres_raise.
  - pres_pending
      ltac:(idtac; lazymatch goal with
            | |- pres _ (_export_texture_slot_from _ _ _ _ _) => apply IH
            | |- pres _ (dispatch_tex_exporter _ _ _ _ _) =>
                apply pres_pending_dispatch
            end).
Qed.

Lemma pres_pending_export_slots fuel bo bm hsgmat slots : forall i,
  pres wf (export_slots fuel bo bm hsgmat slots i).
Proof.
  induction fuel as [|fuel IH]; intros i; simpl;
    destruct (i <? length slots)%nat; try apply pres_ret; try apply pres_raise.
  apply pres_bind; [apply pres_pending_export_texture_slot_from|]. auto.
Qed.

Lemma pres_pending_export_material bo bm : pres wf (export_material bo bm).
Proof.
  unfold export_material.
  pres_pending
    ltac:(idtac; lazymatch goal with
          | |- pres _ (export_slots _ _ _ _ _ _) => apply pres_pending_export_slots
          end).
Qed.

Lemma pres_pending_run_call c : pres wf (run_call c).
Proof.
  destruct c; simpl;
    pres_pending
      ltac:(idtac; lazymatch goal with
            | |- pres _ (export_material _ _) => apply pres_pending_export_material
            | |- pres _ (export_prepared_layer _ _) =>
                apply pres_pending_export_prepared_layer
            end).
Qed.

(** X3. Whatever the converter is asked to do, and whether the calls return
    or the last one raises, the pending table stays well-formed: every key
    in it has an image, a key that asks for a computed alpha asks for alpha,
    every entry has a consumer, and no two entries have the same identity.
    The table of a new converter is empty, so this holds in every session. *)
Theorem pending_table_well_formed (calls : list Call) (s s' : Session)
    (r : PyExc + list (Call * option Key)) :
  pending_wf (_pending s) ->
  run_calls calls s = (s', r) ->
  pending_wf (_pending s').
Proof.
  revert s s' r. induction calls as [|c calls IH]; intros s s' r Hwf Hrun.
  - by injection Hrun as <- _.
  - simpl in Hrun. revert Hwf Hrun. apply (pres_bind wf); [apply pres_pending_run_call|].
    intros k. apply (pres_bind wf); [|intros ?; apply pres_ret].
    intros ? ? ?. apply IH.
Qed.

End PendingInvariant.

(** ** The heap never shrinks *)

Section HeapGrows.
Context {hs : PyHSPlasma} {co : Collaborators} {sc : Scene}.

Lemma grows_add_object n loc o : pres (holds n) (add_object loc o).
Proof. unfold holds. intros s s' r Hn [= <- _]. simpl. rewrite length_app. lia. Qed.

Lemma grows_update_layer n k f : pres (holds n) (update_layer k f).
Proof.
  unfold holds. intros s s' r Hn. unfold update_layer.
  destruct (heap s !! k) as [[? []]|]; intros [= <- _]; simpl;
    by rewrite ?length_insert.
Qed.

Lemma grows_update_material n k f : pres (holds n) (update_material k f).
Proof.
  unfold holds. intros s s' r Hn. unfold update_material.
  destruct (heap s !! k) as [[? []]|]; intros [= <- _]; simpl;
    by rewrite ?length_insert.
Qed.

Lemma grows_update_env n k f : pres (holds n) (update_env k f).
Proof.
  unfold holds. intros s s' r Hn. unfold update_env.
  destruct (heap s !! k) as [[? []]|]; intros [= <- _]; simpl;
    by rewrite ?length_insert.
Qed.

Lemma grows_update_textmap n k f : pres (holds n) (update_textmap k f).
Proof.
  unfold holds. intros s s' r Hn. unfold update_textmap.
  destruct (heap s !! k) as [[? []]|]; intros [= <- _]; simpl;
    by rewrite ?length_insert.
Qed.

Lemma grows_keeps_heap {A} n (m : M A) : keeps heap m -> pres (holds n) m.
Proof. apply (keeps_pres heap (fun h => (n <= length h)%nat)). Qed.

End HeapGrows.

(** Walk a computation by its head; [special] takes the calls that have a
    lemma of their own. *)
Ltac grows_walk special :=
  repeat first
    [ special
    | lazymatch goal with
      | |- pres _ (bind _ _) => apply pres_bind; [|intros ?]
      | |- pres _ (when _ _) => apply pres_when
      | |- pres _ (ret _) => apply pres_ret
      | |- pres _ (raise _) => apply pres_raise
      | |- pres _ (add_object _ _) => apply grows_add_object
      | |- pres _ (update_layer _ _) => apply grows_update_layer
      | |- pres _ (update_material _ _) => apply grows_update_material
      | |- pres _ (update_env _ _) => apply grows_update_env
      | |- pres _ (update_textmap _ _) => apply grows_update_textmap
      | |- pres _ (stash _ _) => apply grows_keeps_heap, keeps_heap_stash
      | |- pres _ (_test_image_alpha _) =>
          apply grows_keeps_heap, keeps_heap_test_image_alpha
      | |- pres _ (warn _) => apply grows_keeps_heap, keeps_heap_warn
      | |- pres _ (match ?x with _ => _ end) => destruct x
      | |- pres _ _ => apply grows_keeps_heap; solve [keeps_tac]
      end ].

Section HeapGrowsCalls.
Context {hs : PyHSPlasma} {co : Collaborators} {sc : Scene}.

Lemma grows_propagate n bm layer : pres (holds n) (_propagate_material_settings bm layer).
Proof. unfold _propagate_material_settings. grows_walk fail. Qed.

Lemma grows_find_create n cls loc name fresh :
  pres (holds n) (find_create cls loc name fresh).
Proof. unfold find_create. grows_walk fail. Qed.

Lemma grows_collect_visregions n texture regions : forall acc,
  pres (holds n) (collect_visregions texture regions acc).
Proof.
  induction regions as [|r regions IH]; intros acc; simpl.
  - apply pres_ret.
  - grows_walk
      ltac:(idtac; lazymatch goal with
            | |- pres _ (find_create _ _ _ _) => apply grows_find_create
            | |- pres _ (collect_visregions _ _ _) => apply IH
            end).
Qed.

Lemma grows_export_dynamic_env n bo hsgmat layer texture pl_class :
  pres (holds n) (export_dynamic_env bo hsgmat layer texture pl_class).
Proof.
  unfold export_dynamic_env.
  grows_walk
    ltac:(idtac; lazymatch goal with
          | |- pres _ (find_create _ _ _ _) => apply grows_find_create
          | |- pres _ (collect_visregions _ _ _) => apply grows_collect_visregions
          end).
Qed.

Lemma grows_dispatch n ty bo hsgmat layer slot :
  pres (holds n) (dispatch_tex_exporter ty bo hsgmat layer slot).
Proof.
  unfold dispatch_tex_exporter, _export_texture_type_none,
    _export_texture_type_image, _export_texture_type_environment_map.
  grows_walk
    ltac:(idtac; lazymatch goal with
          | |- pres _ (find_create _ _ _ _) => apply grows_find_create
          | |- pres _ (export_dynamic_env _ _ _ _ _) => apply grows_export_dynamic_env
          end).
Qed.

Lemma grows_export_layer_animations n bo bm tex_slot idx hsgmat base_layer :
  pres (holds n) (_export_layer_animations bo bm tex_slot idx hsgmat base_layer).
Proof.
  unfold _export_layer_animations, attach_controller,
    _export_layer_opacity_animation, _export_layer_transform_animation.
  grows_walk fail.
Qed.

Lemma grows_export_texture_slot_from n bo bm hsgmat rest : forall idx,
  pres (holds n) (_export_texture_slot_from bo bm hsgmat rest idx).
Proof.
  induction rest as [|slot rest' IH]; intros idx; cbn [_export_texture_slot_from].
  - apply pres_raise.
  - grows_walk
      ltac:(idtac; lazymatch goal with
            | |- pres _ (_export_texture_slot_from _ _ _ _ _) => apply IH
            | |- pres _ (dispatch_tex_exporter _ _ _ _ _) => apply grows_dispatch
            | |- pres _ (_propagate_material_settings _ _) => apply grows_propagate
            | |- pres _ (_export_layer_animations _ _ _ _ _ _) =>
                apply grows_export_layer_animations
            end).
Qed.

Lemma grows_export_slots n fuel bo bm hsgmat slots : forall i,
  pres (holds n) (export_slots fuel bo bm hsgmat slots i).
Proof.
  induction fuel as [|fuel IH]; intros i; simpl;
    destruct (i <? length slots)%nat; try apply pres_ret; try apply pres_raise.
  apply pres_bind; [apply grows_export_texture_slot_from|]. auto.
Qed.

Lemma grows_export_material n bo bm : pres (holds n) (export_material bo bm).
Proof.
  unfold export_material.
  grows_walk
    ltac:(idtac; lazymatch goal with
          | |- pres _ (export_slots _ _ _ _ _ _) => apply grows_export_slots
          | |- pres _ (_propagate_material_settings _ _) => apply grows_propagate
          end).
Qed.

Lemma grows_export_waveset_material n bo bm :
  pres (holds n) (export_waveset_material bo bm).
Proof.
  unfold export_waveset_material.
  grows_walk
    ltac:(idtac; lazymatch goal with
          | |- pres _ (_propagate_material_settings _ _) => apply grows_propagate
          end).
Qed.

Lemma grows_finalize_layers n blank data compression layers : forall pages,
  pres (holds n) (finalize_layers blank data compression pages layers).
Proof.
  induction layers as [|layer layers IH]; intros pages; simpl.
  - apply pres_ret.
  - unfold finalize_layer.
    grows_walk
      ltac:(idtac; lazymatch goal with
            | |- pres _ (finalize_layers _ _ _ _ _) => apply IH
            end).
Qed.

Lemma grows_finalize n : pres (holds n) finalize.
Proof.
  unfold finalize. apply pres_bind; [apply grows_keeps_heap, keeps_gets|].
  intros pending. apply pres_for_each. intros [key layers]. unfold finalize_entry.
  simpl.
  grows_walk
    ltac:(idtac; lazymatch goal with
          | |- pres _ (finalize_layers _ _ _ _ _) => apply grows_finalize_layers
          end).
Qed.

Lemma grows_run_call n c : pres (holds n) (run_call c).
Proof.
  destruct c; simpl;
    grows_walk
      ltac:(idtac; lazymatch goal with
            | |- pres _ (export_material _ _) => apply grows_export_material
            | |- pres _ (export_waveset_material _ _) =>
                apply grows_export_waveset_material
            | |- pres _ (export_prepared_layer _ _) =>
                apply grows_keeps_heap, keeps_heap_export_prepared_layer
            | |- pres _ finalize => apply grows_finalize
            end).
Qed.

Lemma grows_run_calls n calls : pres (holds n) (run_calls calls).
Proof.
  induction calls as [|c calls IH]; simpl; [apply pres_ret|].
  apply pres_bind; [apply grows_run_call|]. intros r.
  apply pres_bind; [exact IH|]. intros rs. apply pres_ret.
Qed.

End HeapGrowsCalls.

(** ** The layers of the references a session makes *)

Ltac grows_calls :=
  lazymatch goal with
  | |- pres _ (find_create _ _ _ _) => apply grows_find_create
  | |- pres _ (_propagate_material_settings _ _) => apply grows_propagate
  | |- pres _ (dispatch_tex_exporter _ _ _ _ _) => apply grows_dispatch
  | |- pres _ (_export_layer_animations _ _ _ _ _ _) =>
      apply grows_export_layer_animations
  | |- pres _ (_export_texture_slot_from _ _ _ _ _) =>
      apply grows_export_texture_slot_from
  | |- pres _ (_export_texture_slot _ _ _ _ _) =>
      apply grows_export_texture_slot_from
  | |- pres _ (export_slots _ _ _ _ _ _) => apply grows_export_slots
  | |- pres _ (export_material _ _) => apply grows_export_material
  | |- pres _ (export_waveset_material _ _) => apply grows_export_waveset_material
  | |- pres _ finalize => apply grows_finalize
  | |- pres _ (run_call _) => apply grows_run_call
  | |- pres _ (run_calls _) => apply grows_run_calls
  end.

(** From a run [H : m s = (s', r)], the fact that the heap of [s'] is at
    least as long as that of [s]. *)
Ltac heap_le H G :=
  lazymatch type of H with
  | ?m ?s = (?s', ?r) =>
      assert (holds (length (heap s)) s') as G;
      [ refine ((_ : pres (holds (length (heap s))) m) s s' r (le_n _) H);
        solve [grows_walk ltac:(idtac; grows_calls)]
      | unfold holds in G ]
  end.

Section Fresh.
Context {hs : PyHSPlasma} {co : Collaborators} {sc : Scene}.

Lemma NoDup_snd_inj {A B} (l : list (A * B)) r1 r2 :
  NoDup l.*2 -> r1 ∈ l -> r2 ∈ l -> r1.2 = r2.2 -> r1 = r2.
Proof.
  induction l as [|a l IH]; intros Hnd H1 H2 Heq.
  - by apply elem_of_nil in H1.
  - rewrite fmap_cons in Hnd. apply NoDup_cons in Hnd as [Ha Hnd].
    apply elem_of_cons in H1 as [->|H1]; apply elem_of_cons in H2 as [->|H2];
      [done| | |by apply IH].
    + exfalso. apply Ha. rewrite Heq. apply list_elem_of_fmap. eauto.
    + exfalso. apply Ha. rewrite <- Heq. apply list_elem_of_fmap. eauto.
Qed.

Lemma filter_singleton_index {A} (P : A -> Prop) `{!forall x, Decision (P x)}
    (l : list A) x i j y z :
  filter P l = [x] -> l !! i = Some y -> l !! j = Some z -> P y -> P z -> i = j.
Proof.
  intros Hf Hi Hj Hy Hz.
  destruct (filter_singleton P l x Hf) as (pre & post & -> & Hpre & Hpost & _).
  assert (forall i y, (pre ++ x :: post) !! i = Some y -> P y -> i = length pre) as Hat.
  { clear -Hpre Hpost. intros i y Hi Hy.
    destruct (lt_eq_lt_dec i (length pre)) as [[Hlt| ->]|Hgt]; [|done|]; exfalso.
    - rewrite lookup_app_l in Hi by done.
      rewrite Forall_forall in Hpre. eapply Hpre; [|done].
      by eapply list_elem_of_lookup_2.
    - rewrite lookup_app_r in Hi by lia.
      destruct (i - length pre)%nat as [|k] eqn:Hk; [lia|]. simpl in Hi.
      rewrite Forall_forall in Hpost. eapply Hpost; [|done].
      by eapply list_elem_of_lookup_2. }
  by rewrite (Hat _ _ Hi Hy), (Hat _ _ Hj Hz).
Qed.

Lemma merged_entry_elem c e :
  e ∈ merged_entry c -> merged_entry c = [e] /\ e.2 = c.*2.
Proof.
  destruct c as [|[k0 l0] c]; simpl.
  - intros H. by apply elem_of_nil in H.
  - intros H. apply list_elem_of_singleton in H as ->. done.
Qed.

(** The consumers of an entry of a table that holds [refs] are the layers
    of the references of its identity. *)
Lemma represents_entry tbl refs i e :
  represents tbl refs -> tbl !! i = Some e ->
  entries_of e.1 tbl = [e] /\ e.2 = (contributing e.1 refs).*2.
Proof.
  intros Hrep Hi.
  assert (e ∈ entries_of e.1 tbl) as Hin.
  { apply list_elem_of_filter. split; [done|]. by eapply list_elem_of_lookup_2. }
  rewrite Hrep in Hin. apply merged_entry_elem in Hin as [Hm He].
  by rewrite Hrep.
Qed.

Lemma represents_NoDup tbl refs i e :
  represents tbl refs -> NoDup refs.*2 -> tbl !! i = Some e -> NoDup e.2.
Proof.
  intros Hrep Hnd Hi. destruct (represents_entry _ _ _ _ Hrep Hi) as [_ ->].
  refine (sublist_NoDup _ refs.*2 Hnd _).
  apply fmap_sublist. unfold contributing. apply sublist_filter.
Qed.

Lemma represents_disjoint tbl refs :
  represents tbl refs -> NoDup refs.*2 -> consumers_disjoint tbl.
Proof.
  intros Hrep Hnd i j e1 e2 k Hij H1 H2 Hk1 Hk2.
  destruct (represents_entry _ _ _ _ Hrep H1) as [Hone He1].
  destruct (represents_entry _ _ _ _ Hrep H2) as [_ He2].
  rewrite He1 in Hk1. rewrite He2 in Hk2.
  apply list_elem_of_fmap in Hk1 as (r1 & -> & Hr1).
  apply list_elem_of_fmap in Hk2 as (r2 & Heq & Hr2).
  apply list_elem_of_filter in Hr1 as [Hs1 Hr1].
  apply list_elem_of_filter in Hr2 as [Hs2 Hr2].
  assert (r1 = r2) as <- by by eapply NoDup_snd_inj.
  apply Hij.
  eapply (filter_singleton_index _ _ _ _ _ _ _ Hone H1 H2); [done|].
  destruct Hs1 as [Hi1 Hc1], Hs2 as [Hi2 Hc2]. split; congruence.
Qed.

Lemma image_ref_layers slot layer s :
  (image_ref slot layer s).*2 = [] \/ (image_ref slot layer s).*2 = [layer].
Proof.
  unfold image_ref, stashed. repeat case_match; auto.
Qed.

(** The layers of the references of a slot are the objects the slot
    allocates, each once. *)
Lemma slot_refs_fresh bo bm hsgmat rest : forall idx s s' n sa,
  _export_texture_slot_from bo bm hsgmat rest idx s = (s', inr n) ->
  NoDup (slot_refs rest (length (heap s)) sa).*2 /\
  Forall (fun k => (length (heap s) <= k < length (heap s'))%nat)
    (slot_refs rest (length (heap s)) sa).*2.
Proof.
  induction rest as [|slot rest IH]; intros idx s s' n sa Hrun.
  { split; [apply NoDup_nil_2|apply Forall_nil_2]. }
  destruct (slot_texture_inr _ _ _ _ _ _ _ _ _ Hrun) as [texture Htex].
  cbn [slot_refs]. rewrite fmap_app.
  assert (S (length (heap s)) <= length (heap s') ->
          forall nested,
            NoDup nested ->
            Forall (fun k => (S (length (heap s)) <= k < length (heap s'))%nat) nested ->
            NoDup (nested ++ (image_ref slot (length (heap s)) sa).*2) /\
            Forall (fun k => (length (heap s) <= k < length (heap s'))%nat)
              (nested ++ (image_ref slot (length (heap s)) sa).*2))%nat as Hown.
  { intros Hlen nested Hnd Hin.
    assert (Forall (fun k => (length (heap s) <= k < length (heap s'))%nat) nested)
      as Hin' by (eapply Forall_impl; [exact Hin|simpl; lia]).
    destruct (image_ref_layers slot (length (heap s)) sa) as [-> | ->].
    - by rewrite app_nil_r.
    - split.
      + apply NoDup_app. split_and!; [done| |apply NoDup_singleton].
        intros k Hk Hk'. apply list_elem_of_singleton in Hk' as ->.
        rewrite Forall_forall in Hin. specialize (Hin _ Hk). simpl in Hin. lia.
      + apply Forall_app. split; [done|]. apply Forall_singleton. lia. }
  destruct (bpy.use_stencil slot) eqn:Hst.
  - (* a stencil: the layers of the next slot come after its own *)
    cbn [_export_texture_slot_from] in Hrun.
    rewrite slot_prologue_run in Hrun. rewrite Hst in Hrun.
    apply bind_inr in Hrun as (n0 & s3 & Hinner & Htail).
    apply bind_inr in Hinner as ([] & sa' & Hum & Hinner).
    apply bind_inr in Hinner as ([] & sb & Hul & Hinner).
    rewrite Htex in Hinner. simpl deref in Hinner. rewrite bind_ret in Hinner.
    apply bind_inr in Hinner as ([] & sc' & Hclamp & Hinner).
    apply bind_inr in Hinner as ([] & sd & Hz & Hinner).
    apply bind_inr in Hinner as ([] & s1 & Hamb & Hinner).
    destruct rest as [|slot' rest]; [discriminate|].
    apply bind_inr in Hinner as (n' & s2 & Hnest & Hflag).
    assert (length (heap s1) = S (length (heap s))) as Hl1.
    { apply update_material_inr in Hum as (? & ? & _ & ->).
      apply update_layer_inr in Hul as (? & ? & _ & ->).
      apply update_layer_inr in Hamb as (? & ? & _ & ->).
      apply update_layer_inr in Hz as (? & ? & _ & ->).
      unfold when in Hclamp. destruct (bool_decide _).
      - apply update_layer_inr in Hclamp as (? & ? & _ & ->). simpl.
        rewrite !length_insert, length_app. simpl. lia.
      - injection Hclamp as <-. simpl.
        rewrite !length_insert, length_app. simpl. lia. }
    destruct (IH (S idx) _ _ _ sa Hnest) as [Hnd Hin]. rewrite Hl1 in Hnd, Hin.
    heap_le Hnest Hle1.
    heap_le Hflag Hle2.
    heap_le Htail Hle.
    apply Hown; [lia|done|].
    eapply Forall_impl; [exact Hin|]. simpl. lia.
  - (* a plain slot *)
    rewrite (plain_slot_from_run _ _ _ _ _ _ _ _ Hst Htex) in Hrun.
    heap_le Hrun Hle. simpl in Hle. rewrite length_app in Hle. simpl in Hle.
    apply Hown; [lia|apply NoDup_nil_2|apply Forall_nil_2].
Qed.

Lemma loop_refs_fresh fuel bo bm hsgmat slots : forall i s s',
  export_slots fuel bo bm hsgmat slots i s = (s', inr tt) ->
  NoDup (loop_refs fuel bo bm hsgmat slots i s).*2 /\
  Forall (fun k => (length (heap s) <= k < length (heap s'))%nat)
    (loop_refs fuel bo bm hsgmat slots i s).*2.
Proof.
  induction fuel as [|fuel IH]; intros i s s' Hrun; simpl in *;
    destruct (i <? length slots)%nat;
    try (split; [apply NoDup_nil_2|apply Forall_nil_2]).
  apply bind_inr in Hrun as (n & s1 & Hslot & Hrun).
  rewrite Hslot, fmap_app.
  destruct (slot_refs_fresh _ _ _ _ _ _ _ _ s Hslot) as [Hnd1 Hin1].
  destruct (IH _ _ _ Hrun) as [Hnd2 Hin2].
  heap_le Hslot Hle1. heap_le Hrun Hle.
  rewrite Forall_forall in Hin1, Hin2. split.
  - apply NoDup_app. split_and!; [done| |done].
    intros k Hk Hk'. specialize (Hin1 _ Hk). specialize (Hin2 _ Hk').
    simpl in *. lia.
  - apply Forall_app. split; apply Forall_forall; intros k Hk.
    + specialize (Hin1 _ Hk). simpl in *. lia.
    + specialize (Hin2 _ Hk). simpl in *. lia.
Qed.

Lemma call_refs_fresh c s s' r :
  prepared c = false ->
  run_call c s = (s', inr r) ->
  NoDup (call_refs c s).*2 /\
  Forall (fun k => (length (heap s) <= k < length (heap s'))%nat) (call_refs c s).*2.
Proof.
  intros Hc Hrun. destruct c as [bo bm|bo bm|layer image|]; try done;
    try (split; [apply NoDup_nil_2|apply Forall_nil_2]).
  simpl in Hrun. unfold call_refs.
  apply bind_inr in Hrun as (k & s0 & Hrun & [= <- <-]).
  unfold export_material in Hrun. simpl.
  apply bind_inr in Hrun as (hsgmat & s1 & Hadd & Hrun).
  injection Hadd as <- <-.
  apply bind_inr in Hrun as ([] & s2 & Hloop & Hrun).
  destruct (loop_refs_fresh _ _ _ _ _ _ _ _ Hloop) as [Hnd Hin].
  heap_le Hrun Hle. split; [done|].
  eapply Forall_impl; [exact Hin|]. simpl. intros j.
  rewrite length_app. simpl. lia.
Qed.

Lemma session_refs_fresh calls : forall s s' trace,
  Forall (fun c => prepared c = false) calls ->
  run_calls calls s = (s', inr trace) ->
  NoDup (session_refs calls s).*2 /\
  Forall (fun k => (length (heap s) <= k < length (heap s'))%nat)
    (session_refs calls s).*2.
Proof.
  induction calls as [|c calls IH]; intros s s' trace Hcs Hrun; simpl in *.
  { split; [apply NoDup_nil_2|apply Forall_nil_2]. }
  apply Forall_cons in Hcs as [Hc Hcs].
  apply bind_inr in Hrun as (r & s1 & Hcall & Hrun).
  apply bind_inr in Hrun as (rs & s2 & Hrest & [= <- _]).
  rewrite Hcall, fmap_app.
  destruct (call_refs_fresh _ _ _ _ Hc Hcall) as [Hnd1 Hin1].
  destruct (IH _ _ _ Hcs Hrest) as [Hnd2 Hin2].
  heap_le Hcall Hle1. heap_le Hrest Hle.
  rewrite Forall_forall in Hin1, Hin2. split.
  - apply NoDup_app. split_and!; [done| |done].
    intros k Hk Hk'. specialize (Hin1 _ Hk). specialize (Hin2 _ Hk').
    simpl in *. lia.
  - apply Forall_app. split; apply Forall_forall; intros k Hk.
    + specialize (Hin1 _ Hk). simpl in *. lia.
    + specialize (Hin2 _ Hk). simpl in *. lia.
Qed.

End Fresh.

Section OwnLayers.
Context {hs : PyHSPlasma} {co : Collaborators} {sc : Scene}.

(** X6. In a session of a new converter in which every call returns and
    none is a call of [export_prepared_layer], every layer is stashed at
    most once: the layer [_export_texture_type_image] stashes is the layer
    [_export_texture_slot] has just made for the slot, so no consumer list
    of the pending table names a layer twice, no layer is a consumer of two
    entries, and every consumer is an object of the session. *)
Theorem own_layers_stashed_once (calls : list Call) (s' : Session)
    (trace : list (Call * option Key)) :
  Forall (fun c => prepared c = false) calls ->
  run_calls calls MaterialConverter_init = (s', inr trace) ->
  (forall i key layers, _pending s' !! i = Some (key, layers) -> NoDup layers) /\
  consumers_disjoint (_pending s') /\
  (forall i key layers k,
     _pending s' !! i = Some (key, layers) -> k ∈ layers ->
     (k < length (heap s'))%nat).
Proof.
  intros Hown Hrun.
  pose proof (session_represents calls MaterialConverter_init s' trace [] Hrun) as Hrep.
  specialize (Hrep ltac:(by intros k)). simpl in Hrep.
  destruct (session_refs_fresh _ _ _ _ Hown Hrun) as [Hnd Hin].
  split_and!.
  - intros i key layers Hi.
    apply (represents_NoDup _ _ _ _ Hrep Hnd Hi).
  - by eapply represents_disjoint.
  - intros i key layers k Hi Hk.
    destruct (represents_entry _ _ _ _ Hrep Hi) as [_ He]. simpl in He.
    rewrite He in Hk. apply list_elem_of_fmap in Hk as (r & -> & Hr).
    apply list_elem_of_filter in Hr as [_ Hr].
    rewrite Forall_forall in Hin.
    assert (r.2 ∈ (session_refs calls MaterialConverter_init).*2) as Hr'
      by (apply list_elem_of_fmap; eauto).
    specialize (Hin _ Hr'). simpl in Hin. lia.
Qed.

End OwnLayers.


(** The references of that session: the slot asks for mipmaps, the prepared
    layer does not, and both find alpha in the image. *)
Example wall_session_refs :
  session_refs (hs := libhsplasma) (co := sample_collaborators) (sc := sample_scene)
    wall_session MaterialConverter_init
  = [ ({| image := Some wall_png; calc_alpha := false; mipmap := true;
          use_alpha := true |}, 1%nat);
      ({| image := Some wall_png; calc_alpha := false; mipmap := false;
          use_alpha := true |}, 3%nat) ].
Proof. by vm_compute. Qed.


Lemma export_material_default_layer_witness :
  mat_layers
    (export_material (hs := libhsplasma) (co := sample_collaborators)
       (sc := sample_scene) cube bare_material MaterialConverter_init).1 0%nat
  = [1%nat].
Proof.
  rewrite (proj1 (export_material_default_layer (hs := libhsplasma)
                    (co := sample_collaborators) (sc := sample_scene)
                    cube bare_material MaterialConverter_init)).
  - reflexivity.
  - reflexivity.
Defined.

Lemma envmap_image_file_raises_witness :
  (_export_texture_type_environment_map (hs := libhsplasma)
     (co := sample_collaborators) (sc := sample_scene) cube 0 1 static_envmap_slot
     (with_heap [(4%nat, OMaterial (new_material "Mat"));
                 (4%nat, OLayer (new_layer plLayer "Mat_sky"))]
        MaterialConverter_init)).2
  = inl AttributeError.
Proof.
  rewrite (envmap_image_file_raises (hs := libhsplasma) (co := sample_collaborators)
             (sc := sample_scene) cube 0 1 static_envmap_slot
             (sample_texture "sky" bpy.ENVIRONMENT_MAP None (sample_props 100 false) None)
             _ 4%nat (new_layer plLayer "Mat_sky"));
    reflexivity.
Defined.

(** A material with such a texture in a slot cannot be exported. *)
Example envmap_image_file_aborts_export :
  (export_material (hs := libhsplasma) (co := sample_collaborators)
     (sc := sample_scene) cube (sample_material [Some static_envmap_slot])
     MaterialConverter_init).2
  = inl AttributeError.
Proof. vm_compute. reflexivity. Qed.

Lemma stencil_without_next_slot_raises_witness :
  (_export_texture_slot (hs := libhsplasma) (co := sample_collaborators)
     (sc := sample_scene) cube (sample_material [Some lone_stencil]) 0
     [lone_stencil] 0 material_allocated).2
  = inl NameError.
Proof.
  refine (f_equal snd
            (proj1 (stencil_without_next_slot_raises (hs := libhsplasma)
                      (co := sample_collaborators) (sc := sample_scene)
                      cube (sample_material [Some lone_stencil]) 0 [lone_stencil] 0
                      lone_stencil
                      (sample_texture "mask" bpy.IMAGE (Some wall_png)
                         (sample_props 100 false) None)
                      material_allocated 4%nat (new_material "Mat") _ _ _ _ _)));
    reflexivity.
Defined.

(** The export of a material whose only slot is a stencil ends in the same
    exception, and the object has no material to show for it. *)
Example lone_stencil_material_run :
  let run := export_material (hs := libhsplasma) (co := sample_collaborators)
               (sc := sample_scene) cube (sample_material [Some lone_stencil])
               MaterialConverter_init in
  run.2 = inl NameError /\ _obj2mat run.1 !! "Cube" = None.
Proof. by vm_compute. Qed.

Lemma get_materials_after_session_witness :
  let s' := (run_calls (hs := libhsplasma) (co := sample_collaborators)
               (sc := sample_scene) sample_calls MaterialConverter_init).1 in
  get_materials cube s' = (s', inr [0%nat; 4%nat]).
Proof.
  intros s'.
  apply (get_materials_after_session (hs := libhsplasma) (co := sample_collaborators)
           (sc := sample_scene) sample_calls s' sample_trace cube).
  vm_compute. reflexivity.
Defined.

(** An object that has been exported with [export_waveset_material] only:
    [get_materials] raises [KeyError] for it. *)
Lemma get_materials_waveset_counterexample :
  exists s1 k,
    export_waveset_material (hs := libhsplasma) (co := sample_collaborators)
      (sc := sample_scene) cube bare_material MaterialConverter_init = (s1, inr k) /\
    get_materials cube s1 = (s1, inl KeyError).
Proof. eexists _, _. split; reflexivity. Qed.

Lemma layer_animations_without_controller_witness :
  _export_layer_animations (hs := libhsplasma) (co := sample_collaborators)
    (sc := sample_scene) cube (sample_material [Some idle_slot]) idle_slot 0 0 1
    layer_allocated
  = (with_heap
       [(4%nat, OMaterial (new_material "Mat"));
        (4%nat, OLayer (on_state (or_blendFlags 2) (new_layer plLayer "Mat_idle")))]
       MaterialConverter_init, inr 1%nat).
Proof.
  refine (proj1 (layer_animations_without_controller (hs := libhsplasma)
                   (co := sample_collaborators) (sc := sample_scene)
                   cube (sample_material [Some idle_slot]) idle_slot
                   (sample_texture "idle" bpy.NONE None (sample_props 100 false)
                      (Some {| bpy.action :=
                                 Some {| bpy.fcurves := [empty_opacity_curve];
                                         bpy.frame_range := (1, 10)%Q |} |}))
                   0 0 1 layer_allocated 4%nat (new_layer plLayer "Mat_idle")
                   _ _ _ _ _));
    [reflexivity | reflexivity | discriminate | reflexivity | reflexivity].
Defined.

(** Curves were gathered and no sub-exporter made a controller, and yet the
    blend flags of the base layer are not what they were. *)
Lemma layer_animations_modify_base_counterexample :
  let fcurves := gathered_fcurves (sample_material [Some idle_slot])
                   (sample_texture "idle" bpy.NONE None (sample_props 100 false)
                      (Some {| bpy.action :=
                                 Some {| bpy.fcurves := [empty_opacity_curve];
                                         bpy.frame_range := (1, 10)%Q |} |})) 0 in
  let run := _export_layer_animations (hs := libhsplasma)
               (co := sample_collaborators) (sc := sample_scene) cube
               (sample_material [Some idle_slot]) idle_slot 0 0 1 layer_allocated in
  fcurves <> [] /\
  opacity_controller (co := sample_collaborators) fcurves = None /\
  transform_controller (co := sample_collaborators) idle_slot fcurves = None /\
  run.2 = inr 1%nat /\
  (blendFlags ∘ state <$> (heap layer_allocated !! 1%nat ≫= fun c =>
     match c.2 with OLayer l => Some l | _ => None end)) = Some 0 /\
  (blendFlags ∘ state <$> (heap run.1 !! 1%nat ≫= fun c =>
     match c.2 with OLayer l => Some l | _ => None end)) = Some 2.
Proof. vm_compute. repeat split; discriminate || reflexivity. Qed.


(** The run behind the witness: the layers at keys 0 and 2 share the bitmap
    at key 4, the layer at key 1 has the bitmap at key 5 for itself. *)
Example sample_pages :
  let s' := (finalize (hs := libhsplasma) (co := sample_collaborators)
               textures_pending).1 in
  map (texture_of s') [0; 1; 2; 3]%nat = [Some 4; Some 5; Some 4; Some 6]%nat /\
  length (heap s') = 7%nat.
Proof. by vm_compute. Qed.


Lemma finalize_level_count_witness :
  let s' := (finalize_entry (hs := libhsplasma) (co := sample_collaborators)
               sample_key [0; 1; 2]%nat textures_pending).1 in
  raw_numLevels sample_key 256 256 = inr 9 /\
  clamp_numLevels sample_key 9 = 7 /\
  (exists name km,
     _Texture_str (co := sample_collaborators) sample_key = inr name /\
     texture_of s' 1%nat = Some km /\
     mipmap_at s' km
     = Some (1%nat,
             {| bname := name; bwidth := 256; bheight := 256; numLevels := 7;
                compType := 1; format := 0; dxtLevel := 1;
                levels := map (fun i => [Z.shiftr 256 (Z.of_nat i);
                                         Z.shiftr 256 (Z.of_nat i)])
                            (seq 0 7) |})) /\
  (true = true -> 256 = 256 -> 256 = 256 -> 9 = 9 /\ 7 = 7).
Proof.
  apply (finalize_level_count (hs := libhsplasma) (co := sample_collaborators)
           sample_key [0; 1; 2]%nat 1%nat textures_pending _ wall_png).
  - reflexivity.
  - repeat constructor.
  - vm_compute. reflexivity.
Defined.

Lemma plain_slot_opacity_witness :
  let run := _export_texture_slot (hs := libhsplasma) (co := sample_collaborators)
               (sc := sample_scene) cube (sample_material [Some glass_slot]) 0
               [glass_slot] 0 material_allocated in
  exists l : plLayerInterface,
    (opacity l == 1 # 2)%Q /\ blendFlags (state l) = 2 /\
    run.2 = inr 1%nat /\
    exists l', heap run.1 !! 1%nat = Some (4%nat, OLayer l') /\
               opacity l' = opacity l /\
               exists extra, blendFlags (state l') = Z.lor (blendFlags (state l)) extra.
Proof.
  intros run.
  destruct (plain_slot_opacity (hs := libhsplasma) (co := sample_collaborators)
              (sc := sample_scene) cube (sample_material [Some glass_slot]) 0
              [glass_slot] 0 glass_slot glass_texture material_allocated
              eq_refl eq_refl eq_refl)
    as (l & _ & _ & _ & _ & _ & _ & H50 & Hret).
  destruct H50 as [Hop Hbf]; [reflexivity..|].
  destruct (Hret run.1 1%nat) as [_ Hl]; [vm_compute; reflexivity|].
  exists l. split; [exact Hop|]. split; [exact Hbf|]. split; [reflexivity|exact Hl].
Defined.

(** The same run, computed: the layer has opacity 50/100 and blend flags
    [kBlendAlpha], and the material has the layer. *)
Example glass_slot_run :
  _export_texture_slot (hs := libhsplasma) (co := sample_collaborators)
    (sc := sample_scene) cube (sample_material [Some glass_slot]) 0
    [glass_slot] 0 material_allocated
  = (with_heap
       [(4%nat, OMaterial {| mname := "Mat"; compFlags := 0; layers := [1%nat] |});
        (4%nat, OLayer
           {| lclass := plLayer; lname := "Mat_glass";
              state := {| blendFlags := 2; clampFlags := 0; shadeFlags := 0;
                          ZFlags := 0; miscFlags := 0 |};
              opacity := (50 / 100)%Q; texture := None; UVWSrc := 0;
              transform := {| translate := (0, 0, 0)%Q; mscale := (1, 1, 1)%Q |};
              ambient := (0, 0, 0, 1)%Q;
              preshade := (1, 1, 1, 1)%Q; runtime := (1, 1, 1, 1)%Q;
              specular := (0, 0, 0, 1)%Q;
              underLay := None; opacityCtl := None; transformCtl := None;
              timeConvert := new_timeConvert |})]
       MaterialConverter_init, inr 1%nat).
Proof. by vm_compute. Qed.

Lemma stencil_slot_binds_base_witness :
  let run := _export_texture_slot (hs := libhsplasma) (co := sample_collaborators)
               (sc := sample_scene) cube
               (sample_material (Some <$> masked_slots)) 0 masked_slots 0
               material_allocated in
  run.2 = inr 2%nat /\
  exists (mid : list Key) (base_k top_k : Key),
    mat_layers run.1 0%nat = mid ++ [base_k; top_k] /\ (1 < base_k)%nat.
Proof.
  intros run. split; [reflexivity|].
  destruct (stencil_slot_binds_base (hs := libhsplasma) (co := sample_collaborators)
              (sc := sample_scene) cube
              (sample_material (Some <$> masked_slots)) 0 masked_slots 0
              lone_stencil material_allocated run.1 2 4%nat (new_material "Mat"))
    as (_ & texture & s2 & n' & mid & base_k & top_k & bloc & prev & base
        & _ & _ & _ & _ & Hlayers & _ & Hbase & _);
    [reflexivity | reflexivity | reflexivity | vm_compute; reflexivity |].
  exists mid, base_k, top_k. split; [exact Hlayers | exact Hbase].
Defined.

(** The same run, computed: the base layer (key 2, from the second slot)
    comes before the stencil layer (key 1, from the first slot); the base
    layer has [kMiscBindNext] and [kMiscRestartPassHere], and keeps the blend
    flags [kBlendAlpha] that its opacity of 50 gave it. *)
Example masked_slots_run :
  let run := _export_texture_slot (hs := libhsplasma) (co := sample_collaborators)
               (sc := sample_scene) cube
               (sample_material (Some <$> masked_slots)) 0 masked_slots 0
               material_allocated in
  run.2 = inr 2%nat /\
  mat_layers run.1 0%nat = [2; 1]%nat /\
  (lname <$> (heap run.1 !! 2%nat ≫= fun c =>
     match c.2 with OLayer l => Some l | _ => None end)) = Some "Mat_glass" /\
  (miscFlags ∘ state <$> (heap run.1 !! 2%nat ≫= fun c =>
     match c.2 with OLayer l => Some l | _ => None end))
  = Some (Z.lor (kMiscBindNext (PyHSPlasma := libhsplasma))
                (kMiscRestartPassHere (PyHSPlasma := libhsplasma))) /\
  (blendFlags ∘ state <$> (heap run.1 !! 2%nat ≫= fun c =>
     match c.2 with OLayer l => Some l | _ => None end)) = Some 2.
Proof. by vm_compute. Qed.

Lemma Texture_eq_hash_witness :
  let a := {| image := Some wall_png; calc_alpha := false; mipmap := false;
              use_alpha := true |} in
  _Texture_hash (co := sample_collaborators) a
  = _Texture_hash (co := sample_collaborators) sample_key /\
  _Texture_hash (co := sample_collaborators) (_Texture_eq a sample_key).1
  = _Texture_hash (co := sample_collaborators) a /\
  same_identity (_Texture_eq a sample_key).1 a.
Proof.
  intros a. apply (Texture_eq_hash (co := sample_collaborators) a sample_key).
  reflexivity.
Defined.

Lemma pending_table_well_formed_witness :
  pending_wf
    (_pending (run_calls (hs := libhsplasma) (co := sample_collaborators)
                 (sc := sample_scene) aborted_session MaterialConverter_init).1).
Proof.
  refine (pending_table_well_formed (hs := libhsplasma) (co := sample_collaborators)
            (sc := sample_scene) aborted_session MaterialConverter_init _
            (inl NameError) _ _).
  - split; [constructor|]. intros i j e1 e2 Hi. simpl in Hi. discriminate.
  - vm_compute. reflexivity.
Defined.

(** The session behind it: the second call raises after it has stashed the
    layer of its first slot. *)
Example aborted_session_pending :
  _pending (run_calls (hs := libhsplasma) (co := sample_collaborators)
              (sc := sample_scene) aborted_session MaterialConverter_init).1
  = [ ({| image := Some wall_png; calc_alpha := false; mipmap := true;
          use_alpha := true |}, [1; 3]%nat) ].
Proof. by vm_compute. Qed.

Lemma own_layers_stashed_once_witness :
  let s' := (run_calls (hs := libhsplasma) (co := sample_collaborators)
               (sc := sample_scene) masked_session MaterialConverter_init).1 in
  (forall i key layers, _pending s' !! i = Some (key, layers) -> NoDup layers) /\
  consumers_disjoint (_pending s') /\
  (forall i key layers k,
     _pending s' !! i = Some (key, layers) -> k ∈ layers ->
     (k < length (heap s'))%nat).
Proof.
  intros s'.
  refine (own_layers_stashed_once (hs := libhsplasma) (co := sample_collaborators)
            (sc := sample_scene) masked_session s'
            [ (ExportMaterial cube (sample_material [Some lone_stencil; Some wall_slot]),
               Some 0%nat);
              (ExportMaterial cube (sample_material [Some wall_slot]), Some 3%nat);
              (Finalize, None) ] _ _).
  - repeat constructor.
  - vm_compute. reflexivity.
Defined.

(** The session behind it: the stencil's layer is made first and stashed
    after the layer of the slot it masks; the plain slot of the second
    material joins the entry of the masked slot. *)
Example masked_session_pending :
  let s' := (run_calls (hs := libhsplasma) (co := sample_collaborators)
               (sc := sample_scene) masked_session MaterialConverter_init).1 in
  _pending s'
  = [ ({| image := Some wall_png; calc_alpha := false; mipmap := true;
          use_alpha := true |}, [2; 4]%nat);
      ({| image := Some wall_png; calc_alpha := true; mipmap := true;
          use_alpha := true |}, [1%nat]) ] /\
  length (heap s') = 7%nat.
Proof. by vm_compute. Qed.
